(** * openapi-trimmer: a shallow embedding of [openapi_trimmer/main.py]

    The development follows the Python module function by function:
    [find_component_refs], [strip_unreferenced_components], [trim_yaml],
    [build_output_path], the separator test of [read_yaml] and the
    key-ordering step of [write_trimmed_yaml].

    - A parsed YAML document is a Python value: [None], a boolean, an integer,
      a string, a list or an insertion-ordered dict with string keys.  Floats
      and timestamps are left out: the module only ever tests a scalar for
      truth, hashes it or compares it.
    - A document is a tree: no two positions share one mutable object, so the
      in-place updates of the source are rebuilt values here.
    - A Python exception is an explicit outcome, raised where the source
      raises it and ending the computation there.
    - The order in which a [set] is visited is a parameter of the functions
      that visit one.
    - Reading and writing files (the first line of the input apart), the YAML
      parser and dumper, the command line and the progress messages are
      outside the embedding. *)

From Stdlib Require Import List String Ascii Bool ZArith Lia Arith Permutation
  Sorted.
Import ListNotations.
Local Open Scope string_scope.
Local Open Scope list_scope.
Set Warnings "-register-all".


(** ** Outcomes of a Python computation *)

Inductive exn : Type :=
| AttributeError
| KeyError
| TypeError
| ValueError.

(** [Diverge] is produced only by the worklist loop when its iteration budget
    is used up; [closure_loop_enough] shows that the budget chosen by
    [strip_unreferenced_components] is never used up. *)
Inductive result (A : Type) : Type :=
| Ok (a : A)
| Raise (e : exn)
| Diverge.

Arguments Ok {A} a.
Arguments Raise {A} e.
Arguments Diverge {A}.

Definition bind {A B : Type} (r : result A) (k : A -> result B) : result B :=
  match r with
  | Ok a => k a
  | Raise e => Raise e
  | Diverge => Diverge
  end.

Notation "x <- c1 ;; c2" := (bind c1 (fun x => c2))
  (at level 61, c1 at next level, right associativity).

Definition raises {A : Type} (r : result A) : Prop := exists e, r = Raise e.

(** A [for] loop whose body may raise: the first exception ends the loop. *)
Fixpoint for_each {A S : Type} (body : S -> A -> result S) (xs : list A) (s : S)
  : result S :=
  match xs with
  | [] => Ok s
  | x :: rest => s' <- body s x ;; for_each body rest s'
  end.

(** A list comprehension [[x for x in xs if cond(x)]] whose condition may
    raise. *)
Fixpoint comprehension {A : Type} (cond : A -> result bool) (xs : list A)
  : result (list A) :=
  match xs with
  | [] => Ok []
  | x :: rest =>
      keep <- cond x ;;
      rest' <- comprehension cond rest ;;
      Ok (if keep then x :: rest' else rest')
  end.

(** ** Python strings

    A [string] is a sequence of code points below 256. *)

Module StrOps.

(** [str.isspace] on one code point of that range. *)
Definition isspace (a : ascii) : bool :=
  let n := nat_of_ascii a in
  (((9 <=? n) && (n <=? 13)) || ((28 <=? n) && (n <=? 32))
   || (n =? 133) || (n =? 160))%nat.

Fixpoint lstrip (s : string) : string :=
  match s with
  | EmptyString => EmptyString
  | String a rest => if isspace a then lstrip rest else s
  end.

Fixpoint rstrip (s : string) : string :=
  match s with
  | EmptyString => EmptyString
  | String a rest =>
      match rstrip rest with
      | EmptyString => if isspace a then EmptyString else String a EmptyString
      | kept => String a kept
      end
  end.

(** [s.strip()] *)
Definition strip (s : string) : string := rstrip (lstrip s).

(** [s.split(sep)] for a one-character separator. *)
Fixpoint split (sep : ascii) (s : string) : list string :=
  match s with
  | EmptyString => [EmptyString]
  | String a rest =>
      if Ascii.eqb a sep then EmptyString :: split sep rest
      else match split sep rest with
           | [] => [String a EmptyString]
           | seg :: segs => String a seg :: segs
           end
  end.

(** [s.startswith(p)] *)
Definition startswith (s p : string) : bool := String.prefix p s.

(** [p in s] for two strings: [p] occurs in [s] as a substring. *)
Fixpoint contains (s p : string) : bool :=
  String.prefix p s
  || match s with
     | EmptyString => false
     | String _ rest => contains rest p
     end.

(** The characters of [s], each as a one-character string (iteration over a
    [str]). *)
Fixpoint chars (s : string) : list string :=
  match s with
  | EmptyString => []
  | String a rest => String a EmptyString :: chars rest
  end.

(** [bool(s)] *)
Definition nonempty (s : string) : bool :=
  match s with EmptyString => false | _ => true end.

End StrOps.

(** [[x.strip() for x in raw.split(",") if x.strip()]]: the way both the
    prefix list and the exclusion list are read from their command-line
    strings ([trim_yaml], lines 83-85 and 104-108). *)
Definition split_list (raw : string) : list string :=
  map StrOps.strip
      (filter (fun x => StrOps.nonempty (StrOps.strip x))
              (StrOps.split "," raw)).

(** ** Parsed documents

    [yaml.safe_load] yields [None], booleans, integers, strings, lists and
    insertion-ordered dicts.  Dict keys are strings; a dict is the list of its
    items in insertion order. *)

Inductive value : Type :=
| PyNone
| PyBool (b : bool)
| PyInt (z : Z)
| PyStr (s : string)
| PyList (items : list value)
| PyDict (entries : list (string * value)).

Definition dict : Type := list (string * value).

Section value_induction.
Variable P : value -> Prop.
Hypothesis HNone : P PyNone.
Hypothesis HBool : forall b, P (PyBool b).
Hypothesis HInt : forall z, P (PyInt z).
Hypothesis HStr : forall s, P (PyStr s).
Hypothesis HList : forall items, Forall P items -> P (PyList items).
Hypothesis HDict :
  forall entries, Forall (fun kv => P (snd kv)) entries -> P (PyDict entries).

Fixpoint value_nested_ind (v : value) : P v :=
  match v with
  | PyNone => HNone
  | PyBool b => HBool b
  | PyInt z => HInt z
  | PyStr s => HStr s
  | PyList items =>
      HList items
        ((fix all (l : list value) : Forall P l :=
            match l with
            | [] => Forall_nil P
            | x :: r => Forall_cons x (value_nested_ind x) (all r)
            end) items)
  | PyDict entries =>
      HDict entries
        ((fix all (l : list (string * value))
            : Forall (fun kv => P (snd kv)) l :=
            match l with
            | [] => Forall_nil _
            | kv :: r =>
                Forall_cons kv (value_nested_ind (snd kv)) (all r)
            end) entries)
  end.
End value_induction.

(** [bool(v)], as used by [if component:] and [if not comp_items:]. *)
Definition truthy (v : value) : bool :=
  match v with
  | PyNone => false
  | PyBool b => b
  | PyInt z => negb (Z.eqb z 0)
  | PyStr s => StrOps.nonempty s
  | PyList items => match items with [] => false | _ => true end
  | PyDict entries => match entries with [] => false | _ => true end
  end.

(** Lists and dicts cannot be hashed, so they cannot be members of a set. *)
Definition hashable (v : value) : bool :=
  match v with
  | PyList _ | PyDict _ => false
  | _ => true
  end.

(** [a == b] on hashable values; [True == 1] and [False == 0] hold in
    Python. *)
Definition py_eq (a b : value) : bool :=
  match a, b with
  | PyNone, PyNone => true
  | PyBool x, PyBool y => Bool.eqb x y
  | PyBool x, PyInt z | PyInt z, PyBool x => Z.eqb z (if x then 1 else 0)
  | PyInt x, PyInt y => Z.eqb x y
  | PyStr x, PyStr y => String.eqb x y
  | _, _ => false
  end.

(** ** Dict operations on the item list *)

Fixpoint dict_get (k : string) (d : dict) : option value :=
  match d with
  | [] => None
  | (k', v) :: rest => if String.eqb k' k then Some v else dict_get k rest
  end.

Definition dict_has (k : string) (d : dict) : bool :=
  match dict_get k d with Some _ => true | None => false end.

(** [d[k] = v]: an existing key keeps its position, a new key goes last. *)
Fixpoint dict_set (k : string) (v : value) (d : dict) : dict :=
  match d with
  | [] => [(k, v)]
  | (k', v') :: rest =>
      if String.eqb k' k then (k, v) :: rest else (k', v') :: dict_set k v rest
  end.

(** [del d[k]] and [d.pop(k, None)] for their effect on [d]. *)
Definition dict_del (k : string) (d : dict) : dict :=
  filter (fun kv => negb (String.eqb (fst kv) k)) d.

Definition keys (d : dict) : list string := map fst d.

(** The invariant of a Python dict: no key occurs twice. *)
Fixpoint unique_keys (ks : list string) : bool :=
  match ks with
  | [] => true
  | k :: rest => negb (existsb (String.eqb k) rest) && unique_keys rest
  end.

(** ** Methods and operators that depend on the dynamic type *)

(** [v.get(k, default)]: only a dict has the method. *)
Definition py_get (v : value) (k : string) (default : value) : result value :=
  match v with
  | PyDict d => Ok (match dict_get k d with Some x => x | None => default end)
  | _ => Raise AttributeError
  end.

(** [v.items()] *)
Definition py_items (v : value) : result dict :=
  match v with
  | PyDict d => Ok d
  | _ => Raise AttributeError
  end.

(** [v[k]] with a string subscript. *)
Definition py_getitem (v : value) (k : string) : result value :=
  match v with
  | PyDict d =>
      match dict_get k d with
      | Some x => Ok x
      | None => Raise KeyError
      end
  | _ => Raise TypeError
  end.

(** [for x in v]: the elements of a list, the keys of a dict, the characters
    of a string. *)
Definition py_iter (v : value) : result (list value) :=
  match v with
  | PyList items => Ok items
  | PyDict d => Ok (map PyStr (keys d))
  | PyStr s => Ok (map PyStr (StrOps.chars s))
  | _ => Raise TypeError
  end.

(** [k in v] with a string on the left. *)
Definition py_contains (v : value) (k : string) : result bool :=
  match v with
  | PyDict d => Ok (dict_has k d)
  | PyList items => Ok (existsb (py_eq (PyStr k)) items)
  | PyStr s => Ok (StrOps.contains s k)
  | _ => Raise TypeError
  end.

(** [del v[k]] with a string subscript, for a key known to be in [v]. *)
Definition py_delitem (v : value) (k : string) : result value :=
  match v with
  | PyDict d =>
      if dict_has k d then Ok (PyDict (dict_del k d)) else Raise KeyError
  | _ => Raise TypeError
  end.

(** A Python [set] of hashable values, as the list of its members. *)
Definition pyset : Type := list value.

Definition set_mem (x : value) (s : pyset) : bool := existsb (py_eq x) s.

(** [x in s] for a set [s]: hashing [x] comes first. *)
Definition py_in_set (x : value) (s : pyset) : result bool :=
  if hashable x then Ok (set_mem x s) else Raise TypeError.

Definition set_add (s : pyset) (x : value) : result pyset :=
  if hashable x then Ok (if set_mem x s then s else s ++ [x])
  else Raise TypeError.

(** [s.update(iterable)] *)
Definition set_update (s : pyset) (iterable : value) : result pyset :=
  xs <- py_iter iterable ;; for_each set_add xs s.

(** ** Reference maps: [refs], [new_refs] and [to_process]

    A dict from component category to the set of component names, in
    insertion order of the categories. *)

Definition names : Type := list string.
Definition refmap : Type := list (string * names).

Definition name_mem (n : string) (ns : names) : bool :=
  existsb (String.eqb n) ns.

(** [ns.update(more)] *)
Definition names_union (ns more : names) : names :=
  fold_left (fun acc n => if name_mem n acc then acc else acc ++ [n]) more ns.

(** [refs.get(c, set())] *)
Fixpoint refs_get (c : string) (refs : refmap) : names :=
  match refs with
  | [] => []
  | (c', ns) :: rest => if String.eqb c' c then ns else refs_get c rest
  end.

Definition refs_mem (c n : string) (refs : refmap) : bool :=
  name_mem n (refs_get c refs).

(** [refs.setdefault(c, set()).update(more)]; with [more = []] it is the bare
    [refs.setdefault(c, set())]. *)
Fixpoint refs_union (c : string) (more : names) (refs : refmap) : refmap :=
  match refs with
  | [] => [(c, names_union [] more)]
  | (c', ns) :: rest =>
      if String.eqb c' c then (c', names_union ns more) :: rest
      else (c', ns) :: refs_union c more rest
  end.

(** [refs.setdefault(c, set()).add(n)] *)
Definition refs_add (c n : string) (refs : refmap) : refmap :=
  refs_union c [n] refs.

(** [n_names - existing] *)
Definition names_diff (n_names existing : names) : names :=
  filter (fun n => negb (name_mem n existing)) n_names.

(** [d.popitem()]: the item inserted last, and the dict without it. *)
Definition popitem {A : Type} (d : list A) : option (A * list A) :=
  match rev d with
  | [] => None
  | last :: before => Some (last, rev before)
  end.

(** ** [find_component_refs] (lines 123-134) *)

(** The test on a [$ref] string and the pair it names: [parts[2]] and
    [parts[3]] of [ref.split('/')] when the string starts with
    [#/components/] and has at least four parts. *)
Definition component_ref (ref : string) : option (string * string) :=
  if StrOps.startswith ref "#/components/" then
    match StrOps.split "/" ref with
    | _ :: _ :: category :: name :: _ => Some (category, name)
    | _ => None
    end
  else None.

Definition record_ref (node : dict) (refs : refmap) : refmap :=
  match dict_get "$ref" node with
  | Some (PyStr ref) =>
      match component_ref ref with
      | Some (category, name) => refs_add category name refs
      | None => refs
      end
  | _ => refs
  end.

Fixpoint find_component_refs (node : value) (refs : refmap) : refmap :=
  match node with
  | PyDict entries =>
      (fix values (l : list (string * value)) (refs : refmap) : refmap :=
         match l with
         | [] => refs
         | (_, v) :: rest => values rest (find_component_refs v refs)
         end) entries (record_ref entries refs)
  | PyList items =>
      (fix each (l : list value) (refs : refmap) : refmap :=
         match l with
         | [] => refs
         | item :: rest => each rest (find_component_refs item refs)
         end) items refs
  | _ => refs
  end.

(** ** [strip_unreferenced_components] (lines 137-168) *)

(** [components.get(comp_type, {}).get(name)] *)
Definition lookup_component (components : value) (comp_type name : string)
  : result value :=
  category <- py_get components comp_type (PyDict []) ;;
  py_get category name PyNone.

(** Lines 151-155, for one item of [new_refs]. *)
Definition merge_refs (st : refmap * refmap) (item : string * names)
  : refmap * refmap :=
  let '(refs, to_process) := st in
  let '(n_type, n_names) := item in
  let refs := refs_union n_type [] refs in
  let diff := names_diff n_names (refs_get n_type refs) in
  match diff with
  | [] => (refs, to_process)
  | _ => (refs_union n_type diff refs, refs_union n_type diff to_process)
  end.

(** Lines 146-155, the body of [for name in names]. *)
Definition expand_name (components : value) (comp_type : string)
    (st : refmap * refmap) (name : string) : result (refmap * refmap) :=
  component <- lookup_component components comp_type name ;;
  if truthy component then
    let new_refs := find_component_refs component [] in
    Ok (fold_left merge_refs new_refs st)
  else Ok st.

(** All the pairs a catalog definition refers to; the loop can only ever add
    pairs of this list to [refs]. *)
Definition refs_pairs (refs : refmap) : list (string * string) :=
  flat_map (fun item => map (pair (fst item)) (snd item)) refs.

Definition definitions_edges (category : value) : list (string * string) :=
  match category with
  | PyDict defs =>
      flat_map (fun kv => refs_pairs (find_component_refs (snd kv) [])) defs
  | _ => []
  end.

Definition catalog_edges (components : value) : list (string * string) :=
  match components with
  | PyDict categories =>
      flat_map (fun kv => definitions_edges (snd kv)) categories
  | _ => []
  end.

Definition unreached (components : value) (refs : refmap)
  : list (string * string) :=
  filter (fun p => negb (refs_mem (fst p) (snd p) refs))
         (catalog_edges components).

(** An iteration budget for the worklist loop: every iteration either takes a
    batch from [to_process] for good or reaches a pair not reached before. *)
Definition closure_fuel (components : value) (refs to_process : refmap) : nat :=
  2 * List.length (unreached components refs) + List.length to_process.

(** [sorted(data.items(), key=...)] is stable; insertion into a sorted list
    after the items with an equal key keeps it so. *)
Fixpoint insert_by_key {A : Type} (x : nat * A) (sorted : list (nat * A))
  : list (nat * A) :=
  match sorted with
  | [] => [x]
  | y :: rest =>
      if (fst x <? fst y)%nat then x :: sorted else y :: insert_by_key x rest
  end.

Definition sort_by_key {A : Type} (xs : list (nat * A)) : list (nat * A) :=
  fold_right insert_by_key [] xs.

(** [l.index(k)] *)
Fixpoint list_index (k : string) (l : list string) : result nat :=
  match l with
  | [] => Raise ValueError
  | x :: rest =>
      if String.eqb x k then Ok 0 else i <- list_index k rest ;; Ok (S i)
  end.

Section Trimmer.

(** The order in which [for name in names] visits a set is not specified by
    Python; [set_iter] is that order. *)
Variable set_iter : names -> names.

(** The [while to_process] loop (lines 143-155). *)
Fixpoint closure_loop (fuel : nat) (components : value)
    (refs to_process : refmap) : result refmap :=
  match popitem to_process with
  | None => Ok refs
  | Some ((comp_type, batch), to_process) =>
      match fuel with
      | O => Diverge
      | S fuel =>
          st <- for_each (expand_name components comp_type)
                         (set_iter batch) (refs, to_process) ;;
          closure_loop fuel components (fst st) (snd st)
      end
  end.

(** Lines 157-163.  On a dict, deleting the unused names one by one leaves
    the used items in their order, and deleting the emptied categories
    leaves the others in theirs. *)
Fixpoint sweep (refs : refmap) (categories : dict) : result dict :=
  match categories with
  | [] => Ok []
  | (comp_type, comp_items) :: rest =>
      items <- py_items comp_items ;;
      let used := refs_get comp_type refs in
      let kept := filter (fun kv => name_mem (fst kv) used) items in
      rest <- sweep refs rest ;;
      Ok (match kept with
          | [] => rest
          | _ => (comp_type, PyDict kept) :: rest
          end)
  end.

(** The loop is given [closure_fuel] iterations, which is enough
    ([closure_loop_enough]). *)
Definition strip_unreferenced_components (data : value) : result value :=
  paths <- py_get data "paths" (PyDict []) ;;
  let refs := find_component_refs paths [] in
  let to_process := refs in
  components <- py_get data "components" (PyDict []) ;;
  refs <- closure_loop (closure_fuel components refs to_process)
                       components refs to_process ;;
  categories <- py_items components ;;
  kept <- sweep refs categories ;;
  data <- py_items data ;;
  Ok (PyDict (match kept with
              | [] => dict_del "components" data
              | _ => dict_set "components" (PyDict kept) data
              end)).

(** ** [trim_yaml] (lines 82-120) *)

(** The condition of the dict comprehension of lines 89-90. *)
Definition retained (prefixes : list string) (item : string * value) : bool :=
  existsb (fun retain => StrOps.startswith (fst item) retain) prefixes.

(** Lines 92-95. *)
Definition harvest_tags (paths : dict) : result pyset :=
  for_each
    (fun paths_tags item =>
       methods <- py_items (snd item) ;;
       for_each
         (fun paths_tags method =>
            tags <- py_get (snd method) "tags" (PyList []) ;;
            set_update paths_tags tags)
         methods paths_tags)
    paths [].

(** Lines 99-101. *)
Definition filter_tags (paths_tags : pyset) (data : dict) : result dict :=
  match dict_get "tags" data with
  | None => Ok data
  | Some tags =>
      tags <- py_iter tags ;;
      kept <- comprehension
                (fun tag => name <- py_getitem tag "name" ;;
                            py_in_set name paths_tags)
                tags ;;
      Ok (dict_set "tags" (PyList kept) data)
  end.

(** Lines 114-115, for one [component]; [data['components']] is known to
    exist. *)
Definition exclude_component (data : dict) (component : string)
  : result dict :=
  components <- py_getitem (PyDict data) "components" ;;
  schemas <- py_getitem components "schemas" ;;
  present <- py_contains schemas component ;;
  if present then
    schemas <- py_delitem schemas component ;;
    categories <- py_items components ;;
    Ok (dict_set "components"
                 (PyDict (dict_set "schemas" schemas categories)) data)
  else Ok data.

(** Lines 103-115. *)
Definition exclude_components_stage (exclude_components : option string)
    (data : dict) : result dict :=
  match exclude_components with
  | None => Ok data
  | Some raw =>
      if StrOps.nonempty raw then
        if dict_has "components" data
        then for_each exclude_component (split_list raw) data
        else Ok data
      else Ok data
  end.

(** Lines 89-97: the retained paths are stored under [data['paths']] and
    the tags of their operations are collected. *)
Definition path_filter (prefixes : list string) (data : value)
  : result (dict * pyset) :=
  section <- py_get data "paths" (PyDict []) ;;
  items <- py_items section ;;
  let paths := filter (retained prefixes) items in
  paths_tags <- harvest_tags paths ;;
  data <- py_items data ;;
  Ok (dict_set "paths" (PyDict paths) data, paths_tags).

Definition trim_yaml (prefixes : string) (exclude_components : option string)
    (strip_components : bool) (data : value) : result value :=
  let prefixes := split_list prefixes in
  st <- path_filter prefixes data ;;
  data <- filter_tags (snd st) (fst st) ;;
  data <- exclude_components_stage exclude_components data ;;
  if strip_components && dict_has "components" data
  then strip_unreferenced_components (PyDict data)
  else Ok (PyDict data).

(** ** [write_trimmed_yaml] (lines 182-194) *)

Definition top_level_order : list string :=
  ["openapi"; "info"; "tags"; "paths"; "components"].

(** Lines 183-186: the items handed to [yaml.dump], or the [ValueError] of
    [list.index]; the file is opened only afterwards. *)
Definition write_trimmed_yaml (data : value) : result dict :=
  items <- py_items data ;;
  keyed <- for_each
             (fun acc item =>
                i <- list_index (fst item) top_level_order ;;
                Ok (acc ++ [(i, item)]))
             items [] ;;
  Ok (map snd (sort_by_key keyed)).

(** [trim_openapi] (lines 202-208) between reading and writing the files. *)
Definition trim_openapi (data : value) (prefixes : string)
    (exclude_components : option string) (strip_components : bool)
  : result dict :=
  data <- trim_yaml prefixes exclude_components strip_components data ;;
  write_trimmed_yaml data.

End Trimmer.

(** ** [build_output_path] (lines 171-179)

    [os.path.splitext] is the one of [posixpath]: the separator is [/], the
    extension starts at the last dot of the last component, leading dots of
    that component apart. *)

Module PosixPath.

(** [s.rfind(c)] for a one-character [c], counting from [i]: the index of the
    last occurrence, or [-1]. *)
Fixpoint rfind_from (c : ascii) (s : string) (i : Z) : Z :=
  match s with
  | EmptyString => (-1)%Z
  | String a rest =>
      let later := rfind_from c rest (i + 1) in
      if (0 <=? later)%Z then later
      else if Ascii.eqb a c then i else (-1)%Z
  end.

Definition rfind (c : ascii) (s : string) : Z := rfind_from c s 0.

(** [p[:n]] and [p[n:]] for [n >= 0]. *)
Fixpoint take (n : nat) (s : string) : string :=
  match n, s with
  | S n, String a rest => String a (take n rest)
  | _, _ => EmptyString
  end.

Fixpoint drop (n : nat) (s : string) : string :=
  match n, s with
  | S n, String _ rest => drop n rest
  | _, _ => s
  end.

(** The [while filenameIndex < dotIndex] loop of [_splitext]: [true] when it
    returns from inside, at a character that is not a dot. *)
Fixpoint name_before_dot (p : string) (filenameIndex steps : nat) : bool :=
  match steps with
  | O => false
  | S steps =>
      match String.get filenameIndex p with
      | Some "."%char => name_before_dot p (S filenameIndex) steps
      | _ => true
      end
  end.

Definition has_extension (p : string) : bool :=
  let sepIndex := rfind "/" p in
  let dotIndex := rfind "." p in
  (sepIndex <? dotIndex)%Z
  && name_before_dot p (Z.to_nat (sepIndex + 1))
                     (Z.to_nat (dotIndex - (sepIndex + 1))).

Definition splitext (p : string) : string * string :=
  if has_extension p
  then (take (Z.to_nat (rfind "." p)) p, drop (Z.to_nat (rfind "." p)) p)
  else (p, EmptyString).

End PosixPath.

Definition build_output_path (input_path : string)
    (output_path : option string) : string :=
  let default :=
    (fst (PosixPath.splitext input_path) ++ "-trimmed"
     ++ snd (PosixPath.splitext input_path))%string in
  match output_path with
  | Some path => if StrOps.nonempty path then path else default
  | None => default
  end.

(** ** The document separator ([read_yaml], lines 63-69, and
    [write_trimmed_yaml], lines 190-194) *)

(** [file.readline()] at the start of a file opened in text mode: the line
    ends at the first line feed or carriage return (followed by a line feed or
    not), which is read as a line feed. *)
Fixpoint readline (text : string) : string :=
  match text with
  | EmptyString => EmptyString
  | String a rest =>
      if Ascii.eqb a "010" || Ascii.eqb a "013" then String "010" EmptyString
      else String a (readline rest)
  end.

(** The flag [read_yaml] returns beside the parsed document. *)
Definition has_yaml_doc_separator (text : string) : bool :=
  String.eqb (StrOps.strip (readline text)) "---".

(** The text [write_trimmed_yaml] writes, [dumped] being the output of
    [yaml.dump]. *)
Definition written_text (separator : bool) (dumped : string) : string :=
  if separator then ("---" ++ String "010" dumped)%string else dumped.

(** Nothing is left of the text, or a line ends here. *)
Definition at_line_end (tail : string) : bool :=
  match tail with
  | EmptyString => true
  | String a _ => Ascii.eqb a "010" || Ascii.eqb a "013"
  end.

(** ** Notions used to state the properties *)

(** [occurs_in sub whole]: [sub] is [whole] or one of the values nested in it,
    at any depth, under any key or index. *)
Inductive occurs_in (sub : value) : value -> Prop :=
| occurs_here : occurs_in sub sub
| occurs_item items x :
    In x items -> occurs_in sub x -> occurs_in sub (PyList items)
| occurs_value entries k x :
    In (k, x) entries -> occurs_in sub x -> occurs_in sub (PyDict entries).

Fixpoint has_char (a : ascii) (s : string) : bool :=
  match s with
  | EmptyString => false
  | String b rest => Ascii.eqb b a || has_char a rest
  end.

(** The internal-pointer shape [#/components/<category>/<name>], possibly
    followed by further [/]-separated segments. *)
Definition internal_pointer (ref category name : string) : Prop :=
  has_char "/" category = false /\
  has_char "/" name = false /\
  exists rest,
    ref = ("#/components/" ++ category ++ "/" ++ name ++ rest)%string /\
    (rest = "" \/ exists more, rest = String "/" more).

(** [node] holds, somewhere, a mapping whose [$ref] is a string of the
    internal-pointer shape for [(category, name)]. *)
Definition refers_to (node : value) (category name : string) : Prop :=
  exists entries ref,
    occurs_in (PyDict entries) node /\
    dict_get "$ref" entries = Some (PyStr ref) /\
    internal_pointer ref category name.

(** The Component Catalog of a document: [data.get('components', {})], and the
    definition it holds for a pair. *)
Definition components_of (data : dict) : value :=
  match dict_get "components" data with
  | Some components => components
  | None => PyDict []
  end.

Definition paths_of (data : dict) : value :=
  match dict_get "paths" data with
  | Some paths => paths
  | None => PyDict []
  end.

Definition catalog_def (components : value) (category name : string)
  : option value :=
  match components with
  | PyDict categories =>
      match dict_get category categories with
      | Some (PyDict defs) => dict_get name defs
      | _ => None
      end
  | _ => None
  end.

(** The catalog has the shape of the data model: a mapping from category to
    mapping, each category once. *)
Definition is_dict (v : value) : bool :=
  match v with PyDict _ => true | _ => false end.

Definition dicts_only (components : value) : bool :=
  match components with
  | PyDict categories => forallb (fun kv => is_dict (snd kv)) categories
  | _ => false
  end.

Definition catalog_shaped (components : value) : bool :=
  dicts_only components
  && match components with
     | PyDict categories => unique_keys (keys categories)
     | _ => false
     end.

(** Reachability from the retained paths by a finite chain of references. *)
Inductive reachable (paths components : value) : string -> string -> Prop :=
| reach_path c n :
    refers_to paths c n -> reachable paths components c n
| reach_component c0 n0 def c n :
    reachable paths components c0 n0 ->
    catalog_def components c0 n0 = Some def ->
    refers_to def c n ->
    reachable paths components c n.

(** The categories of a reference map; like any dict, [refs] holds each key
    once. *)
Definition keys_of_refs (refs : refmap) : list string := map fst refs.

(** ** Documents of the data model

    Every operation of a path item is a mapping whose [tags], if any, is a
    list of scalars; [tags], if present, is a list of mappings with a scalar
    [name]; the catalog is a mapping of mappings. *)

Definition operation_ok (operation : value) : bool :=
  match operation with
  | PyDict entries =>
      match dict_get "tags" entries with
      | None => true
      | Some (PyList tags) => forallb hashable tags
      | Some _ => false
      end
  | _ => false
  end.

Definition path_item_ok (item : value) : bool :=
  match item with
  | PyDict methods => forallb (fun kv => operation_ok (snd kv)) methods
  | _ => false
  end.

Definition tag_ok (tag : value) : bool :=
  match tag with
  | PyDict entries =>
      match dict_get "name" entries with
      | Some name => hashable name
      | None => false
      end
  | _ => false
  end.

Definition document_ok (data : dict) : bool :=
  match paths_of data with
  | PyDict items => forallb (fun kv => path_item_ok (snd kv)) items
  | _ => false
  end
  && match dict_get "tags" data with
     | None => true
     | Some (PyList tags) => forallb tag_ok tags
     | Some _ => false
     end
  && catalog_shaped (components_of data).

(** ** Invariants of the worklist loop *)

(** [refs'] holds every pair of [refs]. *)
Definition refs_le (refs refs' : refmap) : Prop :=
  forall c n, refs_mem c n refs = true -> refs_mem c n refs' = true.

(** Everything reached or waiting is reachable. *)
Definition sound_wrt (paths components : value) (refs to_process : refmap)
  : Prop :=
  (forall c n, refs_mem c n refs = true -> reachable paths components c n) /\
  (forall c n, In (c, n) (refs_pairs to_process) ->
               reachable paths components c n).

(** The references of the definition of [(c, n)], if it has one, are all in
    [refs]. *)
Definition expanded_wrt (components : value) (refs : refmap) (c n : string)
  : Prop :=
  forall d c' n',
    catalog_def components c n = Some d -> refers_to d c' n' ->
    refs_mem c' n' refs = true.

(** Every pair reached so far is waiting in [to_process], waiting in the batch
    being visited (category [c0], names [remaining]), or expanded. *)
Definition pending_wrt (components : value) (refs to_process : refmap)
    (c0 : string) (remaining : names) : Prop :=
  forall c n,
    refs_mem c n refs = true ->
    In (c, n) (refs_pairs to_process) \/ (c = c0 /\ In n remaining) \/
    expanded_wrt components refs c n.

(** Whitespace only, and whitespace at either end of a string. *)
Fixpoint all_space (s : string) : bool :=
  match s with
  | EmptyString => true
  | String a rest => StrOps.isspace a && all_space rest
  end.

Definition starts_with_space (s : string) : bool :=
  match s with
  | EmptyString => false
  | String a _ => StrOps.isspace a
  end.

Fixpoint ends_with_space (s : string) : bool :=
  match s with
  | EmptyString => false
  | String a EmptyString => StrOps.isspace a
  | String _ rest => ends_with_space rest
  end.

(** ** Further notions *)

(** The position of a top-level key in the fixed order, [5] for a key that is
    not in it. *)
Definition key_rank (k : string) : nat :=
  match list_index k top_level_order with
  | Ok i => i
  | _ => List.length top_level_order
  end.

(** The elements of the [tags] of an operation, as [set.update] visits them;
    none when there is no [tags]. *)
Definition operation_tags (operation : value) : list value :=
  match operation with
  | PyDict entries =>
      match dict_get "tags" entries with
      | Some tags =>
          match py_iter tags with
          | Ok elements => elements
          | _ => []
          end
      | None => []
      end
  | _ => []
  end.

(** Some operation of some path item of [paths] carries a tag equal to
    [name]. *)
Definition tag_used (paths : dict) (name : value) : Prop :=
  exists path methods method operation tag,
    In (path, PyDict methods) paths /\
    In (method, operation) methods /\
    In tag (operation_tags operation) /\
    py_eq name tag = true.

(** [tag['name'] in paths_tags] as a test on a tag definition. *)
Definition tag_kept (paths_tags : pyset) (tag : value) : bool :=
  match py_getitem tag "name" with
  | Ok name => set_mem name paths_tags
  | _ => false
  end.

(** The top-level keys after [data['paths'] = paths]. *)
Definition keys_with_paths (d : dict) : list string :=
  if dict_has "paths" d then keys d else keys d ++ ["paths"].

Definition not_components (k : string) : bool :=
  negb (String.eqb k "components").

(** What [paths_tags.update(method_value.get('tags', []))] needs of an
    operation: a mapping whose [tags], if any, can be visited and holds
    hashable values only. *)
Definition operation_harvestable (operation : value) : bool :=
  match operation with
  | PyDict entries =>
      match dict_get "tags" entries with
      | None => true
      | Some tags =>
          match py_iter tags with
          | Ok elements => forallb hashable elements
          | _ => false
          end
      end
  | _ => false
  end.

Definition path_item_harvestable (item : value) : bool :=
  match item with
  | PyDict methods =>
      forallb (fun kv => operation_harvestable (snd kv)) methods
  | _ => false
  end.

(** ** Example documents *)

(** One admissible visiting order: the order of insertion. *)
Definition insertion_order (ns : names) : names := ns.

(** Schemas [A] and [B] refer to each other, [C] is referred to by nothing,
    and the only path refers to [A]. *)
Definition doc_cycle : dict :=
  [("openapi", PyStr "3.0.0");
   ("paths",
    PyDict
      [("/v1/users",
        PyDict
          [("get",
            PyDict
              [("responses",
                PyDict
                  [("200",
                    PyDict
                      [("$ref", PyStr "#/components/schemas/A")])])])])]);
   ("components",
    PyDict
      [("schemas",
        PyDict
          [("A", PyDict [("$ref", PyStr "#/components/schemas/B")]);
           ("B", PyDict [("$ref", PyStr "#/components/schemas/A")]);
           ("C", PyDict [])])])].

(** The only path refers to a schema the catalog does not have. *)
Definition doc_dangling : dict :=
  [("paths",
    PyDict
      [("/v1/users",
        PyDict
          [("get",
            PyDict [("$ref", PyStr "#/components/schemas/Missing")])])]);
   ("components",
    PyDict [("schemas", PyDict [("Other", PyDict [("type", PyStr "object")])])])].

(** Two paths with a tag each. *)
Definition doc_users_orders : dict :=
  [("paths",
    PyDict
      [("/v1/users", PyDict [("get", PyDict [("tags", PyList [PyStr "Users"])])]);
       ("/v2/orders",
        PyDict [("get", PyDict [("tags", PyList [PyStr "Orders"])])])]);
   ("tags",
    PyList [PyDict [("name", PyStr "Users")]; PyDict [("name", PyStr "Orders")]])].

(** A document without a [paths] section. *)
Definition doc_no_paths : dict :=
  [("openapi", PyStr "3.0.0"); ("info", PyDict [("title", PyStr "API")])].

(** A catalog with parameters but no [schemas] category. *)
Definition doc_no_schemas : dict :=
  [("paths", PyDict []);
   ("components",
    PyDict [("parameters", PyDict [("Limit", PyDict [("in", PyStr "query")])])])].

(** The only schema is referred to by nothing; the parameter is in use. *)
Definition doc_unused_schema : dict :=
  [("paths",
    PyDict
      [("/v1/users",
        PyDict
          [("get",
            PyDict
              [("parameters",
                PyList
                  [PyDict [("$ref", PyStr "#/components/parameters/Limit")]])])])]);
   ("components",
    PyDict
      [("schemas", PyDict [("Unused", PyDict [("type", PyStr "object")])]);
       ("parameters", PyDict [("Limit", PyDict [("in", PyStr "query")])])])].

(** A path item with a path-level [parameters] list next to its operation. *)
Definition doc_path_parameters : dict :=
  [("paths",
    PyDict
      [("/v1/users",
        PyDict
          [("parameters",
            PyList [PyDict [("name", PyStr "limit"); ("in", PyStr "query")]]);
           ("get", PyDict [("tags", PyList [PyStr "Users"])])])])].

(** A document with a [servers] section. *)
Definition doc_servers : dict :=
  [("openapi", PyStr "3.0.0");
   ("servers", PyList [PyDict [("url", PyStr "https://example.org")]]);
   ("paths", PyDict [])].

(** [doc_users_orders] trimmed to the prefix [/v1]. *)
Definition doc_users_only : dict :=
  [("paths",
    PyDict
      [("/v1/users", PyDict [("get", PyDict [("tags", PyList [PyStr "Users"])])])]);
   ("tags", PyList [PyDict [("name", PyStr "Users")]])].

(** [doc_unused_schema] trimmed to the prefix [/v1], the schema [Unused]
    excluded, unreferenced components stripped. *)
Definition doc_unused_schema_trimmed : dict :=
  [("paths",
    PyDict
      [("/v1/users",
        PyDict
          [("get",
            PyDict
              [("parameters",
                PyList
                  [PyDict [("$ref", PyStr "#/components/parameters/Limit")]])])])]);
   ("components",
    PyDict [("parameters", PyDict [("Limit", PyDict [("in", PyStr "query")])])])].

(** [doc_cycle] trimmed to the prefix [/v1], unreferenced components
    stripped. *)
Definition doc_cycle_trimmed : dict :=
  [("openapi", PyStr "3.0.0");
   ("paths",
    PyDict
      [("/v1/users",
        PyDict
          [("get",
            PyDict
              [("responses",
                PyDict
                  [("200",
                    PyDict
                      [("$ref", PyStr "#/components/schemas/A")])])])])]);
   ("components",
    PyDict
      [("schemas",
        PyDict
          [("A", PyDict [("$ref", PyStr "#/components/schemas/B")]);
           ("B", PyDict [("$ref", PyStr "#/components/schemas/A")])])])].

(** Boolean equality tests read as equations. *)
Ltac eqb_to_eq :=
  repeat match goal with
    | H : Z.eqb _ _ = true |- _ => apply Z.eqb_eq in H
    | H : String.eqb _ _ = true |- _ => apply String.eqb_eq in H
    | H : Bool.eqb _ _ = true |- _ => apply Bool.eqb_prop in H
    | |- Z.eqb _ _ = true => apply Z.eqb_eq
    | |- String.eqb _ _ = true => apply String.eqb_eq
    | |- Bool.eqb _ _ = true => apply Bool.eqb_true_iff
    end.

(** * Properties *)

(** ** Strings *)

Lemma startswith_iff s p :
  StrOps.startswith s p = true <-> exists rest, s = (p ++ rest)%string.
Proof.
  unfold StrOps.startswith. revert s.
  induction p as [|a p IH]; intros s.
  - split; [intros _; exists s; reflexivity | now destruct s].
  - destruct s as [|b s]; simpl.
    + split; [discriminate | intros [rest H]; discriminate].
    + destruct (ascii_dec a b) as [->|Hne].
      * rewrite IH. split; intros [rest H]; exists rest; congruence.
      * split; [discriminate | intros [rest H]; congruence].
Qed.

Lemma append_empty s : (s ++ "")%string = s.
Proof. induction s; simpl; congruence. Qed.

Lemma split_not_nil sep s : StrOps.split sep s <> [].
Proof.
  destruct s as [|a s]; simpl; [discriminate|].
  destruct (Ascii.eqb a sep); [discriminate|].
  destruct (StrOps.split sep s); discriminate.
Qed.

Lemma split_plain sep s :
  has_char sep s = false -> StrOps.split sep s = [s].
Proof.
  induction s as [|a s IH]; simpl; intros H; [reflexivity|].
  apply orb_false_iff in H as [Ha Hs].
  rewrite Ha, (IH Hs). reflexivity.
Qed.

Lemma split_app sep a b :
  has_char sep a = false ->
  StrOps.split sep (a ++ String sep b)%string = a :: StrOps.split sep b.
Proof.
  induction a as [|x a IH]; simpl; intros H.
  - now rewrite Ascii.eqb_refl.
  - apply orb_false_iff in H as [Hx Ha].
    rewrite Hx, (IH Ha). reflexivity.
Qed.

Lemma split_cons_inv sep s seg segs :
  StrOps.split sep s = seg :: segs ->
  has_char sep seg = false /\
  ((segs = [] /\ s = seg) \/
   exists b, s = (seg ++ String sep b)%string /\ segs = StrOps.split sep b).
Proof.
  revert seg segs. induction s as [|a s IH]; simpl; intros seg segs H.
  - injection H as <- <-. split; [reflexivity | left; split; reflexivity].
  - destruct (Ascii.eqb a sep) eqn:Ha.
    + apply Ascii.eqb_eq in Ha. subst a. injection H as <- <-.
      split; [reflexivity|]. right. exists s. split; reflexivity.
    + destruct (StrOps.split sep s) as [|seg' segs'] eqn:Hs.
      * now apply split_not_nil in Hs.
      * injection H as <- <-.
        destruct (IH _ _ eq_refl) as [Hno [[-> ->] | [b [-> ->]]]].
        -- split; [simpl; now rewrite Ha|]. left. split; reflexivity.
        -- split; [simpl; now rewrite Ha|]. right. exists b.
           split; reflexivity.
Qed.

Lemma component_ref_iff ref c n :
  component_ref ref = Some (c, n) <-> internal_pointer ref c n.
Proof.
  unfold component_ref, internal_pointer. split.
  - destruct (StrOps.startswith ref "#/components/") eqn:Hp; [|discriminate].
    apply startswith_iff in Hp as [tail ->].
    change (StrOps.split "/" ("#/components/" ++ tail)%string)
      with ("#" :: "components" :: StrOps.split "/" tail).
    destruct (StrOps.split "/" tail) as [|c' [|n' more]] eqn:Hs;
      try discriminate.
    intros H. injection H as -> ->.
    apply split_cons_inv in Hs as [Hc [[Hnil _] | [b [-> Hb]]]];
      [discriminate|].
    symmetry in Hb.
    apply split_cons_inv in Hb as [Hn [[_ ->] | [b' [-> _]]]].
    + repeat split; trivial. exists "". split; [|now left].
      now rewrite append_empty.
    + repeat split; trivial. exists (String "/" b'). split; [reflexivity|].
      right. now exists b'.
  - intros (Hc & Hn & rest & -> & Hrest).
    replace (StrOps.startswith _ _) with true
      by (symmetry; apply startswith_iff; eexists; reflexivity).
    change (StrOps.split "/" ("#/components/" ++ c ++ "/" ++ n ++ rest)%string)
      with ("#" :: "components" :: StrOps.split "/" (c ++ String "/" (n ++ rest))%string).
    rewrite (split_app _ _ _ Hc).
    destruct Hrest as [-> | [more ->]].
    + rewrite append_empty. now rewrite (split_plain _ _ Hn).
    + rewrite (split_app _ _ _ Hn). reflexivity.
Qed.

Lemma join_split sep s :
  String.concat (String sep "") (StrOps.split sep s) = s.
Proof.
  induction s as [|a s IH]; simpl; [reflexivity|].
  destruct (Ascii.eqb_spec a sep) as [->|Hne].
  - destruct (StrOps.split sep s) as [|seg segs] eqn:Hs.
    + now apply split_not_nil in Hs.
    + simpl in *. now rewrite IH.
  - destruct (StrOps.split sep s) as [|seg segs] eqn:Hs.
    + now apply split_not_nil in Hs.
    + simpl in *. destruct segs; simpl in *; now rewrite <- IH.
Qed.

Lemma lstrip_spec s :
  exists l,
    s = (l ++ StrOps.lstrip s)%string /\ all_space l = true /\
    starts_with_space (StrOps.lstrip s) = false.
Proof.
  induction s as [|a s (l & Hl & Hsp & Hst)]; simpl.
  - exists "". repeat split.
  - destruct (StrOps.isspace a) eqn:Ha.
    + exists (String a l). simpl. rewrite Ha, Hsp. repeat split; trivial.
      now rewrite <- Hl.
    + exists "". simpl. repeat split; trivial.
Qed.

Lemma rstrip_spec s :
  exists r,
    s = (StrOps.rstrip s ++ r)%string /\ all_space r = true /\
    ends_with_space (StrOps.rstrip s) = false /\
    (starts_with_space s = false ->
     starts_with_space (StrOps.rstrip s) = false).
Proof.
  induction s as [|a s (r & Hr & Hsp & Hend & _)]; simpl.
  - exists "". repeat split.
  - destruct (StrOps.rstrip s) as [|b kept] eqn:Hk.
    + destruct (StrOps.isspace a) eqn:Ha.
      * exists (String a r). simpl in *. rewrite Ha, Hsp.
        repeat split; trivial. now rewrite <- Hr.
      * exists r. simpl in *. rewrite Ha. repeat split; trivial.
        now rewrite <- Hr.
    + exists r. simpl in *. repeat split; trivial. now rewrite <- Hr.
Qed.

(** [strip] takes the whitespace off both ends and nothing else. *)
Lemma str_strip_spec s :
  exists l r,
    s = (l ++ StrOps.strip s ++ r)%string /\
    all_space l = true /\ all_space r = true /\
    starts_with_space (StrOps.strip s) = false /\
    ends_with_space (StrOps.strip s) = false.
Proof.
  unfold StrOps.strip.
  destruct (lstrip_spec s) as (l & Hl & Hsl & Hst).
  destruct (rstrip_spec (StrOps.lstrip s)) as (r & Hr & Hsr & Hend & Hkeep).
  exists l, r. repeat split; auto. now rewrite <- Hr.
Qed.

(** ** Reference maps *)

Lemma name_mem_In n ns : name_mem n ns = true <-> In n ns.
Proof.
  unfold name_mem. rewrite existsb_exists. split.
  - intros [x [Hx He]]. apply String.eqb_eq in He. now subst.
  - intros H. exists n. split; [assumption | apply String.eqb_refl].
Qed.

Lemma name_mem_false n ns : name_mem n ns = false <-> ~ In n ns.
Proof.
  rewrite <- name_mem_In. destruct (name_mem n ns); split; congruence.
Qed.

Lemma names_union_In n more : forall ns,
  In n (names_union ns more) <-> In n ns \/ In n more.
Proof.
  unfold names_union.
  induction more as [|m more IH]; intros ns; simpl.
  - tauto.
  - rewrite IH. destruct (name_mem m ns) eqn:Hm.
    + apply name_mem_In in Hm. split; [tauto|].
      intros [H | [<- | H]]; tauto.
    + rewrite in_app_iff. simpl. tauto.
Qed.

Lemma names_diff_In n a b : In n (names_diff a b) <-> In n a /\ ~ In n b.
Proof.
  unfold names_diff. rewrite filter_In, negb_true_iff, name_mem_false. tauto.
Qed.

Lemma refs_get_union c' c more refs :
  refs_get c' (refs_union c more refs) =
  if String.eqb c c' then names_union (refs_get c refs) more
  else refs_get c' refs.
Proof.
  induction refs as [|[k ns] refs IH]; simpl.
  - destruct (String.eqb_spec c c'); reflexivity.
  - destruct (String.eqb_spec k c) as [->|Hk]; simpl.
    + destruct (String.eqb_spec c c') as [->|Hc]; [reflexivity|reflexivity].
    + destruct (String.eqb_spec k c') as [->|Hk'].
      * destruct (String.eqb_spec c c'); [congruence | reflexivity].
      * apply IH.
Qed.

Lemma refs_mem_union c' n c more refs :
  refs_mem c' n (refs_union c more refs) = true <->
  refs_mem c' n refs = true \/ (c' = c /\ In n more).
Proof.
  unfold refs_mem. rewrite refs_get_union.
  destruct (String.eqb_spec c c') as [->|Hc].
  - rewrite !name_mem_In, names_union_In. tauto.
  - split; [tauto | intros [H | [H _]]; congruence].
Qed.

Lemma refs_union_keys c more refs :
  keys_of_refs (refs_union c more refs) = keys_of_refs refs \/
  (~ In c (keys_of_refs refs) /\
   keys_of_refs (refs_union c more refs) = keys_of_refs refs ++ [c]).
Proof.
  unfold keys_of_refs.
  induction refs as [|[k ns] refs IH]; simpl.
  - right. split; [tauto | reflexivity].
  - destruct (String.eqb_spec k c) as [->|Hk]; simpl; [now left|].
    destruct IH as [-> | [Hn ->]]; [now left|].
    right. split; [|reflexivity]. intros [H | H]; tauto.
Qed.

Lemma refs_union_length c more refs :
  List.length (refs_union c more refs) <= S (List.length refs).
Proof.
  induction refs as [|[k ns] refs IH]; simpl; [lia|].
  destruct (String.eqb k c); simpl; lia.
Qed.

Lemma refs_union_NoDup c more refs :
  NoDup (keys_of_refs refs) -> NoDup (keys_of_refs (refs_union c more refs)).
Proof.
  intros H. destruct (refs_union_keys c more refs) as [-> | [Hn ->]];
    [assumption|].
  apply NoDup_app; [assumption | repeat constructor; intros [] | ].
  intros x Hx [<- | []]. contradiction.
Qed.

Lemma refs_get_In c ns refs :
  NoDup (keys_of_refs refs) -> In (c, ns) refs -> refs_get c refs = ns.
Proof.
  unfold keys_of_refs.
  induction refs as [|[k ms] refs IH]; simpl; intros Hnd Hin; [contradiction|].
  inversion Hnd as [|? ? Hk Hnd']; subst.
  destruct Hin as [Heq | Hin].
  - injection Heq as -> ->. now rewrite String.eqb_refl.
  - destruct (String.eqb_spec k c) as [->|Hne]; [|now apply IH].
    exfalso. apply Hk. change c with (fst (c, ns)). now apply in_map.
Qed.

Lemma refs_pairs_In c n refs :
  In (c, n) (refs_pairs refs) <-> exists ns, In (c, ns) refs /\ In n ns.
Proof.
  unfold refs_pairs. rewrite in_flat_map. split.
  - intros [[k ns] [Hin Hp]]. simpl in Hp. apply in_map_iff in Hp.
    destruct Hp as [x [Hx Hn]]. injection Hx as -> ->. now exists ns.
  - intros [ns [Hin Hn]]. exists (c, ns). split; [assumption|].
    simpl. now apply in_map.
Qed.

Lemma refs_mem_pairs c n refs :
  refs_mem c n refs = true -> In (c, n) (refs_pairs refs).
Proof.
  unfold refs_mem. rewrite name_mem_In, refs_pairs_In.
  induction refs as [|[k ns] refs IH]; simpl; [contradiction|].
  destruct (String.eqb_spec k c) as [->|Hne].
  - intros H. exists ns. split; [now left | assumption].
  - intros H. destruct (IH H) as [ms [Hin Hm]]. exists ms.
    split; [now right | assumption].
Qed.

Lemma pairs_refs_mem c n refs :
  NoDup (keys_of_refs refs) -> In (c, n) (refs_pairs refs) ->
  refs_mem c n refs = true.
Proof.
  intros Hnd H. apply refs_pairs_In in H as [ns [Hin Hn]].
  unfold refs_mem. rewrite (refs_get_In _ _ _ Hnd Hin). now apply name_mem_In.
Qed.

(** ** The scanner *)

Lemma find_refs_dict entries refs :
  find_component_refs (PyDict entries) refs =
  fold_left (fun r kv => find_component_refs (snd kv) r) entries
            (record_ref entries refs).
Proof.
  simpl. generalize (record_ref entries refs).
  induction entries as [|[k v] entries IH]; intros r; simpl; [reflexivity|].
  apply IH.
Qed.

Lemma find_refs_list items refs :
  find_component_refs (PyList items) refs =
  fold_left (fun r x => find_component_refs x r) items refs.
Proof.
  simpl. revert refs.
  induction items as [|x items IH]; intros r; simpl; [reflexivity|].
  apply IH.
Qed.

Lemma record_ref_mem entries refs c n :
  refs_mem c n (record_ref entries refs) = true <->
  refs_mem c n refs = true \/
  exists ref, dict_get "$ref" entries = Some (PyStr ref) /\
              internal_pointer ref c n.
Proof.
  unfold record_ref.
  destruct (dict_get "$ref" entries) as [[| | |ref| |]|];
    try (split; [tauto | intros [H | [r [H _]]]; [assumption | discriminate]]).
  destruct (component_ref ref) as [[c' n']|] eqn:Href.
  - unfold refs_add. rewrite refs_mem_union. simpl.
    apply component_ref_iff in Href.
    split.
    + intros [H | [-> [<- | []]]]; [now left|]. right. now exists ref.
    + intros [H | [r [Hr Hp]]]; [now left|]. injection Hr as <-.
      apply component_ref_iff in Hp. apply component_ref_iff in Href.
      rewrite Href in Hp. injection Hp as -> ->. right. split; [reflexivity|now left].
  - split; [tauto|]. intros [H | [r [Hr Hp]]]; [assumption|].
    injection Hr as <-. apply component_ref_iff in Hp. congruence.
Qed.

Lemma occurs_in_dict sub entries :
  occurs_in sub (PyDict entries) <->
  sub = PyDict entries \/
  exists k x, In (k, x) entries /\ occurs_in sub x.
Proof.
  split.
  - intros H. inversion H; subst; [now left|]. right. eauto.
  - intros [-> | [k [x [Hin Ho]]]]; [constructor|]. eapply occurs_value; eauto.
Qed.

Lemma occurs_in_list sub items :
  occurs_in sub (PyList items) <->
  sub = PyList items \/ exists x, In x items /\ occurs_in sub x.
Proof.
  split.
  - intros H. inversion H; subst; [now left|]. right. eauto.
  - intros [-> | [x [Hin Ho]]]; [constructor|]. eapply occurs_item; eauto.
Qed.

Lemma refers_to_dict entries c n :
  refers_to (PyDict entries) c n <->
  (exists ref, dict_get "$ref" entries = Some (PyStr ref) /\
               internal_pointer ref c n) \/
  exists k x, In (k, x) entries /\ refers_to x c n.
Proof.
  unfold refers_to. split.
  - intros (e & ref & Ho & Hg & Hp). apply occurs_in_dict in Ho.
    destruct Ho as [Heq | (k & x & Hin & Ho)].
    + injection Heq as ->. left. eauto.
    + right. exists k, x. split; [assumption|]. eauto.
  - intros [(ref & Hg & Hp) | (k & x & Hin & e & ref & Ho & Hg & Hp)].
    + exists entries, ref. split; [constructor | tauto].
    + exists e, ref. split; [|tauto]. eapply occurs_value; eauto.
Qed.

Lemma refers_to_list items c n :
  refers_to (PyList items) c n <-> exists x, In x items /\ refers_to x c n.
Proof.
  unfold refers_to. split.
  - intros (e & ref & Ho & Hg & Hp). apply occurs_in_list in Ho.
    destruct Ho as [Heq | (x & Hin & Ho)]; [discriminate|].
    exists x. split; [assumption|]. eauto.
  - intros (x & Hin & e & ref & Ho & Hg & Hp).
    exists e, ref. split; [|tauto]. eapply occurs_item; eauto.
Qed.

Lemma refers_to_scalar v c n :
  is_dict v = false -> (forall items, v <> PyList items) -> ~ refers_to v c n.
Proof.
  intros Hd Hl (e & ref & Ho & _). inversion Ho; subst.
  - discriminate.
  - now apply (Hl items).
  - discriminate.
Qed.

(** What the scanner adds to [refs]: the pairs [node] refers to. *)
Lemma find_refs_mem node : forall refs c n,
  refs_mem c n (find_component_refs node refs) = true <->
  refs_mem c n refs = true \/ refers_to node c n.
Proof.
  induction node as [| b | z | s | items IH | entries IH]
    using value_nested_ind; intros refs c n;
    try (simpl; split; [tauto|];
         intros [H | H]; [assumption|];
         exfalso; revert H; apply refers_to_scalar;
         [reflexivity | discriminate]).
  - rewrite find_refs_list, refers_to_list. revert refs.
    induction IH as [|x items Hx _ IHl]; intros refs; simpl.
    + split; [tauto | intros [H | [x [[] _]]]; assumption].
    + rewrite IHl, Hx. split.
      * intros [[H | H] | [y [Hy Hr]]]; eauto.
      * intros [H | [y [[<- | Hy] Hr]]]; eauto.
  - rewrite find_refs_dict, refers_to_dict.
    assert (Hfold : forall (l : dict) r,
      Forall (fun kv => forall refs c n,
        refs_mem c n (find_component_refs (snd kv) refs) = true <->
        refs_mem c n refs = true \/ refers_to (snd kv) c n) l ->
      (refs_mem c n
         (fold_left (fun r kv => find_component_refs (snd kv) r) l r) = true <->
       refs_mem c n r = true \/
       exists k x, In (k, x) l /\ refers_to x c n)).
    { clear. intros l r H. revert r.
      induction H as [|[k x] l Hx _ IHl]; intros r; simpl.
      - split; [tauto | intros [H | (k & x & [] & _)]; assumption].
      - rewrite IHl, Hx. simpl. split.
        + intros [[H | H] | (k' & y & Hy & Hr)]; eauto 6.
        + intros [H | (k' & y & [Heq | Hy] & Hr)]; eauto 6.
          injection Heq as <- <-. eauto. }
    rewrite (Hfold _ _ IH), record_ref_mem. tauto.
Qed.

Lemma record_ref_NoDup entries refs :
  NoDup (keys_of_refs refs) -> NoDup (keys_of_refs (record_ref entries refs)).
Proof.
  unfold record_ref. intros H.
  destruct (dict_get "$ref" entries) as [[| | |ref| |]|]; trivial.
  destruct (component_ref ref) as [[c n]|]; trivial.
  now apply refs_union_NoDup.
Qed.

Lemma find_refs_NoDup node : forall refs,
  NoDup (keys_of_refs refs) ->
  NoDup (keys_of_refs (find_component_refs node refs)).
Proof.
  induction node as [| b | z | s | items IH | entries IH]
    using value_nested_ind; intros refs Hnd; trivial.
  - rewrite find_refs_list. revert refs Hnd.
    induction IH as [|x items Hx _ IHl]; intros refs Hnd; simpl; auto.
  - rewrite find_refs_dict. apply record_ref_NoDup with (entries := entries) in Hnd.
    revert Hnd. generalize (record_ref entries refs).
    induction IH as [|x items Hx _ IHl]; intros r Hnd; simpl; auto.
Qed.

(** The pairs listed in a fresh scan are the pairs the node refers to. *)
Lemma scan_pairs node c n :
  In (c, n) (refs_pairs (find_component_refs node [])) <-> refers_to node c n.
Proof.
  split.
  - intros H. apply pairs_refs_mem in H; [|apply find_refs_NoDup; constructor].
    apply find_refs_mem in H as [H | H]; [discriminate | assumption].
  - intros H. apply refs_mem_pairs, find_refs_mem. now right.
Qed.

(** ** Dicts *)

Lemma dict_get_In k v (d : dict) : dict_get k d = Some v -> In (k, v) d.
Proof.
  induction d as [|[k' v'] d IH]; simpl; [discriminate|].
  destruct (String.eqb_spec k' k) as [->|Hne].
  - intros H. injection H as ->. now left.
  - intros H. right. now apply IH.
Qed.

Lemma popitem_None {A} (d : list A) : popitem d = None -> d = [].
Proof.
  unfold popitem. destruct (rev d) eqn:H; [|discriminate].
  intros _. apply (f_equal (@rev A)) in H. now rewrite rev_involutive in H.
Qed.

Lemma popitem_Some {A} (d : list A) x rest :
  popitem d = Some (x, rest) -> d = rest ++ [x].
Proof.
  unfold popitem. destruct (rev d) as [|y r] eqn:H; [discriminate|].
  intros E. injection E as -> <-.
  apply (f_equal (@rev A)) in H. rewrite rev_involutive in H. now subst.
Qed.

(** ** The worklist loop ends *)

Lemma filter_length_le {A} (f g : A -> bool) l :
  (forall x, In x l -> f x = true -> g x = true) ->
  List.length (filter f l) <= List.length (filter g l).
Proof.
  induction l as [|a l IH]; simpl; intros H; [lia|].
  assert (IH' := IH (fun x Hx => H x (or_intror Hx))).
  destruct (f a) eqn:Hf.
  - rewrite (H a (or_introl eq_refl) Hf). simpl. lia.
  - destruct (g a); simpl; lia.
Qed.

Lemma filter_length_lt {A} (f g : A -> bool) l x :
  (forall x, In x l -> f x = true -> g x = true) ->
  In x l -> g x = true -> f x = false ->
  List.length (filter f l) < List.length (filter g l).
Proof.
  induction l as [|a l IH]; simpl; intros H Hin Hg Hf; [contradiction|].
  assert (Hle := filter_length_le f g l (fun x Hx => H x (or_intror Hx))).
  destruct Hin as [-> | Hin].
  - rewrite Hf, Hg. simpl. lia.
  - assert (IH' := IH (fun x Hx => H x (or_intror Hx)) Hin Hg Hf).
    destruct (f a) eqn:Hfa.
    + rewrite (H a (or_introl eq_refl) Hfa). simpl. lia.
    + destruct (g a); simpl; lia.
Qed.

Lemma unreached_le components refs refs' :
  refs_le refs refs' ->
  List.length (unreached components refs')
  <= List.length (unreached components refs).
Proof.
  intros H. unfold unreached. apply filter_length_le.
  intros [c n] _. simpl. rewrite !negb_true_iff. intros Hf.
  destruct (refs_mem c n refs) eqn:Hm; [|reflexivity].
  apply H in Hm. congruence.
Qed.

Lemma unreached_lt components refs refs' c n :
  refs_le refs refs' ->
  In (c, n) (catalog_edges components) ->
  refs_mem c n refs = false -> refs_mem c n refs' = true ->
  List.length (unreached components refs')
  < List.length (unreached components refs).
Proof.
  intros H Hin Hf Ht. unfold unreached.
  apply filter_length_lt with (x := (c, n)); simpl; trivial.
  - intros [c' n'] _. simpl. rewrite !negb_true_iff. intros Hf'.
    destruct (refs_mem c' n' refs) eqn:Hm; [|reflexivity].
    apply H in Hm. congruence.
  - now rewrite Hf.
  - now rewrite Ht.
Qed.

Lemma merge_refs_fuel components refs to_process n_type n_names :
  (forall n, In n n_names -> In (n_type, n) (catalog_edges components)) ->
  let st := merge_refs (refs, to_process) (n_type, n_names) in
  refs_le refs (fst st) /\
  closure_fuel components (fst st) (snd st)
  <= closure_fuel components refs to_process.
Proof.
  intros Hedges. unfold merge_refs.
  set (refs1 := refs_union n_type [] refs).
  assert (H1 : forall c n, refs_mem c n refs1 = true <-> refs_mem c n refs = true).
  { intros c n. unfold refs1. rewrite refs_mem_union. simpl. tauto. }
  destruct (names_diff n_names (refs_get n_type refs1)) as [|x diff] eqn:Hd;
    simpl.
  - split; [intros c n; apply H1|].
    unfold closure_fuel.
    assert (Hle := unreached_le components refs refs1
                     (fun c n => proj2 (H1 c n))). lia.
  - assert (Hx : In x (names_diff n_names (refs_get n_type refs1)))
      by (rewrite Hd; now left).
    apply names_diff_In in Hx as [Hx Hnew].
    assert (Hle : refs_le refs (refs_union n_type (x :: diff) refs1)).
    { intros c n Hm. apply refs_mem_union. left. now apply H1. }
    split; [assumption|].
    unfold closure_fuel.
    assert (Hlt := unreached_lt components refs
                     (refs_union n_type (x :: diff) refs1) n_type x Hle
                     (Hedges x Hx)).
    assert (Hlen := refs_union_length n_type (x :: diff) to_process).
    enough (List.length (unreached components
                           (refs_union n_type (x :: diff) refs1))
            < List.length (unreached components refs)) by lia.
    apply Hlt.
    + destruct (refs_mem n_type x refs) eqn:Hm; [|reflexivity].
      apply H1 in Hm. unfold refs_mem in Hm. apply name_mem_In in Hm.
      contradiction.
    + apply refs_mem_union. right. split; [reflexivity | now left].
Qed.

Lemma refs_le_trans a b c : refs_le a b -> refs_le b c -> refs_le a c.
Proof. unfold refs_le. auto. Qed.

Lemma fold_merge_fuel components new_refs : forall st,
  (forall c n, In (c, n) (refs_pairs new_refs) ->
               In (c, n) (catalog_edges components)) ->
  let st' := fold_left merge_refs new_refs st in
  refs_le (fst st) (fst st') /\
  closure_fuel components (fst st') (snd st')
  <= closure_fuel components (fst st) (snd st).
Proof.
  induction new_refs as [|[c ns] new_refs IH]; intros [refs tp] Hedges; simpl.
  - split; [intros ? ?; trivial | lia].
  - destruct (merge_refs_fuel components refs tp c ns) as [Hle Hfuel].
    { intros n Hn. apply Hedges. apply refs_pairs_In. exists ns.
      split; [now left | assumption]. }
    destruct (IH (merge_refs (refs, tp) (c, ns))) as [Hle' Hfuel'].
    { intros c' n' H. apply Hedges. apply refs_pairs_In in H as [ms [Hin Hm]].
      apply refs_pairs_In. exists ms. split; [now right | assumption]. }
    split; [eapply refs_le_trans; eassumption | simpl in *; lia].
Qed.

Lemma lookup_component_spec components c n v :
  lookup_component components c n = Ok v ->
  v = match catalog_def components c n with Some d => d | None => PyNone end.
Proof.
  unfold lookup_component, catalog_def.
  destruct components as [| | | | |cats]; simpl; try discriminate.
  destruct (dict_get c cats) as [[| | | | |defs]|]; simpl; try discriminate.
  - destruct (dict_get n defs); intros H; now injection H.
  - intros H; now injection H.
Qed.

Lemma catalog_def_edges components c n d c' n' :
  catalog_def components c n = Some d ->
  In (c', n') (refs_pairs (find_component_refs d [])) ->
  In (c', n') (catalog_edges components).
Proof.
  unfold catalog_def, catalog_edges.
  destruct components as [| | | | |cats]; try discriminate.
  destruct (dict_get c cats) as [[| | | | |defs]|] eqn:Hc; try discriminate.
  intros Hd Hin. apply dict_get_In in Hc. apply dict_get_In in Hd.
  apply in_flat_map. exists (c, PyDict defs). split; [assumption|].
  simpl. apply in_flat_map. exists (n, d). split; assumption.
Qed.

Lemma expand_name_fuel components c st n st' :
  expand_name components c st n = Ok st' ->
  refs_le (fst st) (fst st') /\
  closure_fuel components (fst st') (snd st')
  <= closure_fuel components (fst st) (snd st).
Proof.
  unfold expand_name.
  destruct (lookup_component components c n) as [v| |] eqn:Hl; simpl;
    try discriminate.
  destruct (truthy v) eqn:Ht.
  - intros H. injection H as <-. apply fold_merge_fuel.
    apply lookup_component_spec in Hl.
    destruct (catalog_def components c n) as [d|] eqn:Hd.
    + subst v. intros c' n'. now apply catalog_def_edges with (c := c) (n := n).
    + subst v. discriminate.
  - intros H. injection H as <-. split; [intros ? ?; trivial | lia].
Qed.

Lemma for_names_fuel components c ns : forall st st',
  for_each (expand_name components c) ns st = Ok st' ->
  refs_le (fst st) (fst st') /\
  closure_fuel components (fst st') (snd st')
  <= closure_fuel components (fst st) (snd st).
Proof.
  induction ns as [|n ns IH]; intros st st'; simpl.
  - intros H. injection H as <-. split; [intros ? ?; trivial | lia].
  - destruct (expand_name components c st n) as [st1| |] eqn:He; simpl;
      try discriminate.
    intros H. apply expand_name_fuel in He as [Hle Hf].
    apply IH in H as [Hle' Hf'].
    split; [eapply refs_le_trans; eassumption | lia].
Qed.

Lemma expand_name_returns components c st n :
  expand_name components c st n <> Diverge.
Proof.
  unfold expand_name, lookup_component.
  destruct components as [| | | | |cats]; simpl; try discriminate.
  destruct (dict_get c cats) as [[| | | | |defs]|]; simpl; try discriminate.
  - destruct (truthy _); discriminate.
Qed.

Lemma for_each_returns {A S} (body : S -> A -> result S) xs :
  (forall s x, body s x <> Diverge) ->
  forall s, for_each body xs s <> Diverge.
Proof.
  intros Hb. induction xs as [|x xs IH]; intros s; simpl; [discriminate|].
  destruct (body s x) eqn:E; simpl; [apply IH | discriminate |].
  now apply Hb in E.
Qed.

Section Loop.
Variable set_iter : names -> names.

(** Any budget of at least [closure_fuel] iterations is enough: the loop
    ends, and with the same outcome. *)
Lemma closure_loop_enough components : forall fuel fuel' refs to_process,
  closure_fuel components refs to_process <= fuel ->
  closure_fuel components refs to_process <= fuel' ->
  closure_loop set_iter fuel components refs to_process
  = closure_loop set_iter fuel' components refs to_process /\
  closure_loop set_iter fuel components refs to_process <> Diverge.
Proof.
  induction fuel as [|fuel IH]; intros fuel' refs tp Hf Hf';
    destruct tp as [|item tp0] eqn:Etp.
  - destruct fuel'; simpl; split; (reflexivity || discriminate).
  - unfold closure_fuel in Hf. simpl in Hf. lia.
  - destruct fuel'; simpl; split; (reflexivity || discriminate).
  - rewrite <- Etp in *. clear Etp item tp0.
    destruct fuel' as [|fuel'].
    { unfold closure_fuel in Hf'. 
      destruct tp; simpl in *; [|lia].
      split; [reflexivity|discriminate]. }
    simpl. destruct (popitem tp) as [[[c batch] rest]|] eqn:Hp;
      [|split; [reflexivity | discriminate]].
    apply popitem_Some in Hp.
    assert (Hlen : List.length tp = S (List.length rest))
      by (rewrite Hp, length_app; simpl; lia).
    destruct (for_each (expand_name components c) (set_iter batch)
                       (refs, rest)) as [st| |] eqn:Hfor; simpl.
    + apply for_names_fuel in Hfor as [_ Hfuel]. simpl in Hfuel.
      unfold closure_fuel in *. apply IH; lia.
    + split; [reflexivity | discriminate].
    + exfalso. revert Hfor. apply for_each_returns.
      apply expand_name_returns.
Qed.
End Loop.

(** ** The worklist loop computes the reachable pairs *)

Lemma refs_union_pairs c n k more refs :
  In (c, n) (refs_pairs (refs_union k more refs)) <->
  In (c, n) (refs_pairs refs) \/ (c = k /\ In n more).
Proof.
  rewrite !refs_pairs_In.
  induction refs as [|[k' ns] refs IH]; simpl.
  - split.
    + intros [ms [[H | []] Hn]]. injection H as <- <-.
      apply names_union_In in Hn as [[] | Hn]. now right.
    + intros [[ms [[] _]] | [-> Hn]]. exists (names_union [] more).
      split; [now left|]. apply names_union_In. now right.
  - destruct (String.eqb_spec k' k) as [->|Hne].
    + split.
      * intros [ms [[H | H] Hn]].
        -- injection H as <- <-. apply names_union_In in Hn as [Hn | Hn];
             [|now right]. left. exists ns. split; [now left | assumption].
        -- left. exists ms. split; [now right | assumption].
      * intros [[ms [[H | H] Hn]] | [-> Hn]].
        -- injection H as <- <-. exists (names_union ns more).
           split; [now left|]. apply names_union_In. now left.
        -- exists ms. split; [now right | assumption].
        -- exists (names_union ns more).
           split; [now left|]. apply names_union_In. now right.
    + split.
      * intros [ms [[H | H] Hn]].
        -- injection H as <- <-. left. exists ns. split; [now left | assumption].
        -- destruct (proj1 IH (ex_intro _ ms (conj H Hn))) as [[ms' [H1 H2]] | H1].
           ++ left. exists ms'. split; [now right | assumption].
           ++ now right.
      * intros [[ms [[H | H] Hn]] | Hr].
        -- injection H as <- <-. exists ns. split; [now left | assumption].
        -- destruct (proj2 IH (or_introl (ex_intro _ ms (conj H Hn))))
             as [ms' [H1 H2]].
           exists ms'. split; [now right | assumption].
        -- destruct (proj2 IH (or_intror Hr)) as [ms' [H1 H2]].
           exists ms'. split; [now right | assumption].
Qed.

Lemma falsy_no_refs v c n : truthy v = false -> ~ refers_to v c n.
Proof.
  intros Hv (e & ref & Ho & Hg & _).
  destruct v as [| | | |[|x items]|[|kv entries]]; simpl in Hv;
    try discriminate; inversion Ho; subst; try discriminate;
    contradiction.
Qed.

Section Closure.
Variable set_iter : names -> names.
Hypothesis set_iter_perm : forall ns, Permutation (set_iter ns) ns.
Variables paths components : value.

Local Abbreviation reach := (reachable paths components).
Local Abbreviation sound := (sound_wrt paths components).
Local Abbreviation expanded := (expanded_wrt components).
Local Abbreviation pending := (pending_wrt components).

Lemma expanded_mono refs refs' c n :
  refs_le refs refs' -> expanded refs c n -> expanded refs' c n.
Proof. unfold expanded_wrt. intros Hle H d c' n' Hd Hr. eauto. Qed.

Lemma merge_refs_inv refs tp c0 remaining n_type n_names :
  (forall n, In n n_names -> reach n_type n) ->
  sound refs tp -> pending refs tp c0 remaining ->
  let st := merge_refs (refs, tp) (n_type, n_names) in
  sound (fst st) (snd st) /\ pending (fst st) (snd st) c0 remaining /\
  refs_le refs (fst st) /\
  (forall n, In n n_names -> refs_mem n_type n (fst st) = true).
Proof.
  intros Hreach [Hs1 Hs2] Hpend. unfold merge_refs.
  set (refs1 := refs_union n_type [] refs).
  assert (H1 : forall c n,
             refs_mem c n refs1 = true <-> refs_mem c n refs = true).
  { intros c n. unfold refs1. rewrite refs_mem_union. simpl. tauto. }
  assert (Hle1 : refs_le refs refs1) by (intros c n; apply H1).
  destruct (names_diff n_names (refs_get n_type refs1)) as [|x diff] eqn:Hd;
    simpl.
  - split; [split|split; [|split]].
    + intros c n Hm. apply Hs1. now apply H1.
    + assumption.
    + intros c n Hm. apply H1 in Hm.
      destruct (Hpend c n Hm) as [H | [H | H]]; auto.
      right; right. eapply expanded_mono; eassumption.
    + assumption.
    + intros n Hn. unfold refs_mem. apply name_mem_In.
      destruct (in_dec string_dec n (refs_get n_type refs1)) as [H | H];
        [assumption|].
      assert (Hin : In n (names_diff n_names (refs_get n_type refs1)))
        by (apply names_diff_In; tauto).
      rewrite Hd in Hin. contradiction.
  - rewrite <- Hd.
    set (diff' := names_diff n_names (refs_get n_type refs1)).
    assert (Hle : refs_le refs (refs_union n_type diff' refs1)).
    { intros c n Hm. apply refs_mem_union. left. now apply H1. }
    split; [split|split; [|split]].
    + intros c n Hm. apply refs_mem_union in Hm as [Hm | [-> Hm]].
      * apply Hs1. now apply H1.
      * apply Hreach. apply names_diff_In in Hm. tauto.
    + intros c n Hm. apply refs_union_pairs in Hm as [Hm | [-> Hm]].
      * now apply Hs2.
      * apply Hreach. apply names_diff_In in Hm. tauto.
    + intros c n Hm. apply refs_mem_union in Hm as [Hm | [-> Hm]].
      * apply H1 in Hm. destruct (Hpend c n Hm) as [H | [H | H]].
        -- left. apply refs_union_pairs. now left.
        -- right; now left.
        -- right; right. eapply expanded_mono; eassumption.
      * left. apply refs_union_pairs. now right.
    + assumption.
    + intros n Hn. apply refs_mem_union.
      destruct (in_dec string_dec n (refs_get n_type refs1)) as [H | H].
      * left. unfold refs_mem. now apply name_mem_In.
      * right. split; [reflexivity|]. apply names_diff_In. tauto.
Qed.

Lemma fold_merge_inv c0 remaining new_refs : forall st,
  (forall c n, In (c, n) (refs_pairs new_refs) -> reach c n) ->
  sound (fst st) (snd st) -> pending (fst st) (snd st) c0 remaining ->
  let st' := fold_left merge_refs new_refs st in
  sound (fst st') (snd st') /\ pending (fst st') (snd st') c0 remaining /\
  refs_le (fst st) (fst st') /\
  (forall c n, In (c, n) (refs_pairs new_refs) ->
               refs_mem c n (fst st') = true).
Proof.
  induction new_refs as [|[c ns] new_refs IH]; intros [refs tp] Hreach Hs Hp;
    cbn [fold_left fst snd] in *.
  - split; [assumption|]. split; [assumption|].
    split; [intros ? ?; trivial | intros ? ? []].
  - destruct (merge_refs_inv refs tp c0 remaining c ns)
      as (Hs' & Hp' & Hle & Hcov); trivial.
    { intros n Hn. apply Hreach. apply refs_pairs_In. exists ns.
      split; [now left | assumption]. }
    destruct (IH (merge_refs (refs, tp) (c, ns))) as (Hs2 & Hp2 & Hle2 & Hcov2);
      trivial.
    { intros c' n' H. apply Hreach. apply refs_pairs_In in H as [ms [H1 H2]].
      apply refs_pairs_In. exists ms. split; [now right | assumption]. }
    split; [assumption|]. split; [assumption|]. split.
    + eapply refs_le_trans; eassumption.
    + intros c' n' H. apply refs_pairs_In in H as [ms [[H1 | H1] H2]].
      * injection H1 as <- <-. apply Hle2. now apply Hcov.
      * apply Hcov2. apply refs_pairs_In. exists ms. tauto.
Qed.

Lemma expand_name_inv c0 st n rest st' :
  expand_name components c0 st n = Ok st' ->
  reach c0 n ->
  sound (fst st) (snd st) -> pending (fst st) (snd st) c0 (n :: rest) ->
  sound (fst st') (snd st') /\ pending (fst st') (snd st') c0 rest /\
  refs_le (fst st) (fst st').
Proof.
  unfold expand_name.
  destruct (lookup_component components c0 n) as [v| |] eqn:Hl; simpl;
    try discriminate.
  apply lookup_component_spec in Hl.
  destruct (truthy v) eqn:Ht; intros H Hn Hs Hp; injection H as <-.
  - destruct (catalog_def components c0 n) as [d|] eqn:Hd;
      [subst v | subst v; discriminate].
    destruct (fold_merge_inv c0 (n :: rest) (find_component_refs d []) st)
      as (Hs' & Hp' & Hle & Hcov); trivial.
    { intros c' n' H. apply scan_pairs in H.
      eapply reach_component; eassumption. }
    split; [assumption|]. split; [|assumption].
    intros c n' Hm. destruct (Hp' c n' Hm) as [H | [[-> [<- | H]] | H]]; auto.
    right; right. intros d' c' n'' Hd' Hr.
    rewrite Hd in Hd'. injection Hd' as <-.
    apply Hcov. now apply scan_pairs.
  - split; [assumption|]. split; [|intros ? ?; trivial].
    intros c n' Hm. destruct (Hp c n' Hm) as [H | [[-> [<- | H]] | H]]; auto.
    right; right. intros d c' n'' Hd Hr. rewrite Hd in Hl. subst v.
    exfalso. revert Hr. now apply falsy_no_refs.
Qed.

Lemma for_names_inv c0 ns : forall st st',
  for_each (expand_name components c0) ns st = Ok st' ->
  (forall n, In n ns -> reach c0 n) ->
  sound (fst st) (snd st) -> pending (fst st) (snd st) c0 ns ->
  sound (fst st') (snd st') /\ pending (fst st') (snd st') c0 [] /\
  refs_le (fst st) (fst st').
Proof.
  induction ns as [|n ns IH]; intros st st'; simpl.
  - intros H _ Hs Hp. injection H as <-.
    split; [assumption|]. split; [assumption | intros ? ?; trivial].
  - destruct (expand_name components c0 st n) as [st1| |] eqn:He; simpl;
      try discriminate.
    intros H Hr Hs Hp.
    apply expand_name_inv with (rest := ns) in He as (Hs1 & Hp1 & Hle1);
      auto.
    apply IH in H as (Hs2 & Hp2 & Hle2); auto.
    split; [assumption|]. split; [assumption|].
    eapply refs_le_trans; eassumption.
Qed.

Lemma closure_loop_inv : forall fuel refs tp refs',
  closure_loop set_iter fuel components refs tp = Ok refs' ->
  sound refs tp -> pending refs tp "" [] ->
  refs_le refs refs' /\
  (forall c n, refs_mem c n refs' = true -> reach c n) /\
  (forall c n, refs_mem c n refs' = true -> expanded refs' c n).
Proof.
  induction fuel as [|fuel IH]; intros refs tp refs'; simpl;
    destruct (popitem tp) as [[[c0 batch] rest]|] eqn:Hpop; try discriminate.
  - intros H Hs Hp. injection H as <-. apply popitem_None in Hpop. subst tp.
    split; [intros ? ?; trivial|]. split; [apply Hs|].
    intros c n Hm. destruct (Hp c n Hm) as [[] | [[_ []] | H]]. exact H.
  - destruct (for_each (expand_name components c0) (set_iter batch)
                       (refs, rest)) as [st| |] eqn:Hfor; simpl;
      try discriminate.
    intros H [Hs1 Hs2] Hp. apply popitem_Some in Hpop. subst tp.
    assert (Hsplit : forall c n,
               In (c, n) (refs_pairs (rest ++ [(c0, batch)])) <->
               In (c, n) (refs_pairs rest) \/ (c = c0 /\ In n batch)).
    { intros c n. unfold refs_pairs. rewrite flat_map_app, in_app_iff.
      simpl. rewrite app_nil_r, in_map_iff. split.
      - intros [H1 | [x [Hx Hin]]]; [now left|]. injection Hx as <- <-.
        now right.
      - intros [H1 | [-> Hin]]; [now left|]. right. now exists n. }
    assert (Hiter : forall n, In n (set_iter batch) <-> In n batch).
    { intros n. split; apply Permutation_in;
        [apply set_iter_perm | apply Permutation_sym, set_iter_perm]. }
    apply for_names_inv in Hfor as (Hs' & Hp' & Hle); simpl.
    + apply IH in H as (Hle' & Hr & He); trivial.
      * split; [eapply refs_le_trans; eassumption|]. split; assumption.
      * intros c n Hm. destruct (Hp' c n Hm) as [H1 | [[_ []] | H1]]; auto.
    + intros n Hn. apply Hs2, Hsplit. right. split; [reflexivity|].
      now apply Hiter.
    + split; [assumption|]. intros c n Hin. apply Hs2, Hsplit. now left.
    + intros c n Hm. destruct (Hp c n Hm) as [H1 | [[_ []] | H1]]; auto.
      apply Hsplit in H1 as [H1 | [-> H1]]; auto.
      right; left. split; [reflexivity|]. now apply Hiter.
  - intros H Hs Hp. injection H as <-. apply popitem_None in Hpop. subst tp.
    split; [intros ? ?; trivial|]. split; [apply Hs|].
    intros c n Hm. destruct (Hp c n Hm) as [[] | [[_ []] | H]]. exact H.
Qed.

(** Started as [strip_unreferenced_components] starts it, a loop that
    returns has reached exactly the reachable pairs. *)
Lemma closure_loop_reachable fuel refs' :
  let refs := find_component_refs paths [] in
  closure_loop set_iter fuel components refs refs = Ok refs' ->
  forall c n, refs_mem c n refs' = true <-> reach c n.
Proof.
  intros refs H.
  apply closure_loop_inv in H as (Hle & Hsound & Hexp).
  - intros c n. split; [apply Hsound|].
    induction 1 as [c n Hp | c0 n0 d c n _ IH Hd Hr].
    + apply Hle. apply find_refs_mem. now right.
    + exact (Hexp c0 n0 IH d c n Hd Hr).
  - split.
    + intros c n Hm. apply find_refs_mem in Hm as [Hm | Hm];
        [discriminate|]. now apply reach_path.
    + intros c n Hm. apply reach_path. now apply scan_pairs.
  - intros c n Hm. left. now apply refs_mem_pairs.
Qed.

End Closure.

(** ** More on dicts *)

Lemma dict_get_set_same k v d : dict_get k (dict_set k v d) = Some v.
Proof.
  induction d as [|[k' v'] d IH]; simpl.
  - now rewrite String.eqb_refl.
  - destruct (String.eqb_spec k' k) as [->|Hne]; simpl.
    + now rewrite String.eqb_refl.
    + destruct (String.eqb_spec k' k); [contradiction | assumption].
Qed.

Lemma dict_get_set_other k k' v d :
  k' <> k -> dict_get k' (dict_set k v d) = dict_get k' d.
Proof.
  intros Hne. induction d as [|[k0 v0] d IH]; simpl.
  - destruct (String.eqb_spec k k'); [congruence | reflexivity].
  - destruct (String.eqb_spec k0 k) as [->|Hk]; simpl.
    + destruct (String.eqb_spec k k'); [congruence | reflexivity].
    + now rewrite IH.
Qed.

Lemma dict_get_del_same k d : dict_get k (dict_del k d) = None.
Proof.
  unfold dict_del. induction d as [|[k' v'] d IH]; simpl; [reflexivity|].
  destruct (String.eqb_spec k' k) as [->|Hne]; simpl; [assumption|].
  destruct (String.eqb_spec k' k); [contradiction | assumption].
Qed.

Lemma dict_get_del_other k k' d :
  k' <> k -> dict_get k' (dict_del k d) = dict_get k' d.
Proof.
  intros Hne. unfold dict_del.
  induction d as [|[k0 v0] d IH]; simpl; [reflexivity|].
  destruct (String.eqb_spec k0 k) as [->|Hk]; simpl.
  - destruct (String.eqb_spec k k'); [congruence | assumption].
  - now rewrite IH.
Qed.

Lemma dict_get_filter (f : string -> bool) k d :
  dict_get k (filter (fun kv => f (fst kv)) d) =
  if f k then dict_get k d else None.
Proof.
  induction d as [|[k' v'] d IH]; simpl; [now destruct (f k)|].
  destruct (f k') eqn:Hf; simpl.
  - destruct (String.eqb_spec k' k) as [->|Hne]; [now rewrite Hf | assumption].
  - destruct (String.eqb_spec k' k) as [->|Hne]; [now rewrite Hf in * | assumption].
Qed.

Lemma dict_get_None_keys k d : dict_get k d = None <-> ~ In k (keys d).
Proof.
  unfold keys. induction d as [|[k' v'] d IH]; simpl; [tauto|].
  destruct (String.eqb_spec k' k) as [->|Hne].
  - split; [discriminate | tauto].
  - rewrite IH. tauto.
Qed.

Lemma unique_keys_NoDup ks : unique_keys ks = true <-> NoDup ks.
Proof.
  induction ks as [|k ks IH]; simpl.
  - split; [constructor | reflexivity].
  - rewrite andb_true_iff, negb_true_iff, IH. split.
    + intros [Hk Hnd]. constructor; [|assumption].
      intros Hin. apply not_true_iff_false in Hk. apply Hk.
      apply existsb_exists. exists k. split; [assumption | apply String.eqb_refl].
    + intros H. inversion H as [|? ? Hk Hnd]; subst. split; [|assumption].
      apply not_true_iff_false. intros He. apply existsb_exists in He.
      destruct He as [x [Hx He]]. apply String.eqb_eq in He. now subst.
Qed.

(** ** The sweep *)

Lemma sweep_keys refs cats kept :
  sweep refs cats = Ok kept -> forall k, In k (keys kept) -> In k (keys cats).
Proof.
  revert kept. induction cats as [|[c v] cats IH]; simpl; intros kept.
  - intros H. injection H as <-. trivial.
  - destruct v as [| | | | |items]; simpl; try discriminate.
    destruct (sweep refs cats) as [rest| |]; simpl; try discriminate.
    intros H k Hk. injection H as <-.
    destruct (filter _ items); [right; now apply (IH rest)|].
    destruct Hk as [<- | Hk]; [now left | right; now apply (IH rest)].
Qed.

Lemma sweep_spec refs cats :
  catalog_shaped (PyDict cats) = true ->
  exists kept,
    sweep refs cats = Ok kept /\
    catalog_shaped (PyDict kept) = true /\
    forall c n,
      catalog_def (PyDict kept) c n =
      if refs_mem c n refs then catalog_def (PyDict cats) c n else None.
Proof.
  unfold catalog_shaped, dicts_only. rewrite andb_true_iff.
  induction cats as [|[k v] cats IH]; simpl; intros [Hd Hu].
  - exists []. repeat split. intros c n. now destruct (refs_mem c n refs).
  - apply andb_true_iff in Hd as [Hv Hd]. apply andb_true_iff in Hu as [Hk Hu].
    destruct v as [| | | | |items]; try discriminate. simpl.
    destruct (IH (conj Hd Hu)) as (rest & Hs & Hshape & Hdef).
    rewrite Hs. simpl.
    apply andb_true_iff in Hshape as [Hrd Hru].
    assert (Hfresh : dict_get k rest = None).
    { apply dict_get_None_keys. intros Hin.
      apply (sweep_keys _ _ _ Hs) in Hin.
      apply negb_true_iff, not_true_iff_false in Hk. apply Hk.
      apply existsb_exists. exists k. split; [assumption | apply String.eqb_refl]. }
    assert (Hfresh' : dict_get k cats = None).
    { apply dict_get_None_keys. intros Hin.
      apply negb_true_iff, not_true_iff_false in Hk. apply Hk.
      apply existsb_exists. exists k. split; [assumption | apply String.eqb_refl]. }
    set (used := refs_get k refs).
    destruct (filter (fun kv => name_mem (fst kv) used) items)
      as [|kv kept] eqn:Hf.
    + exists rest. split; [reflexivity|]. split.
      { simpl. now rewrite Hrd, Hru. }
      intros c n. specialize (Hdef c n). simpl in *.
      destruct (String.eqb_spec k c) as [<-|Hne]; [|exact Hdef].
      rewrite Hfresh. rewrite Hfresh' in Hdef.
      destruct (refs_mem k n refs) eqn:Hm; [|reflexivity].
      assert (Hg : dict_get n (filter (fun kv => name_mem (fst kv) used) items)
                   = if name_mem n used then dict_get n items else None)
        by apply (dict_get_filter (fun x => name_mem x used)).
      rewrite Hf in Hg. simpl in Hg. unfold refs_mem in Hm. fold used in Hm.
      now rewrite Hm in Hg.
    + exists ((k, PyDict (kv :: kept)) :: rest). split; [reflexivity|]. split.
      { simpl. rewrite Hrd, Hru. simpl. rewrite andb_true_r.
        apply negb_true_iff, not_true_iff_false. intros He.
        apply existsb_exists in He as [x [Hx He]].
        apply String.eqb_eq in He. subst x.
        apply dict_get_None_keys in Hfresh. contradiction. }
      intros c n. specialize (Hdef c n). simpl in *.
      destruct (String.eqb_spec k c) as [<-|Hne]; [|exact Hdef].
      rewrite <- Hf. apply (dict_get_filter (fun x => name_mem x used)).
Qed.

Lemma result_cases {A} (r : result A) :
  r <> Diverge -> (forall e, r <> Raise e) -> exists a, r = Ok a.
Proof.
  destruct r as [a|e|]; intros H1 H2.
  - now exists a.
  - now destruct (H2 e).
  - now destruct H1.
Qed.

Lemma for_each_no_raise {A S} (body : S -> A -> result S) xs :
  (forall s x e, body s x <> Raise e) ->
  forall s e, for_each body xs s <> Raise e.
Proof.
  intros Hb. induction xs as [|x xs IH]; intros s e; simpl; [discriminate|].
  destruct (body s x) eqn:E; simpl; [apply IH | | discriminate].
  now apply Hb in E.
Qed.

Lemma catalog_shaped_dicts_only components :
  catalog_shaped components = true -> dicts_only components = true.
Proof. unfold catalog_shaped. rewrite andb_true_iff. tauto. Qed.

Lemma expand_name_no_raise components c st n e :
  dicts_only components = true ->
  expand_name components c st n <> Raise e.
Proof.
  unfold dicts_only, expand_name, lookup_component.
  destruct components as [| | | | |cats]; try discriminate.
  intros Hd. simpl.
  destruct (dict_get c cats) as [v|] eqn:Hc; simpl.
  - apply dict_get_In in Hc. rewrite forallb_forall in Hd.
    specialize (Hd _ Hc). simpl in Hd.
    destruct v; try discriminate. simpl. destruct (truthy _); discriminate.
  - discriminate.
Qed.

Section Strip.
Variable set_iter : names -> names.
Hypothesis set_iter_perm : forall ns, Permutation (set_iter ns) ns.

Lemma closure_loop_no_raise components e :
  dicts_only components = true ->
  forall fuel refs tp,
    closure_loop set_iter fuel components refs tp <> Raise e.
Proof.
  intros Hshape. induction fuel as [|fuel IH]; intros refs tp; simpl;
    destruct (popitem tp) as [[[c batch] rest]|]; try discriminate.
  destruct (for_each _ _ _) as [st| |] eqn:Hfor; simpl;
    [apply IH | | discriminate].
  exfalso. revert Hfor. apply for_each_no_raise.
  intros s x e'. now apply expand_name_no_raise.
Qed.

(** On a catalog of the data model's shape the sweep is total, leaves every
    other key of the document alone, and keeps exactly the reachable
    definitions. *)
Lemma strip_components_spec d :
  catalog_shaped (components_of d) = true ->
  exists d',
    strip_unreferenced_components set_iter (PyDict d) = Ok (PyDict d') /\
    (forall k, k <> "components" -> dict_get k d' = dict_get k d) /\
    catalog_shaped (components_of d') = true /\
    (forall c n def,
        catalog_def (components_of d') c n = Some def <->
        catalog_def (components_of d) c n = Some def /\
        reachable (paths_of d) (components_of d) c n).
Proof.
  intros Hshape. unfold strip_unreferenced_components.
  change (py_get (PyDict d) "paths" (PyDict [])) with (Ok (paths_of d)).
  change (py_get (PyDict d) "components" (PyDict []))
    with (Ok (components_of d)).
  cbn [bind].
  set (refs := find_component_refs (paths_of d) []).
  destruct (closure_loop_enough set_iter (components_of d)
              (closure_fuel (components_of d) refs refs)
              (closure_fuel (components_of d) refs refs) refs refs
              (le_n _) (le_n _)) as [_ Hterm].
  destruct (result_cases _ Hterm
              (fun e => closure_loop_no_raise (components_of d) e
                          (catalog_shaped_dicts_only _ Hshape)
                          _ refs refs)) as [refs' Hloop].
  rewrite Hloop. cbn [bind].
  assert (Hreach := closure_loop_reachable set_iter set_iter_perm
                      (paths_of d) (components_of d) _ refs' Hloop).
  destruct (components_of d) as [| | | | |cats] eqn:Hc; try discriminate.
  cbn [py_items bind].
  destruct (sweep_spec refs' cats Hshape) as (kept & Hs & Hkshape & Hdef).
  rewrite Hs. cbn [bind].
  assert (Hchar : forall c n def,
             catalog_def (PyDict kept) c n = Some def <->
             catalog_def (PyDict cats) c n = Some def /\
             reachable (paths_of d) (PyDict cats) c n).
  { intros c n def. rewrite Hdef, <- Hreach.
    destruct (refs_mem c n refs'); split; try tauto; try discriminate.
    intros [_ H]; discriminate. }
  destruct kept as [|item kept].
  - exists (dict_del "components" d). split; [reflexivity|].
    split; [intros k Hk; now apply dict_get_del_other|].
    unfold components_of at 1 2. rewrite dict_get_del_same.
    split; [reflexivity | exact Hchar].
  - exists (dict_set "components" (PyDict (item :: kept)) d).
    split; [reflexivity|].
    split; [intros k Hk; now apply dict_get_set_other|].
    unfold components_of at 1 2. rewrite dict_get_set_same.
    split; [exact Hkshape | exact Hchar].
Qed.
End Strip.

(** ** Outcomes *)

Lemma bind_Ok {A B} (r : result A) (k : A -> result B) b :
  bind r k = Ok b -> exists a, r = Ok a /\ k a = Ok b.
Proof. destruct r as [a| |]; simpl; try discriminate. eauto. Qed.

Lemma bind_returns {A B} (r : result A) (k : A -> result B) :
  r <> Diverge -> (forall a, k a <> Diverge) -> bind r k <> Diverge.
Proof. destruct r; simpl; intros H1 H2; auto; discriminate. Qed.

Lemma for_each_Ok_In {A S} (body : S -> A -> result S) xs : forall s s',
  for_each body xs s = Ok s' ->
  forall x, In x xs -> exists s1 s2, body s1 x = Ok s2.
Proof.
  induction xs as [|y xs IH]; intros s s' H x Hin; [contradiction|].
  simpl in H. apply bind_Ok in H as [s1 [Hb Hrest]].
  destruct Hin as [-> | Hin]; [eauto | eapply IH; eassumption].
Qed.

Lemma comprehension_returns {A} (cond : A -> result bool) xs :
  (forall x, cond x <> Diverge) -> comprehension cond xs <> Diverge.
Proof.
  intros Hc. induction xs as [|x xs IH]; simpl; [discriminate|].
  apply bind_returns; [apply Hc|]. intros keep.
  apply bind_returns; [assumption | discriminate].
Qed.

Lemma py_get_returns v k dflt : py_get v k dflt <> Diverge.
Proof. destruct v; discriminate. Qed.

Lemma py_items_returns v : py_items v <> Diverge.
Proof. destruct v; discriminate. Qed.

Lemma py_getitem_returns v k : py_getitem v k <> Diverge.
Proof. destruct v; try discriminate. simpl. destruct (dict_get k entries); discriminate. Qed.

Lemma py_iter_returns v : py_iter v <> Diverge.
Proof. destruct v; discriminate. Qed.

Lemma py_contains_returns v k : py_contains v k <> Diverge.
Proof. destruct v; discriminate. Qed.

Lemma py_delitem_returns v k : py_delitem v k <> Diverge.
Proof. destruct v; try discriminate. simpl. destruct (dict_has k entries); discriminate. Qed.

Lemma py_in_set_returns x s : py_in_set x s <> Diverge.
Proof. unfold py_in_set. destruct (hashable x); discriminate. Qed.

Lemma set_update_returns s v : set_update s v <> Diverge.
Proof.
  unfold set_update. apply bind_returns; [apply py_iter_returns|].
  intros xs. apply for_each_returns. intros s' x. unfold set_add.
  destruct (hashable x); discriminate.
Qed.

Lemma harvest_tags_returns paths : harvest_tags paths <> Diverge.
Proof.
  unfold harvest_tags. apply for_each_returns. intros s x.
  apply bind_returns; [apply py_items_returns|]. intros methods.
  apply for_each_returns. intros s' m.
  apply bind_returns; [apply py_get_returns|]. intros t.
  apply set_update_returns.
Qed.

Lemma path_filter_returns prefixes data :
  path_filter prefixes data <> Diverge.
Proof.
  unfold path_filter.
  apply bind_returns; [apply py_get_returns|]. intros section.
  apply bind_returns; [apply py_items_returns|]. intros items.
  apply bind_returns; [apply harvest_tags_returns|]. intros tags.
  apply bind_returns; [apply py_items_returns | discriminate].
Qed.

Lemma filter_tags_returns tags d : filter_tags tags d <> Diverge.
Proof.
  unfold filter_tags. destruct (dict_get "tags" d); [|discriminate].
  apply bind_returns; [apply py_iter_returns|]. intros xs.
  apply bind_returns; [|discriminate].
  apply comprehension_returns. intros x.
  apply bind_returns; [apply py_getitem_returns|]. intros name.
  apply py_in_set_returns.
Qed.

Lemma exclude_component_returns d c : exclude_component d c <> Diverge.
Proof.
  unfold exclude_component.
  apply bind_returns; [apply py_getitem_returns|]. intros comps.
  apply bind_returns; [apply py_getitem_returns|]. intros schemas.
  apply bind_returns; [apply py_contains_returns|]. intros [|]; [|discriminate].
  apply bind_returns; [apply py_delitem_returns|]. intros schemas'.
  apply bind_returns; [apply py_items_returns | discriminate].
Qed.

Lemma exclude_stage_returns ex d : exclude_components_stage ex d <> Diverge.
Proof.
  unfold exclude_components_stage. destruct ex as [raw|]; [|discriminate].
  destruct (StrOps.nonempty raw); [|discriminate].
  destruct (dict_has "components" d); [|discriminate].
  apply for_each_returns. apply exclude_component_returns.
Qed.

Lemma sweep_returns refs cats : sweep refs cats <> Diverge.
Proof.
  induction cats as [|[c v] cats IH]; simpl; [discriminate|].
  apply bind_returns; [apply py_items_returns|]. intros items.
  apply bind_returns; [assumption | discriminate].
Qed.

Section Returns.
Variable set_iter : names -> names.

(** The sweep of unreferenced components returns on every value. *)
Lemma strip_returns data :
  strip_unreferenced_components set_iter data <> Diverge.
Proof.
  unfold strip_unreferenced_components.
  apply bind_returns; [apply py_get_returns|]. intros paths.
  apply bind_returns; [apply py_get_returns|]. intros components.
  apply bind_returns.
  { apply (closure_loop_enough set_iter components _ _ _ _ (le_n _) (le_n _)). }
  intros refs.
  apply bind_returns; [apply py_items_returns|]. intros cats.
  apply bind_returns; [apply sweep_returns|]. intros kept.
  apply bind_returns; [apply py_items_returns | discriminate].
Qed.

Lemma trim_yaml_returns prefixes ex sc data :
  trim_yaml set_iter prefixes ex sc data <> Diverge.
Proof.
  unfold trim_yaml.
  apply bind_returns; [apply path_filter_returns|]. intros st.
  apply bind_returns; [apply filter_tags_returns|]. intros d1.
  apply bind_returns; [apply exclude_stage_returns|]. intros d2.
  destruct (sc && dict_has "components" d2);
    [apply strip_returns | discriminate].
Qed.
End Returns.

(** ** What each stage of [trim_yaml] leaves alone *)

Lemma path_filter_inv prefixes data d1 tags :
  path_filter prefixes data = Ok (d1, tags) ->
  exists d items,
    data = PyDict d /\ paths_of d = PyDict items /\
    harvest_tags (filter (retained prefixes) items) = Ok tags /\
    d1 = dict_set "paths" (PyDict (filter (retained prefixes) items)) d.
Proof.
  unfold path_filter. intros H.
  destruct data as [| | | | |d]; try discriminate.
  change (py_get (PyDict d) "paths" (PyDict [])) with (Ok (paths_of d)) in H.
  cbn [bind] in H.
  destruct (paths_of d) as [| | | | |items] eqn:Hp; try discriminate.
  cbn [py_items bind] in H.
  apply bind_Ok in H as [t [Ht H]]. cbn [bind] in H.
  injection H as <- <-. exists d, items. repeat split; assumption.
Qed.

Lemma filter_tags_frame tags d d' :
  filter_tags tags d = Ok d' ->
  forall k, k <> "tags" -> dict_get k d' = dict_get k d.
Proof.
  unfold filter_tags. destruct (dict_get "tags" d) as [v|].
  - intros H. apply bind_Ok in H as [xs [_ H]].
    apply bind_Ok in H as [kept [_ H]]. injection H as <-.
    intros k Hk. now apply dict_get_set_other.
  - intros H. now injection H as <-.
Qed.

Lemma exclude_component_frame d c d' :
  exclude_component d c = Ok d' ->
  forall k, k <> "components" -> dict_get k d' = dict_get k d.
Proof.
  unfold exclude_component. intros H.
  apply bind_Ok in H as [comps [_ H]].
  apply bind_Ok in H as [schemas [_ H]].
  apply bind_Ok in H as [[|] [_ H]].
  - apply bind_Ok in H as [schemas' [_ H]].
    apply bind_Ok in H as [cats [_ H]]. injection H as <-.
    intros k Hk. now apply dict_get_set_other.
  - now injection H as <-.
Qed.

Lemma exclude_stage_frame ex d d' :
  exclude_components_stage ex d = Ok d' ->
  forall k, k <> "components" -> dict_get k d' = dict_get k d.
Proof.
  unfold exclude_components_stage.
  destruct ex as [raw|]; [|intros H; now injection H as <-].
  destruct (StrOps.nonempty raw); [|intros H; now injection H as <-].
  destruct (dict_has "components" d); [|intros H; now injection H as <-].
  generalize (split_list raw) as cs. intros cs. revert d.
  induction cs as [|c cs IH]; intros d; simpl.
  - intros H; now injection H as <-.
  - intros H k Hk. apply bind_Ok in H as [d1 [H1 H]].
    rewrite (IH _ H k Hk). now apply (exclude_component_frame d c).
Qed.

Lemma strip_frame set_iter data out :
  strip_unreferenced_components set_iter data = Ok out ->
  exists d d',
    data = PyDict d /\ out = PyDict d' /\
    forall k, k <> "components" -> dict_get k d' = dict_get k d.
Proof.
  unfold strip_unreferenced_components. intros H.
  apply bind_Ok in H as [paths [Hp H]].
  destruct data as [| | | | |d]; try discriminate.
  apply bind_Ok in H as [components [_ H]].
  apply bind_Ok in H as [refs [_ H]].
  apply bind_Ok in H as [cats [_ H]].
  apply bind_Ok in H as [kept [_ H]].
  cbn [py_items bind] in H. injection H as <-.
  exists d. eexists. split; [reflexivity|]. split; [reflexivity|].
  intros k Hk. destruct kept.
  - now apply dict_get_del_other.
  - now apply dict_get_set_other.
Qed.

(** A run of [trim_yaml] that returns, stage by stage. *)
Lemma trim_yaml_inv set_iter raw ex sc data out :
  trim_yaml set_iter raw ex sc data = Ok out ->
  exists d items tags d2 d3,
    data = PyDict d /\ paths_of d = PyDict items /\
    harvest_tags (filter (retained (split_list raw)) items) = Ok tags /\
    filter_tags tags
      (dict_set "paths" (PyDict (filter (retained (split_list raw)) items)) d)
    = Ok d2 /\
    exclude_components_stage ex d2 = Ok d3 /\
    (if sc && dict_has "components" d3
     then strip_unreferenced_components set_iter (PyDict d3)
     else Ok (PyDict d3)) = Ok out.
Proof.
  unfold trim_yaml. intros H.
  apply bind_Ok in H as [[d1 tags] [H1 H]].
  apply path_filter_inv in H1 as (d & items & -> & Hp & Ht & ->).
  apply bind_Ok in H as [d2 [H2 H]].
  apply bind_Ok in H as [d3 [H3 H]].
  exists d, items, tags, d2, d3. repeat split; assumption.
Qed.

Lemma trim_yaml_frame set_iter raw ex sc data out :
  trim_yaml set_iter raw ex sc data = Ok out ->
  exists d items d',
    data = PyDict d /\ paths_of d = PyDict items /\ out = PyDict d' /\
    dict_get "paths" d'
    = Some (PyDict (filter (retained (split_list raw)) items)) /\
    forall k, k <> "paths" -> k <> "tags" -> k <> "components" ->
              dict_get k d' = dict_get k d.
Proof.
  intros H.
  apply trim_yaml_inv in H as (d & items & tags & d2 & d3 & -> & Hp & _ & H2 & H3 & H).
  assert (Hmid : forall k, k <> "tags" -> k <> "components" ->
                           dict_get k d3 = dict_get k
                             (dict_set "paths"
                                (PyDict (filter (retained (split_list raw)) items)) d)).
  { intros k Ht Hc. rewrite (exclude_stage_frame _ _ _ H3 k Hc).
    now apply (filter_tags_frame _ _ _ H2). }
  assert (Hend : exists d', out = PyDict d' /\
                   forall k, k <> "components" -> dict_get k d' = dict_get k d3).
  { destruct (sc && dict_has "components" d3).
    - apply strip_frame in H as (d0 & d' & Heq & -> & Hf).
      injection Heq as <-. now exists d'.
    - injection H as <-. now exists d3. }
  destruct Hend as (d' & -> & Hf).
  exists d, items, d'. repeat split; trivial.
  - rewrite Hf, Hmid by discriminate. apply dict_get_set_same.
  - intros k Hk Ht Hc. rewrite (Hf k Hc), (Hmid k Ht Hc).
    now apply dict_get_set_other.
Qed.

(** ** The reference scanner *)

(** C8: the scanner adds the pair (category, name) to [refs] exactly when some
    mapping of the tree, at any depth and under any key, has a [$ref] whose
    value is a string of the shape [#/components/<category>/<name>]; no other
    [$ref] value adds a pair.  The scan only reads: after the sweep that is
    built on it, the [paths] section and every definition still in the catalog
    are the values they were, so every [$ref] in them is kept as it was. *)
Theorem scanner_records_internal_pointers :
  (forall (node : value) (refs : refmap) (category name : string),
      refs_mem category name (find_component_refs node refs) = true <->
      refs_mem category name refs = true \/
      exists entries ref,
        occurs_in (PyDict entries) node /\
        dict_get "$ref" entries = Some (PyStr ref) /\
        internal_pointer ref category name) /\
  (forall (set_iter : names -> names) (d : dict),
      (forall ns, Permutation (set_iter ns) ns) ->
      catalog_shaped (components_of d) = true ->
      exists d',
        strip_unreferenced_components set_iter (PyDict d) = Ok (PyDict d') /\
        dict_get "paths" d' = dict_get "paths" d /\
        forall c n def,
          catalog_def (components_of d') c n = Some def ->
          catalog_def (components_of d) c n = Some def).
Proof.
  split.
  - intros node refs category name. apply find_refs_mem.
  - intros set_iter d Hperm Hshape.
    destruct (strip_components_spec set_iter Hperm d Hshape) as (d' & Hs & Hf & _ & Hdef).
    exists d'. split; [assumption|]. split; [apply Hf; discriminate|].
    intros c n def H. now apply Hdef in H.
Qed.

Lemma scanner_records_internal_pointers_witness :
  exists d',
    strip_unreferenced_components insertion_order (PyDict doc_cycle)
    = Ok (PyDict d') /\
    dict_get "paths" d' = dict_get "paths" doc_cycle /\
    forall c n def,
      catalog_def (components_of d') c n = Some def ->
      catalog_def (components_of doc_cycle) c n = Some def.
Proof.
  apply (proj2 scanner_records_internal_pointers insertion_order doc_cycle).
  - intros ns. apply Permutation_refl.
  - reflexivity.
Defined.

(** ** Closure and sweep *)

(** C1: on a document whose catalog has the shape of the data model, the sweep
    returns a document whose catalog holds exactly the definitions of the
    original catalog whose (category, name) is reachable from the retained
    paths by a finite chain of references; so does [trim_yaml] with stripping
    enabled, where the retained paths are the paths that start with one of the
    prefixes. *)
Theorem closure_correctness (set_iter : names -> names) (d : dict) :
  (forall ns, Permutation (set_iter ns) ns) ->
  catalog_shaped (components_of d) = true ->
  (exists d',
      strip_unreferenced_components set_iter (PyDict d) = Ok (PyDict d') /\
      forall c n def,
        catalog_def (components_of d') c n = Some def <->
        catalog_def (components_of d) c n = Some def /\
        reachable (paths_of d) (components_of d) c n) /\
  (forall raw out,
      trim_yaml set_iter raw None true (PyDict d) = Ok out ->
      exists items d',
        paths_of d = PyDict items /\ out = PyDict d' /\
        forall c n def,
          catalog_def (components_of d') c n = Some def <->
          catalog_def (components_of d) c n = Some def /\
          reachable (PyDict (filter (retained (split_list raw)) items))
                    (components_of d) c n).
Proof.
  intros Hperm Hshape. split.
  - destruct (strip_components_spec set_iter Hperm d Hshape) as (d' & Hs & _ & _ & Hdef).
    now exists d'.
  - intros raw out H.
    apply trim_yaml_inv in H
      as (d0 & items & tags & d2 & d3 & Heq & Hp & _ & H2 & H3 & H).
    injection Heq as <-. simpl in H3. injection H3 as <-.
    exists items.
    assert (Hc : components_of d2 = components_of d).
    { unfold components_of.
      rewrite (filter_tags_frame _ _ _ H2) by discriminate.
      now rewrite dict_get_set_other by discriminate. }
    assert (Hpaths : paths_of d2
                     = PyDict (filter (retained (split_list raw)) items)).
    { unfold paths_of.
      rewrite (filter_tags_frame _ _ _ H2) by discriminate.
      now rewrite dict_get_set_same. }
    simpl in H. destruct (dict_has "components" d2) eqn:Hhas.
    + rewrite <- Hc in Hshape.
      destruct (strip_components_spec set_iter Hperm d2 Hshape)
        as (d' & Hs & _ & _ & Hdef).
      rewrite Hs in H. injection H as <-. exists d'.
      split; [assumption|]. split; [reflexivity|].
      rewrite <- Hc, <- Hpaths. exact Hdef.
    + injection H as <-. exists d2.
      split; [assumption|]. split; [reflexivity|].
      assert (He : components_of d = PyDict []).
      { rewrite <- Hc. unfold components_of, dict_has in *.
        destruct (dict_get "components" d2); [discriminate | reflexivity]. }
      rewrite Hc, He. simpl. intros c n def.
      split; [discriminate | intros [Hd _]; discriminate].
Qed.

Lemma closure_correctness_witness :
  (exists d',
      strip_unreferenced_components insertion_order (PyDict doc_cycle)
      = Ok (PyDict d') /\
      forall c n def,
        catalog_def (components_of d') c n = Some def <->
        catalog_def (components_of doc_cycle) c n = Some def /\
        reachable (paths_of doc_cycle) (components_of doc_cycle) c n) /\
  (exists items d',
      paths_of doc_cycle = PyDict items /\
      PyDict doc_cycle_trimmed = PyDict d' /\
      forall c n def,
        catalog_def (components_of d') c n = Some def <->
        catalog_def (components_of doc_cycle) c n = Some def /\
        reachable (PyDict (filter (retained (split_list "/v1")) items))
                  (components_of doc_cycle) c n).
Proof.
  destruct (closure_correctness insertion_order doc_cycle
              (fun ns => Permutation_refl ns) eq_refl) as [Hstrip Htrim].
  split; [exact Hstrip|].
  apply (Htrim "/v1" (PyDict doc_cycle_trimmed)). reflexivity.
Defined.

Lemma lookup_component_shaped components c n :
  catalog_shaped components = true ->
  lookup_component components c n
  = Ok (match catalog_def components c n with
        | Some d => d
        | None => PyNone
        end).
Proof.
  intros Hshape.
  destruct (result_cases (lookup_component components c n)) as [v Hv].
  - unfold lookup_component.
    apply bind_returns; [apply py_get_returns|]. intros cat.
    apply py_get_returns.
  - intros e He.
    apply (expand_name_no_raise components c ([], []) n e
             (catalog_shaped_dicts_only _ Hshape)).
    unfold expand_name. now rewrite He.
  - rewrite Hv. f_equal. now apply lookup_component_spec.
Qed.

(** C2: the worklist loop ends on every catalog, reference cycles included:
    any budget of at least [closure_fuel] iterations is enough and gives the
    outcome of the budget [strip_unreferenced_components] uses, so the sweep
    returns on every document.  When the retained paths refer to [A], [A]
    refers to [B] and [B] refers back to [A], the sweep returns a document
    that still has both definitions. *)
Theorem worklist_terminates_on_cycles (set_iter : names -> names) :
  (forall ns, Permutation (set_iter ns) ns) ->
  (forall components refs to_process fuel,
      closure_fuel components refs to_process <= fuel ->
      closure_loop set_iter fuel components refs to_process <> Diverge /\
      closure_loop set_iter fuel components refs to_process
      = closure_loop set_iter (closure_fuel components refs to_process)
                     components refs to_process) /\
  (forall data, strip_unreferenced_components set_iter data <> Diverge) /\
  (forall d cA a cB b defA defB,
      catalog_shaped (components_of d) = true ->
      refers_to (paths_of d) cA a ->
      catalog_def (components_of d) cA a = Some defA ->
      refers_to defA cB b ->
      catalog_def (components_of d) cB b = Some defB ->
      refers_to defB cA a ->
      exists d',
        strip_unreferenced_components set_iter (PyDict d) = Ok (PyDict d') /\
        catalog_def (components_of d') cA a = Some defA /\
        catalog_def (components_of d') cB b = Some defB).
Proof.
  intros Hperm. split; [|split].
  - intros components refs tp fuel Hfuel.
    destruct (closure_loop_enough set_iter components fuel
                (closure_fuel components refs tp) refs tp Hfuel (le_n _))
      as [Heq Hterm].
    split; assumption.
  - apply strip_returns.
  - intros d cA a cB b defA defB Hshape HpA HdA HAB HdB HBA.
    destruct (strip_components_spec set_iter Hperm d Hshape) as (d' & Hs & _ & _ & Hdef).
    exists d'. split; [assumption|].
    assert (HrA : reachable (paths_of d) (components_of d) cA a)
      by now apply reach_path.
    split; apply Hdef; split; trivial.
    eapply reach_component; eassumption.
Qed.

Lemma worklist_terminates_on_cycles_witness :
  let components := components_of doc_cycle in
  let refs := find_component_refs (paths_of doc_cycle) [] in
  (closure_loop insertion_order 10 components refs refs <> Diverge /\
   closure_loop insertion_order 10 components refs refs
   = closure_loop insertion_order (closure_fuel components refs refs)
                  components refs refs) /\
  exists d',
    strip_unreferenced_components insertion_order (PyDict doc_cycle)
    = Ok (PyDict d') /\
    catalog_def (components_of d') "schemas" "A"
    = Some (PyDict [("$ref", PyStr "#/components/schemas/B")]) /\
    catalog_def (components_of d') "schemas" "B"
    = Some (PyDict [("$ref", PyStr "#/components/schemas/A")]).
Proof.
  destruct (worklist_terminates_on_cycles insertion_order
              (fun ns => Permutation_refl ns)) as (Hloop & _ & Hcycle).
  split.
  - apply Hloop. vm_compute. lia.
  - apply (Hcycle doc_cycle "schemas" "A" "schemas" "B").
    + reflexivity.
    + apply scan_pairs. vm_compute. auto.
    + reflexivity.
    + apply scan_pairs. vm_compute. auto.
    + reflexivity.
    + apply scan_pairs. vm_compute. auto.
Defined.

(** C4: when the retained paths refer to a pair the catalog does not have, the
    loop leaves its state as it is at that name, and the sweep returns a
    document with the [paths] section it was given, without the missing pair,
    and with exactly the reachable definitions of the catalog. *)
Theorem dangling_reference_tolerated (set_iter : names -> names) (d : dict)
    (c n : string) :
  (forall ns, Permutation (set_iter ns) ns) ->
  catalog_shaped (components_of d) = true ->
  refers_to (paths_of d) c n ->
  catalog_def (components_of d) c n = None ->
  (forall st, expand_name (components_of d) c st n = Ok st) /\
  exists d',
    strip_unreferenced_components set_iter (PyDict d) = Ok (PyDict d') /\
    dict_get "paths" d' = dict_get "paths" d /\
    catalog_def (components_of d') c n = None /\
    forall c' n' def,
      catalog_def (components_of d') c' n' = Some def <->
      catalog_def (components_of d) c' n' = Some def /\
      reachable (paths_of d) (components_of d) c' n'.
Proof.
  intros Hperm Hshape Hp Hnone. split.
  - intros st. unfold expand_name.
    rewrite (lookup_component_shaped _ c n Hshape), Hnone. reflexivity.
  - destruct (strip_components_spec set_iter Hperm d Hshape) as (d' & Hs & Hf & _ & Hdef).
    exists d'. split; [assumption|]. split; [apply Hf; discriminate|].
    split; [|assumption].
    destruct (catalog_def (components_of d') c n) as [def|] eqn:Hd;
      [|reflexivity].
    apply Hdef in Hd as [Hd _]. congruence.
Qed.

Lemma dangling_reference_tolerated_witness :
  (forall st,
      expand_name (components_of doc_dangling) "schemas" st "Missing" = Ok st) /\
  exists d',
    strip_unreferenced_components insertion_order (PyDict doc_dangling)
    = Ok (PyDict d') /\
    dict_get "paths" d' = dict_get "paths" doc_dangling /\
    catalog_def (components_of d') "schemas" "Missing" = None /\
    forall c' n' def,
      catalog_def (components_of d') c' n' = Some def <->
      catalog_def (components_of doc_dangling) c' n' = Some def /\
      reachable (paths_of doc_dangling) (components_of doc_dangling) c' n'.
Proof.
  apply (dangling_reference_tolerated insertion_order doc_dangling
           "schemas" "Missing").
  - intros ns. apply Permutation_refl.
  - reflexivity.
  - apply scan_pairs. vm_compute. auto.
  - reflexivity.
Defined.

(** ** Path filtering *)

Lemma keys_filter (f : string -> bool) (d : dict) :
  keys (filter (fun kv => f (fst kv)) d) = filter f (keys d).
Proof.
  unfold keys. induction d as [|[k v] d IH]; simpl; [reflexivity|].
  destruct (f k); simpl; now rewrite IH.
Qed.

Lemma nonempty_iff s : StrOps.nonempty s = true <-> s <> "".
Proof. destruct s; simpl; split; congruence. Qed.

Lemma split_list_In raw q :
  In q (split_list raw) <->
  q <> "" /\ exists seg, In seg (StrOps.split "," raw) /\ q = StrOps.strip seg.
Proof.
  unfold split_list. rewrite in_map_iff. split.
  - intros [seg [<- Hin]]. apply filter_In in Hin as [Hin Hne].
    apply nonempty_iff in Hne. split; [assumption|]. now exists seg.
  - intros [Hne [seg [Hin ->]]]. exists seg. split; [reflexivity|].
    apply filter_In. split; [assumption | now apply nonempty_iff].
Qed.

Lemma dict_get_Some_keys k (d : dict) :
  In k (keys d) <-> exists v, dict_get k d = Some v.
Proof.
  destruct (dict_get k d) as [v|] eqn:H.
  - split; [eauto|]. intros _. apply dict_get_In in H.
    unfold keys. change k with (fst (k, v)). now apply in_map.
  - apply dict_get_None_keys in H. split; [contradiction|].
    intros [v Hv]. discriminate.
Qed.

Lemma dict_set_absent k v (d : dict) :
  dict_has k d = false -> dict_set k v d = d ++ [(k, v)].
Proof.
  unfold dict_has. induction d as [|[k' v'] d IH]; simpl; [reflexivity|].
  destruct (String.eqb k' k); [discriminate|].
  intros H. now rewrite IH.
Qed.

(** C7, as the code has it: on a document without a [paths] section the
    path-filtering stage raises nothing and collects no tag, and it stores an
    empty [paths] mapping as the new last key of the document; every other
    item stays as it was, in its place. *)
Theorem missing_paths_stored_empty (prefixes : list string) (d : dict) :
  dict_has "paths" d = false ->
  path_filter prefixes (PyDict d) = Ok (d ++ [("paths", PyDict [])], []).
Proof.
  intros H. unfold path_filter.
  change (py_get (PyDict d) "paths" (PyDict [])) with (Ok (paths_of d)).
  unfold paths_of. unfold dict_has in H.
  destruct (dict_get "paths" d) eqn:Hg; [discriminate|].
  simpl. rewrite dict_set_absent; [reflexivity|].
  unfold dict_has. now rewrite Hg.
Qed.

Lemma missing_paths_stored_empty_witness :
  path_filter ["/v1"] (PyDict doc_no_paths)
  = Ok (doc_no_paths ++ [("paths", PyDict [])], []).
Proof.
  apply (missing_paths_stored_empty ["/v1"] doc_no_paths). reflexivity.
Defined.

(** C7 as stated fails: [doc_no_paths] has no [paths] key, and the stage, and
    with it [trim_yaml], returns a document that has one. *)
Lemma missing_paths_not_unchanged :
  dict_has "paths" doc_no_paths = false /\
  exists d' tags,
    path_filter ["/v1"] (PyDict doc_no_paths) = Ok (d', tags) /\
    d' <> doc_no_paths /\
    dict_has "paths" d' = true /\
    trim_yaml insertion_order "/v1" None false (PyDict doc_no_paths)
    = Ok (PyDict d').
Proof.
  split; [reflexivity|].
  exists (doc_no_paths ++ [("paths", PyDict [])]), [].
  repeat split; discriminate.
Qed.

(** ** Tag harvesting *)

Lemma harvest_tags_mappings paths tags :
  harvest_tags paths = Ok tags ->
  forall path entry,
    In (path, entry) paths ->
    exists methods,
      entry = PyDict methods /\
      forall k v, In (k, v) methods -> is_dict v = true.
Proof.
  unfold harvest_tags. intros H path entry Hin.
  destruct (for_each_Ok_In _ _ _ _ H _ Hin) as (s1 & s2 & Hbody).
  simpl in Hbody. apply bind_Ok in Hbody as [methods [Hm Hbody]].
  destruct entry as [| | | | |ms]; try discriminate.
  injection Hm as <-. exists ms. split; [reflexivity|].
  intros k v Hkv.
  destruct (for_each_Ok_In _ _ _ _ Hbody _ Hkv) as (t1 & t2 & Hb).
  simpl in Hb. apply bind_Ok in Hb as [t [Hg _]].
  now destruct v.
Qed.

(** C10: tag harvesting gets through only if every value inside every
    retained path item is a mapping.  When a retained path item maps some key
    to anything else, a list of path-level parameters for one, [trim_yaml]
    raises. *)
Theorem harvest_needs_mappings (set_iter : names -> names) (raw : string)
    (exclude_components : option string) (strip_components : bool)
    (d items methods : dict) (path k : string) (v : value) :
  paths_of d = PyDict items ->
  In (path, PyDict methods) items ->
  (exists q, In q (split_list raw) /\ StrOps.startswith path q = true) ->
  In (k, v) methods ->
  is_dict v = false ->
  raises (trim_yaml set_iter raw exclude_components strip_components (PyDict d)).
Proof.
  intros Hp Hin [q [Hq Hs]] Hkv Hv.
  assert (Hkept : In (path, PyDict methods)
                     (filter (retained (split_list raw)) items)).
  { apply filter_In. split; [assumption|]. unfold retained.
    apply existsb_exists. exists q. split; assumption. }
  unfold trim_yaml, path_filter.
  change (py_get (PyDict d) "paths" (PyDict [])) with (Ok (paths_of d)).
  rewrite Hp. cbn [bind py_items].
  destruct (harvest_tags (filter (retained (split_list raw)) items))
    as [tags|e|] eqn:Hh.
  - destruct (harvest_tags_mappings _ _ Hh _ _ Hkept) as (ms & Heq & Hall).
    injection Heq as <-. rewrite (Hall k v Hkv) in Hv. discriminate.
  - exists e. reflexivity.
  - now apply harvest_tags_returns in Hh.
Qed.

Lemma harvest_needs_mappings_witness :
  raises (trim_yaml insertion_order "/v1" None false
            (PyDict doc_path_parameters)).
Proof.
  apply (harvest_needs_mappings insertion_order "/v1" None false
           doc_path_parameters
           [("/v1/users",
             PyDict
               [("parameters",
                 PyList
                   [PyDict [("name", PyStr "limit"); ("in", PyStr "query")]]);
                ("get", PyDict [("tags", PyList [PyStr "Users"])])])]
           [("parameters",
             PyList [PyDict [("name", PyStr "limit"); ("in", PyStr "query")]]);
            ("get", PyDict [("tags", PyList [PyStr "Users"])])]
           "/v1/users" "parameters"
           (PyList [PyDict [("name", PyStr "limit"); ("in", PyStr "query")]])).
  - reflexivity.
  - simpl. auto.
  - exists "/v1". split; [simpl; auto | reflexivity].
  - simpl. auto.
  - reflexivity.
Defined.

(** On [doc_path_parameters] the exception is the [AttributeError] of
    [method_value.get]. *)
Lemma path_parameters_attribute_error (set_iter : names -> names) :
  trim_yaml set_iter "/v1" None false (PyDict doc_path_parameters)
  = Raise AttributeError.
Proof. reflexivity. Qed.

(** ** Serialization order *)

Lemma list_index_cases k l :
  (In k l /\ exists i, list_index k l = Ok i) \/
  (~ In k l /\ list_index k l = Raise ValueError).
Proof.
  induction l as [|x l IH]; simpl.
  - right. split; [tauto | reflexivity].
  - destruct (String.eqb_spec x k) as [->|Hne].
    + left. split; [now left | now exists 0].
    + destruct IH as [[Hin [i ->]] | [Hn ->]].
      * left. split; [now right | now exists (S i)].
      * right. split; [tauto | reflexivity].
Qed.

Lemma unknown_key_raises (d : dict) k :
  In k (keys d) -> ~ In k top_level_order ->
  write_trimmed_yaml (PyDict d) = Raise ValueError.
Proof.
  intros Hin Hk. unfold write_trimmed_yaml. cbn [py_items bind].
  enough (H : forall acc,
             for_each
               (fun (acc : list (nat * (string * value))) item =>
                  i <- list_index (fst item) top_level_order ;;
                  Ok (acc ++ [(i, item)])) d acc
             = Raise ValueError) by now rewrite H.
  unfold keys in Hin. induction d as [|[k' v'] d IH]; intros acc;
    [contradiction|].
  cbn [for_each fst].
  destruct (list_index_cases k' top_level_order) as [[Hk' [i ->]] | [_ ->]];
    [|reflexivity].
  cbn [bind]. apply IH. destruct Hin as [Heq | Hin]; [|assumption].
  simpl in Heq. subst k'. contradiction.
Qed.

(** C9: a top-level key outside [openapi, info, tags, paths, components]
    makes the ordering step of [write_trimmed_yaml] raise [ValueError], on the
    document as it is and on whatever [trim_yaml] makes of it: the run from
    read to write raises and hands nothing to the YAML dumper. *)
Theorem unknown_top_level_key_aborts (set_iter : names -> names) (d : dict)
    (k : string) :
  In k (keys d) ->
  ~ In k top_level_order ->
  write_trimmed_yaml (PyDict d) = Raise ValueError /\
  forall raw exclude_components strip_components,
    raises (trim_openapi set_iter (PyDict d) raw exclude_components
                         strip_components).
Proof.
  intros Hin Hk. split; [now apply unknown_key_raises with (k := k)|].
  intros raw ex sc. unfold trim_openapi.
  destruct (trim_yaml set_iter raw ex sc (PyDict d)) as [out|e|] eqn:Ht.
  - apply trim_yaml_frame in Ht as (d0 & items & d' & Heq & _ & -> & _ & Hf).
    injection Heq as <-. cbn [bind]. exists ValueError.
    apply unknown_key_raises with (k := k); [|assumption].
    apply dict_get_Some_keys. rewrite Hf.
    + now apply dict_get_Some_keys.
    + intros ->. apply Hk. simpl. tauto.
    + intros ->. apply Hk. simpl. tauto.
    + intros ->. apply Hk. simpl. tauto.
  - exists e. reflexivity.
  - now apply trim_yaml_returns in Ht.
Qed.

Lemma unknown_top_level_key_aborts_witness :
  write_trimmed_yaml (PyDict doc_servers) = Raise ValueError /\
  forall raw exclude_components strip_components,
    raises (trim_openapi insertion_order (PyDict doc_servers) raw
                         exclude_components strip_components).
Proof.
  apply (unknown_top_level_key_aborts insertion_order doc_servers "servers").
  - simpl. auto.
  - simpl. intros [H | [H | [H | [H | [H | []]]]]]; discriminate.
Defined.

(** ** Exclusion of schemas *)

Lemma exclude_stage_no_schemas d categories raw component others :
  dict_get "components" d = Some (PyDict categories) ->
  dict_get "schemas" categories = None ->
  split_list raw = component :: others ->
  exclude_components_stage (Some raw) d = Raise KeyError.
Proof.
  intros Hc Hs Hraw.
  assert (Hne : StrOps.nonempty raw = true).
  { destruct raw; [discriminate | reflexivity]. }
  unfold exclude_components_stage, dict_has.
  rewrite Hne, Hc, Hraw. cbn [for_each].
  unfold exclude_component. cbn [py_getitem]. rewrite Hc. cbn [bind].
  cbn [py_getitem]. now rewrite Hs.
Qed.

(** C6 fails on the code where the claim names the case: when the document
    has [components] without a [schemas] category and at least one name is to
    be excluded, [data['components']['schemas']] raises [KeyError], and so
    does [trim_yaml] once the stages before the exclusion have returned. *)
Theorem exclusion_without_schemas_raises (d categories : dict) (raw : string)
    (component : string) (others : list string) :
  dict_get "components" d = Some (PyDict categories) ->
  dict_get "schemas" categories = None ->
  split_list raw = component :: others ->
  exclude_components_stage (Some raw) d = Raise KeyError /\
  forall set_iter prefixes strip_components d1 tags d2,
    path_filter (split_list prefixes) (PyDict d) = Ok (d1, tags) ->
    filter_tags tags d1 = Ok d2 ->
    trim_yaml set_iter prefixes (Some raw) strip_components (PyDict d)
    = Raise KeyError.
Proof.
  intros Hc Hs Hraw.
  split; [now apply exclude_stage_no_schemas with categories component others|].
  intros set_iter prefixes sc d1 tags d2 Hpf Hft. unfold trim_yaml.
  rewrite Hpf. cbn [bind fst snd]. rewrite Hft. cbn [bind].
  apply path_filter_inv in Hpf as (d0 & items & Heq & _ & _ & ->).
  injection Heq as <-.
  rewrite (exclude_stage_no_schemas _ categories raw component others);
    trivial.
  rewrite (filter_tags_frame _ _ _ Hft) by discriminate.
  now rewrite dict_get_set_other by discriminate.
Qed.

Lemma exclusion_without_schemas_raises_witness :
  exclude_components_stage (Some "Pet") doc_no_schemas = Raise KeyError /\
  trim_yaml insertion_order "/v1" (Some "Pet") false (PyDict doc_no_schemas)
  = Raise KeyError.
Proof.
  destruct (exclusion_without_schemas_raises doc_no_schemas
              [("parameters",
                PyDict [("Limit", PyDict [("in", PyStr "query")])])]
              "Pet" "Pet" [] eq_refl eq_refl eq_refl) as [Hstage Htrim].
  split; [exact Hstage|].
  apply (Htrim insertion_order "/v1" false doc_no_schemas [] doc_no_schemas);
    reflexivity.
Defined.

(** The run on [doc_no_schemas], whatever the visiting order of sets. *)
Lemma no_schemas_key_error (set_iter : names -> names) :
  trim_yaml set_iter "/v1" (Some "Pet") false (PyDict doc_no_schemas)
  = Raise KeyError.
Proof. reflexivity. Qed.

(** ** The visiting order of sets does not matter *)

Lemma bind_ext {A B} (r : result A) (k1 k2 : A -> result B) :
  (forall a, k1 a = k2 a) -> bind r k1 = bind r k2.
Proof. intros H. destruct r; simpl; auto. Qed.

Lemma expand_name_raise components c st n e :
  expand_name components c st n = Raise e -> e = AttributeError.
Proof.
  unfold expand_name, lookup_component.
  destruct components as [| | | | |cats]; simpl;
    try (intros H; now injection H).
  destruct (dict_get c cats) as [[| | | | |defs]|]; simpl;
    try (intros H; now injection H); try discriminate.
  destruct (truthy _); discriminate.
Qed.

Lemma for_each_raise {A S} (body : S -> A -> result S) xs e0 :
  (forall s x e, body s x = Raise e -> e = e0) ->
  forall s e, for_each body xs s = Raise e -> e = e0.
Proof.
  intros Hb. induction xs as [|x xs IH]; intros s e; simpl; [discriminate|].
  destruct (body s x) eqn:E; simpl.
  - apply IH.
  - intros H. injection H as <-. now apply Hb in E.
  - discriminate.
Qed.

Lemma closure_loop_raise set_iter components : forall fuel refs tp e,
  closure_loop set_iter fuel components refs tp = Raise e ->
  e = AttributeError.
Proof.
  induction fuel as [|fuel IH]; intros refs tp e; simpl;
    destruct (popitem tp) as [[[c batch] rest]|]; try discriminate.
  destruct (for_each _ _ _) as [st| |] eqn:Hfor; simpl.
  - apply IH.
  - intros H. injection H as <-. revert Hfor. apply for_each_raise.
    intros s x e'. apply expand_name_raise.
  - discriminate.
Qed.

Lemma sweep_not_dicts refs cats :
  dicts_only (PyDict cats) = false -> sweep refs cats = Raise AttributeError.
Proof.
  simpl. induction cats as [|[c v] cats IH]; simpl; [discriminate|].
  destruct v; simpl; try reflexivity.
  intros H. now rewrite (IH H).
Qed.

Lemma sweep_ext refs1 refs2 cats :
  (forall c n, refs_mem c n refs1 = refs_mem c n refs2) ->
  sweep refs1 cats = sweep refs2 cats.
Proof.
  intros H. induction cats as [|[c v] cats IH]; simpl; [reflexivity|].
  apply bind_ext. intros items. rewrite IH.
  replace (filter (fun kv => name_mem (fst kv) (refs_get c refs1)) items)
    with (filter (fun kv => name_mem (fst kv) (refs_get c refs2)) items);
    [reflexivity|].
  apply filter_ext. intros [k x]. symmetry. apply (H c k).
Qed.

Section Order.
Variables iter1 iter2 : names -> names.
Hypothesis iter1_perm : forall ns, Permutation (iter1 ns) ns.
Hypothesis iter2_perm : forall ns, Permutation (iter2 ns) ns.

Lemma strip_order_irrelevant data :
  strip_unreferenced_components iter1 data
  = strip_unreferenced_components iter2 data.
Proof.
  unfold strip_unreferenced_components.
  destruct data as [| | | | |d]; try reflexivity.
  change (py_get (PyDict d) "paths" (PyDict [])) with (Ok (paths_of d)).
  change (py_get (PyDict d) "components" (PyDict []))
    with (Ok (components_of d)).
  cbn [bind].
  set (refs := find_component_refs (paths_of d) []).
  set (components := components_of d).
  set (fuel := closure_fuel components refs refs).
  assert (Hterm : forall it, closure_loop it fuel components refs refs <> Diverge).
  { intros it.
    apply (closure_loop_enough it components fuel fuel refs refs
             (le_n _) (le_n _)). }
  destruct (dicts_only components) eqn:Hd.
  - destruct (result_cases _ (Hterm iter1)
                (fun e => closure_loop_no_raise iter1 components e Hd _ _ _))
      as [r1 H1].
    destruct (result_cases _ (Hterm iter2)
                (fun e => closure_loop_no_raise iter2 components e Hd _ _ _))
      as [r2 H2].
    rewrite H1, H2. cbn [bind].
    assert (Hm : forall c n, refs_mem c n r1 = refs_mem c n r2).
    { intros c n.
      assert (Hr1 := closure_loop_reachable iter1 iter1_perm (paths_of d)
                       components fuel r1 H1 c n).
      assert (Hr2 := closure_loop_reachable iter2 iter2_perm (paths_of d)
                       components fuel r2 H2 c n).
      destruct (refs_mem c n r1), (refs_mem c n r2); trivial.
      - symmetry. apply Hr2, Hr1. reflexivity.
      - apply Hr1, Hr2. reflexivity. }
    apply bind_ext. intros cats. now rewrite (sweep_ext r1 r2 cats Hm).
  - assert (Hall : forall it,
               (refs <- closure_loop it fuel components refs refs ;;
                categories <- py_items components ;;
                kept <- sweep refs categories ;;
                data <- py_items (PyDict d) ;;
                Ok (PyDict
                      match kept with
                      | [] => dict_del "components" data
                      | _ :: _ => dict_set "components" (PyDict kept) data
                      end)) = Raise AttributeError).
    { intros it.
      destruct (closure_loop it fuel components refs refs) as [r|e|] eqn:Hl.
      - cbn [bind]. destruct components as [| | | | |cats]; try reflexivity.
        cbn [py_items bind]. now rewrite (sweep_not_dicts r cats Hd).
      - apply closure_loop_raise in Hl. now subst e.
      - now apply Hterm in Hl. }
    now rewrite (Hall iter1), (Hall iter2).
Qed.

(** The outcome of [trim_yaml] is the same for any two visiting orders. *)
Lemma trim_yaml_order_irrelevant prefixes ex sc data :
  trim_yaml iter1 prefixes ex sc data = trim_yaml iter2 prefixes ex sc data.
Proof.
  unfold trim_yaml. apply bind_ext. intros st.
  apply bind_ext. intros d2. apply bind_ext. intros d3.
  destruct (sc && dict_has "components" d3); [|reflexivity].
  apply strip_order_irrelevant.
Qed.

End Order.

(** ** When the sweep raises *)

Lemma sweep_Ok_dicts refs cats :
  dicts_only (PyDict cats) = true -> exists kept, sweep refs cats = Ok kept.
Proof.
  simpl. induction cats as [|[c v] cats IH]; simpl; [eauto|].
  rewrite andb_true_iff. intros [Hv Hd].
  destruct v; try discriminate. cbn [py_items bind].
  destruct (IH Hd) as [rest ->]. cbn [bind]. eauto.
Qed.

(** The sweep returns exactly when the catalog is a mapping of mappings;
    otherwise it raises [AttributeError], whatever the references are. *)
Lemma strip_outcome (set_iter : names -> names) (d : dict) :
  (dicts_only (components_of d) = true /\
   exists d', strip_unreferenced_components set_iter (PyDict d)
              = Ok (PyDict d')) \/
  (dicts_only (components_of d) = false /\
   strip_unreferenced_components set_iter (PyDict d) = Raise AttributeError).
Proof.
  unfold strip_unreferenced_components.
  change (py_get (PyDict d) "paths" (PyDict [])) with (Ok (paths_of d)).
  change (py_get (PyDict d) "components" (PyDict []))
    with (Ok (components_of d)).
  cbn [bind].
  set (refs := find_component_refs (paths_of d) []).
  set (components := components_of d).
  set (fuel := closure_fuel components refs refs).
  assert (Hterm : closure_loop set_iter fuel components refs refs <> Diverge).
  { apply (closure_loop_enough set_iter components fuel fuel refs refs
             (le_n _) (le_n _)). }
  destruct (dicts_only components) eqn:Hd.
  - left. split; [reflexivity|].
    destruct (result_cases _ Hterm
                (fun e => closure_loop_no_raise set_iter components e Hd _ _ _))
      as [r ->].
    cbn [bind]. destruct components as [| | | | |cats]; try discriminate.
    cbn [py_items bind]. destruct (sweep_Ok_dicts r cats Hd) as [kept ->].
    cbn [bind]. eauto.
  - right. split; [reflexivity|].
    destruct (closure_loop set_iter fuel components refs refs)
      as [r|e|] eqn:Hl.
    + cbn [bind]. destruct components as [| | | | |cats]; try reflexivity.
      cbn [py_items bind]. now rewrite (sweep_not_dicts r cats Hd).
    + apply closure_loop_raise in Hl. now subst e.
    + contradiction.
Qed.

(** ** Exclusion when [schemas] is there *)

Lemma dict_set_same k v (d : dict) :
  dict_get k d = Some v -> dict_set k v d = d.
Proof.
  induction d as [|[k' v'] d IH]; simpl; [discriminate|].
  destruct (String.eqb_spec k' k) as [->|Hne].
  - intros H. now injection H as ->.
  - intros H. now rewrite IH.
Qed.

Lemma dict_del_absent k (d : dict) : dict_has k d = false -> dict_del k d = d.
Proof.
  unfold dict_has, dict_del.
  induction d as [|[k' v'] d IH]; simpl; [reflexivity|].
  destruct (String.eqb k' k); [discriminate|].
  intros H. simpl. now rewrite IH.
Qed.

Lemma fold_dict_del cs : forall schemas : dict,
  fold_left (fun s c => dict_del c s) cs schemas
  = filter (fun kv => negb (name_mem (fst kv) cs)) schemas.
Proof.
  induction cs as [|c cs IH]; intros schemas; simpl.
  - symmetry. apply forallb_filter_id. now apply forallb_forall.
  - rewrite IH. unfold dict_del.
    induction schemas as [|[k v] schemas IHs]; simpl; [reflexivity|].
    destruct (String.eqb k c); simpl; [assumption|].
    destruct (name_mem k cs); simpl; [assumption | now rewrite IHs].
Qed.

(** One name: the item of that name, if any, leaves [schemas]; nothing else
    changes and nothing is raised. *)
Lemma exclude_component_schemas d cats schemas c :
  dict_get "components" d = Some (PyDict cats) ->
  dict_get "schemas" cats = Some (PyDict schemas) ->
  exists d' cats',
    exclude_component d c = Ok d' /\
    (forall k, k <> "components" -> dict_get k d' = dict_get k d) /\
    dict_get "components" d' = Some (PyDict cats') /\
    (forall k, k <> "schemas" -> dict_get k cats' = dict_get k cats) /\
    dict_get "schemas" cats' = Some (PyDict (dict_del c schemas)).
Proof.
  intros Hc Hs. unfold exclude_component. cbn [py_getitem].
  rewrite Hc. cbn [bind py_getitem]. rewrite Hs. cbn [bind py_contains].
  destruct (dict_has c schemas) eqn:Hhas.
  - cbn [py_delitem]. rewrite Hhas. cbn [bind py_items].
    eexists. exists (dict_set "schemas" (PyDict (dict_del c schemas)) cats).
    split; [reflexivity|]. split; [|split; [|split]].
    + intros k Hk. now apply dict_get_set_other.
    + apply dict_get_set_same.
    + intros k Hk. now apply dict_get_set_other.
    + apply dict_get_set_same.
  - exists d, cats. rewrite (dict_del_absent _ _ Hhas). repeat split; trivial.
Qed.

(** Apart from the missing-[schemas] case, the exclusion stage does what C6
    says: every listed name that is a key of [components.schemas] is removed,
    the others are skipped, the rest of the document is untouched. *)
Lemma exclusion_on_schemas d cats schemas raw :
  dict_get "components" d = Some (PyDict cats) ->
  dict_get "schemas" cats = Some (PyDict schemas) ->
  exists d' cats',
    exclude_components_stage (Some raw) d = Ok d' /\
    (forall k, k <> "components" -> dict_get k d' = dict_get k d) /\
    dict_get "components" d' = Some (PyDict cats') /\
    (forall k, k <> "schemas" -> dict_get k cats' = dict_get k cats) /\
    dict_get "schemas" cats'
    = Some (PyDict (filter (fun kv => negb (name_mem (fst kv) (split_list raw)))
                           schemas)).
Proof.
  intros Hc Hs. unfold exclude_components_stage, dict_has. rewrite Hc.
  assert (Hid : filter (fun kv : string * value => negb (name_mem (fst kv) []))
                       schemas = schemas).
  { apply forallb_filter_id. now apply forallb_forall. }
  destruct (StrOps.nonempty raw) eqn:Hne.
  - rewrite <- fold_dict_del. generalize (split_list raw) as cs.
    intros cs. revert d cats schemas Hc Hs Hid.
    induction cs as [|c cs IH]; intros d cats schemas Hc Hs Hid.
    + exists d, cats. repeat split; trivial.
    + destruct (exclude_component_schemas d cats schemas c Hc Hs)
        as (d1 & cats1 & H1 & Hf1 & Hc1 & Hg1 & Hs1).
      destruct (IH d1 cats1 (dict_del c schemas) Hc1 Hs1)
        as (d' & cats' & H2 & Hf2 & Hc2 & Hg2 & Hs2).
      { apply forallb_filter_id. now apply forallb_forall. }
      exists d', cats'. cbn [for_each fold_left]. rewrite H1. cbn [bind].
      split; [assumption|]. split; [|split; [assumption|split]].
      * intros k Hk. now rewrite Hf2, Hf1.
      * intros k Hk. now rewrite Hg2, Hg1.
      * assumption.
  - destruct raw; [|discriminate]. exists d, cats.
    change (split_list "") with (@nil string). rewrite Hid.
    repeat split; trivial.
Qed.

(** ** Sweeping a swept document *)

Lemma sweep_In refs cats kept :
  sweep refs cats = Ok kept ->
  forall c v,
    In (c, v) kept ->
    exists items,
      v = PyDict items /\ items <> [] /\
      forall kv, In kv items -> refs_mem c (fst kv) refs = true.
Proof.
  revert kept. induction cats as [|[c0 v0] cats IH]; simpl; intros kept H.
  - injection H as <-. intros c v [].
  - apply bind_Ok in H as [items [Hi H]].
    apply bind_Ok in H as [rest [Hr H]]. injection H as <-.
    intros c v Hin.
    destruct (filter (fun kv => name_mem (fst kv) (refs_get c0 refs)) items)
      as [|kv kept0] eqn:Hf.
    + now apply (IH rest).
    + destruct Hin as [Heq | Hin]; [|now apply (IH rest)].
      injection Heq as <- <-. exists (kv :: kept0).
      split; [reflexivity|]. split; [discriminate|].
      intros kv' Hkv. rewrite <- Hf in Hkv. now apply filter_In in Hkv.
Qed.

Lemma sweep_fixed refs cats :
  (forall c v,
      In (c, v) cats ->
      exists items,
        v = PyDict items /\ items <> [] /\
        forall kv, In kv items -> refs_mem c (fst kv) refs = true) ->
  sweep refs cats = Ok cats.
Proof.
  induction cats as [|[c v] cats IH]; intros H; simpl; [reflexivity|].
  destruct (H c v (or_introl eq_refl)) as (items & -> & Hne & Hall).
  cbn [py_items bind].
  rewrite IH by (intros c' v' Hin; apply H; now right). cbn [bind].
  replace (filter (fun kv => name_mem (fst kv) (refs_get c refs)) items)
    with items.
  - destruct items; [contradiction | reflexivity].
  - symmetry. apply forallb_filter_id. apply forallb_forall. exact Hall.
Qed.

Lemma reachable_in_swept paths components components' :
  (forall c n def,
      catalog_def components' c n = Some def <->
      catalog_def components c n = Some def /\ reachable paths components c n) ->
  forall c n,
    reachable paths components c n -> reachable paths components' c n.
Proof.
  intros Hdef c n H.
  induction H as [c n Hp | c0 n0 def c n H0 IH Hd Hr].
  - now apply reach_path.
  - apply reach_component with (c0 := c0) (n0 := n0) (def := def); trivial.
    apply Hdef. now split.
Qed.

Lemma comprehension_idem {A} (cond : A -> result bool) xs : forall ys,
  comprehension cond xs = Ok ys -> comprehension cond ys = Ok ys.
Proof.
  induction xs as [|x xs IH]; simpl; intros ys H.
  - now injection H as <-.
  - apply bind_Ok in H as [keep [Hk H]].
    apply bind_Ok in H as [rest [Hr H]]. injection H as <-.
    destruct keep; [|now apply IH].
    simpl. rewrite Hk. cbn [bind]. now rewrite (IH _ Hr).
Qed.

Lemma filter_idem {A} (f : A -> bool) l : filter f (filter f l) = filter f l.
Proof.
  apply forallb_filter_id. apply forallb_forall.
  intros x Hx. now apply filter_In in Hx.
Qed.

Section Twice.
Variable set_iter : names -> names.
Hypothesis set_iter_perm : forall ns, Permutation (set_iter ns) ns.

(** The run of the sweep on a catalog of the data model's shape, with the
    closure and the swept categories it goes through. *)
Lemma strip_unfold d :
  catalog_shaped (components_of d) = true ->
  exists cats refs kept,
    components_of d = PyDict cats /\
    (forall c n, refs_mem c n refs = true <->
                 reachable (paths_of d) (components_of d) c n) /\
    sweep refs cats = Ok kept /\
    catalog_shaped (PyDict kept) = true /\
    (forall c n,
        catalog_def (PyDict kept) c n =
        if refs_mem c n refs then catalog_def (PyDict cats) c n else None) /\
    strip_unreferenced_components set_iter (PyDict d)
    = Ok (PyDict match kept with
                 | [] => dict_del "components" d
                 | _ :: _ => dict_set "components" (PyDict kept) d
                 end).
Proof.
  intros Hshape. unfold strip_unreferenced_components.
  change (py_get (PyDict d) "paths" (PyDict [])) with (Ok (paths_of d)).
  change (py_get (PyDict d) "components" (PyDict []))
    with (Ok (components_of d)).
  cbn [bind].
  set (refs := find_component_refs (paths_of d) []).
  destruct (closure_loop_enough set_iter (components_of d)
              (closure_fuel (components_of d) refs refs)
              (closure_fuel (components_of d) refs refs) refs refs
              (le_n _) (le_n _)) as [_ Hterm].
  destruct (result_cases _ Hterm
              (fun e => closure_loop_no_raise set_iter (components_of d) e
                          (catalog_shaped_dicts_only _ Hshape)
                          _ refs refs)) as [refs' Hloop].
  rewrite Hloop. cbn [bind].
  assert (Hreach := closure_loop_reachable set_iter set_iter_perm
                      (paths_of d) (components_of d) _ refs' Hloop).
  destruct (components_of d) as [| | | | |cats] eqn:Hc; try discriminate.
  cbn [py_items bind].
  destruct (sweep_spec refs' cats Hshape) as (kept & Hs & Hkshape & Hdef).
  rewrite Hs. cbn [bind].
  exists cats, refs', kept. repeat split; trivial; apply Hreach.
Qed.

(** Sweeping the result of a sweep changes nothing. *)
Lemma strip_idem d d' :
  catalog_shaped (components_of d) = true ->
  strip_unreferenced_components set_iter (PyDict d) = Ok (PyDict d') ->
  strip_unreferenced_components set_iter (PyDict d') = Ok (PyDict d').
Proof.
  intros Hshape Hstrip.
  destruct (strip_unfold d Hshape)
    as (cats & refs1 & kept & Hc & Hr1 & Hs1 & Hks & Hdef1 & H1).
  rewrite H1 in Hstrip. injection Hstrip as Hd'.
  destruct kept as [|item kept0].
  - (* the catalog is gone: there is nothing left to sweep *)
    assert (Hc' : components_of d' = PyDict []).
    { subst d'. unfold components_of. now rewrite dict_get_del_same. }
    assert (Hshape' : catalog_shaped (components_of d') = true)
      by now rewrite Hc'.
    destruct (strip_unfold d' Hshape')
      as (cats2 & refs2 & kept2 & Hc2 & _ & Hs2 & _ & _ & H2).
    rewrite Hc' in Hc2. injection Hc2 as <-. simpl in Hs2.
    injection Hs2 as <-. rewrite H2. do 2 f_equal.
    apply dict_del_absent. unfold dict_has. subst d'.
    now rewrite dict_get_del_same.
  - set (kept := item :: kept0) in *.
    assert (Hg' : dict_get "components" d' = Some (PyDict kept)).
    { subst d'. apply dict_get_set_same. }
    assert (Hc' : components_of d' = PyDict kept).
    { unfold components_of. now rewrite Hg'. }
    assert (Hp' : paths_of d' = paths_of d).
    { unfold paths_of. subst d'.
      now rewrite dict_get_set_other by discriminate. }
    assert (Hshape' : catalog_shaped (components_of d') = true)
      by now rewrite Hc'.
    destruct (strip_unfold d' Hshape')
      as (cats2 & refs2 & kept2 & Hc2 & Hr2 & Hs2 & _ & _ & H2).
    rewrite Hc' in Hc2. injection Hc2 as <-.
    assert (Hfix : sweep refs2 kept = Ok kept).
    { apply sweep_fixed. intros c v Hin.
      destruct (sweep_In _ _ _ Hs1 c v Hin) as (items & -> & Hne & Hall).
      exists items. split; [reflexivity|]. split; [assumption|].
      intros kv Hkv. apply Hr2. rewrite Hp', Hc'.
      apply reachable_in_swept with (components := components_of d).
      - intros c' n' def. rewrite Hdef1, <- Hr1, Hc.
        destruct (refs_mem c' n' refs1); split; try tauto; try discriminate.
        intros [_ H]; discriminate.
      - apply Hr1. now apply Hall. }
    rewrite Hfix in Hs2. injection Hs2 as <-. rewrite H2.
    unfold kept at 1. do 2 f_equal. now apply dict_set_same.
Qed.

End Twice.

(** ** Trimming a trimmed document *)

Lemma dict_set_keys k v (d : dict) :
  dict_has k d = true -> keys (dict_set k v d) = keys d.
Proof.
  unfold dict_has, keys. induction d as [|[k' v'] d IH]; simpl; [discriminate|].
  destruct (String.eqb_spec k' k) as [->|Hne]; simpl; [reflexivity|].
  intros H. now rewrite IH.
Qed.

Lemma dict_set_shape k items cats :
  catalog_shaped (PyDict cats) = true ->
  dict_has k cats = true ->
  catalog_shaped (PyDict (dict_set k (PyDict items) cats)) = true.
Proof.
  unfold catalog_shaped, dicts_only. rewrite !andb_true_iff.
  intros [Hd Hu] Hk. split; [|now rewrite dict_set_keys].
  clear Hu Hk. induction cats as [|[k' v'] cats IH]; simpl; [reflexivity|].
  simpl in Hd. apply andb_true_iff in Hd as [Hv Hd].
  destruct (String.eqb k' k); simpl.
  - assumption.
  - now rewrite Hv, IH.
Qed.

Lemma exclude_component_shape d c d1 :
  exclude_component d c = Ok d1 ->
  catalog_shaped (components_of d) = true ->
  catalog_shaped (components_of d1) = true.
Proof.
  unfold exclude_component. intros H Hshape.
  apply bind_Ok in H as [comps [Hc H]].
  apply bind_Ok in H as [schemas [Hs H]].
  apply bind_Ok in H as [[|] [Hp H]]; [|now injection H as <-].
  apply bind_Ok in H as [schemas' [Hd H]].
  apply bind_Ok in H as [cats [Hi H]]. injection H as <-.
  unfold components_of in *. rewrite dict_get_set_same.
  simpl in Hc. destruct (dict_get "components" d) as [v|]; [|discriminate].
  injection Hc as ->. destruct comps as [| | | | |cs]; try discriminate.
  injection Hi as <-.
  destruct schemas as [| | | | |ss]; try discriminate.
  simpl in Hd. destruct (dict_has c ss); [|discriminate].
  injection Hd as <-. apply dict_set_shape; [assumption|].
  unfold dict_has. simpl in Hs.
  destruct (dict_get "schemas" cs); [reflexivity | discriminate].
Qed.

Lemma exclude_stage_shape ex d d' :
  exclude_components_stage ex d = Ok d' ->
  catalog_shaped (components_of d) = true ->
  catalog_shaped (components_of d') = true.
Proof.
  unfold exclude_components_stage.
  destruct ex as [raw|]; [|intros H; now injection H as <-].
  destruct (StrOps.nonempty raw); [|intros H; now injection H as <-].
  destruct (dict_has "components" d); [|intros H; now injection H as <-].
  generalize (split_list raw) as cs. intros cs. revert d.
  induction cs as [|c cs IH]; intros d; simpl.
  - intros H; now injection H as <-.
  - intros H Hshape. apply bind_Ok in H as [d1 [H1 H]].
    apply (IH _ H). now apply (exclude_component_shape d c).
Qed.

Lemma exclude_absent d cats schemas cs :
  dict_get "components" d = Some (PyDict cats) ->
  dict_get "schemas" cats = Some (PyDict schemas) ->
  (forall c, In c cs -> dict_has c schemas = false) ->
  for_each exclude_component cs d = Ok d.
Proof.
  intros Hc Hs. induction cs as [|c cs IH]; intros Hall; simpl; [reflexivity|].
  unfold exclude_component at 1. cbn [py_getitem]. rewrite Hc. cbn [bind].
  cbn [py_getitem]. rewrite Hs. cbn [bind py_contains].
  rewrite (Hall c (or_introl eq_refl)). cbn [bind].
  apply IH. intros c' Hin. apply Hall. now right.
Qed.

Lemma filter_tags_idem tags d1 d2 d' :
  filter_tags tags d1 = Ok d2 ->
  dict_get "tags" d' = dict_get "tags" d2 ->
  filter_tags tags d' = Ok d'.
Proof.
  unfold filter_tags. destruct (dict_get "tags" d1) as [v|] eqn:Hv.
  - intros H Hg. apply bind_Ok in H as [xs [Hx H]].
    apply bind_Ok in H as [ys [Hy H]]. injection H as <-.
    rewrite dict_get_set_same in Hg. rewrite Hg. cbn [py_iter bind].
    rewrite (comprehension_idem _ _ _ Hy). cbn [bind].
    now rewrite dict_set_same.
  - intros H Hg. injection H as <-. now rewrite Hg, Hv.
Qed.

Lemma shaped_is_dict components :
  catalog_shaped components = true -> exists cats, components = PyDict cats.
Proof. destruct components; try discriminate. eauto. Qed.

Lemma shaped_category cats k v :
  catalog_shaped (PyDict cats) = true ->
  dict_get k cats = Some v -> exists items, v = PyDict items.
Proof.
  intros Hshape Hg. apply catalog_shaped_dicts_only in Hshape. simpl in Hshape.
  rewrite forallb_forall in Hshape. apply dict_get_In in Hg.
  specialize (Hshape _ Hg). simpl in Hshape. destruct v; try discriminate.
  eauto.
Qed.

(** After the exclusion stage has returned, none of the listed names is a
    schema of the catalog. *)
Lemma excluded_names_gone raw d2 d3 c :
  catalog_shaped (components_of d2) = true ->
  exclude_components_stage (Some raw) d2 = Ok d3 ->
  In c (split_list raw) ->
  catalog_def (components_of d3) "schemas" c = None.
Proof.
  intros Hshape H3 Hin.
  destruct (dict_get "components" d2) as [v2|] eqn:Hv2.
  - assert (Hc2 : components_of d2 = v2)
      by (unfold components_of; now rewrite Hv2).
    rewrite Hc2 in Hshape.
    destruct (shaped_is_dict _ Hshape) as [cats2 ->].
    destruct (dict_get "schemas" cats2) as [sv2|] eqn:Hsv2.
    + destruct (shaped_category _ _ _ Hshape Hsv2) as [schemas2 ->].
      destruct (exclusion_on_schemas d2 cats2 schemas2 raw Hv2 Hsv2)
        as (dd & cc & Hst & _ & Hcc & _ & Hss).
      rewrite Hst in H3. injection H3 as <-.
      unfold components_of. rewrite Hcc. simpl. rewrite Hss.
      rewrite (dict_get_filter
                 (fun k => negb (name_mem k (split_list raw)))).
      apply name_mem_In in Hin. now rewrite Hin.
    + destruct (split_list raw) as [|c0 cs] eqn:Hcs; [contradiction|].
      rewrite (exclude_stage_no_schemas d2 cats2 raw c0 cs) in H3;
        trivial; discriminate.
  - unfold exclude_components_stage, dict_has in H3. rewrite Hv2 in H3.
    destruct (StrOps.nonempty raw); injection H3 as <-;
      unfold components_of; now rewrite Hv2.
Qed.

Section TrimTwice.
Variable set_iter : names -> names.
Hypothesis set_iter_perm : forall ns, Permutation (set_iter ns) ns.

(** The exclusion stage applied to the result of a trim: nothing is left to
    exclude, unless there is no [schemas] category to look into. *)
Lemma exclude_again ex d2 d3 d' :
  catalog_shaped (components_of d2) = true ->
  exclude_components_stage ex d2 = Ok d3 ->
  catalog_shaped (components_of d') = true ->
  (forall c n def,
      catalog_def (components_of d') c n = Some def ->
      catalog_def (components_of d3) c n = Some def) ->
  exclude_components_stage ex d' = Ok d' \/
  (exclude_components_stage ex d' = Raise KeyError /\
   exists cats raw c cs,
     ex = Some raw /\ split_list raw = c :: cs /\
     dict_get "components" d' = Some (PyDict cats) /\
     dict_get "schemas" cats = None).
Proof.
  intros Hs2 H3 Hs' Hsub.
  destruct ex as [raw|]; [|now left].
  destruct (dict_get "components" d') as [v|] eqn:Hv.
  2:{ left. unfold exclude_components_stage, dict_has. rewrite Hv.
      now destruct (StrOps.nonempty raw). }
  assert (Hcv : components_of d' = v)
    by (unfold components_of; now rewrite Hv).
  rewrite Hcv in Hs'. destruct (shaped_is_dict _ Hs') as [cats ->].
  destruct (split_list raw) as [|c cs] eqn:Hcs.
  { left. unfold exclude_components_stage, dict_has. rewrite Hv, Hcs.
    now destruct (StrOps.nonempty raw). }
  destruct (dict_get "schemas" cats) as [sv|] eqn:Hsv.
  - left. destruct (shaped_category _ _ _ Hs' Hsv) as [schemas ->].
    unfold exclude_components_stage, dict_has. rewrite Hv, Hcs.
    destruct (StrOps.nonempty raw); [|reflexivity].
    apply exclude_absent with cats schemas; trivial.
    intros c0 Hin. unfold dict_has.
    destruct (dict_get c0 schemas) as [def|] eqn:Hdef; [|reflexivity].
    assert (Hd : catalog_def (components_of d') "schemas" c0 = Some def).
    { rewrite Hcv. simpl. now rewrite Hsv. }
    apply Hsub in Hd.
    rewrite (excluded_names_gone raw d2 d3 c0 Hs2 H3) in Hd;
      [discriminate | now rewrite Hcs].
  - right. split.
    + now apply exclude_stage_no_schemas with cats c cs.
    + exists cats, raw, c, cs. repeat split; trivial.
Qed.

(** Trimming a trimmed document with the same prefixes, exclusions and
    stripping returns the document unchanged, unless names are to be excluded
    and the first trim has left a catalog without [schemas]: then the second
    trim raises [KeyError]. *)
Lemma trim_twice raw ex d d' :
  catalog_shaped (components_of d) = true ->
  trim_yaml set_iter raw ex true (PyDict d) = Ok (PyDict d') ->
  trim_yaml set_iter raw ex true (PyDict d') = Ok (PyDict d') \/
  (trim_yaml set_iter raw ex true (PyDict d') = Raise KeyError /\
   exists cats raw' c cs,
     ex = Some raw' /\ split_list raw' = c :: cs /\
     dict_get "components" d' = Some (PyDict cats) /\
     dict_get "schemas" cats = None).
Proof.
  intros Hshape H.
  apply trim_yaml_inv in H
    as (d0 & items & tags & d2 & d3 & Heq & Hp & Hh & H2 & H3 & H).
  injection Heq as <-.
  set (kept := filter (retained (split_list raw)) items) in *.
  assert (Hs2 : catalog_shaped (components_of d2) = true).
  { unfold components_of.
    rewrite (filter_tags_frame _ _ _ H2) by discriminate.
    now rewrite dict_get_set_other by discriminate. }
  assert (Hs3 := exclude_stage_shape _ _ _ H3 Hs2).
  assert (Hfin :
            (forall k, k <> "components" -> dict_get k d' = dict_get k d3) /\
            catalog_shaped (components_of d') = true /\
            (forall c n def,
                catalog_def (components_of d') c n = Some def ->
                catalog_def (components_of d3) c n = Some def) /\
            (dict_has "components" d' = true ->
             strip_unreferenced_components set_iter (PyDict d')
             = Ok (PyDict d'))).
  { simpl in H. destruct (dict_has "components" d3) eqn:Hhas.
    - destruct (strip_components_spec set_iter set_iter_perm d3 Hs3)
        as (dd & Hs & Hf & Hsh & Hdef).
      assert (Hidem := strip_idem set_iter set_iter_perm d3 dd Hs3 Hs).
      rewrite Hs in H. injection H as <-.
      split; [exact Hf|]. split; [exact Hsh|]. split; [|now intros _].
      intros c n def Hd. now apply Hdef in Hd.
    - injection H as <-. split; [reflexivity|]. split; [assumption|].
      split; [trivial | congruence]. }
  destruct Hfin as (Hf & Hsh' & Hsub & Hstrip).
  assert (Hpaths' : dict_get "paths" d' = Some (PyDict kept)).
  { rewrite Hf by discriminate.
    rewrite (exclude_stage_frame _ _ _ H3) by discriminate.
    rewrite (filter_tags_frame _ _ _ H2) by discriminate.
    apply dict_get_set_same. }
  assert (Hpf : path_filter (split_list raw) (PyDict d') = Ok (d', tags)).
  { unfold path_filter.
    change (py_get (PyDict d') "paths" (PyDict [])) with (Ok (paths_of d')).
    unfold paths_of. rewrite Hpaths'. cbn [bind py_items].
    unfold kept. rewrite filter_idem. fold kept. rewrite Hh. cbn [bind].
    now rewrite dict_set_same. }
  assert (Htags : filter_tags tags d' = Ok d').
  { apply filter_tags_idem with (1 := H2). rewrite Hf by discriminate.
    apply (exclude_stage_frame _ _ _ H3). discriminate. }
  unfold trim_yaml. rewrite Hpf. cbn [bind fst snd]. rewrite Htags.
  cbn [bind].
  destruct (exclude_again ex d2 d3 d' Hs2 H3 Hsh' Hsub) as [Hex | [Hex Hwhy]].
  - left. rewrite Hex. cbn [bind]. simpl.
    destruct (dict_has "components" d') eqn:Hhas;
      [now apply Hstrip | reflexivity].
  - right. rewrite Hex. split; [reflexivity | assumption].
Qed.

End TrimTwice.

(** C5 fails on the code through the missing [schemas] test of the exclusion
    stage: trimming [doc_unused_schema] with the schema [Unused] excluded and
    stripping enabled returns a document whose catalog has lost its emptied
    [schemas] category, and the same trim applied to that document raises
    [KeyError].  That is the only way: a second trim of a trimmed document
    either returns it unchanged or raises this [KeyError]. *)
Theorem second_trim_raises (set_iter : names -> names) :
  (forall ns, Permutation (set_iter ns) ns) ->
  (trim_yaml set_iter "/v1" (Some "Unused") true (PyDict doc_unused_schema)
   = Ok (PyDict doc_unused_schema_trimmed) /\
   trim_yaml set_iter "/v1" (Some "Unused") true
             (PyDict doc_unused_schema_trimmed)
   = Raise KeyError) /\
  (forall raw ex d d',
      catalog_shaped (components_of d) = true ->
      trim_yaml set_iter raw ex true (PyDict d) = Ok (PyDict d') ->
      trim_yaml set_iter raw ex true (PyDict d') = Ok (PyDict d') \/
      (trim_yaml set_iter raw ex true (PyDict d') = Raise KeyError /\
       exists cats raw' c cs,
         ex = Some raw' /\ split_list raw' = c :: cs /\
         dict_get "components" d' = Some (PyDict cats) /\
         dict_get "schemas" cats = None)).
Proof.
  intros Hperm. split.
  - rewrite !(trim_yaml_order_irrelevant set_iter insertion_order Hperm
                (fun ns => Permutation_refl ns)).
    split; reflexivity.
  - intros raw ex d d'. now apply trim_twice.
Qed.

Lemma second_trim_raises_witness :
  (trim_yaml insertion_order "/v1" (Some "Unused") true
             (PyDict doc_unused_schema)
   = Ok (PyDict doc_unused_schema_trimmed) /\
   trim_yaml insertion_order "/v1" (Some "Unused") true
             (PyDict doc_unused_schema_trimmed)
   = Raise KeyError) /\
  (trim_yaml insertion_order "/v1" None true (PyDict doc_cycle_trimmed)
   = Ok (PyDict doc_cycle_trimmed) \/
   (trim_yaml insertion_order "/v1" None true (PyDict doc_cycle_trimmed)
    = Raise KeyError /\
    exists cats raw' c cs,
      None = Some raw' /\ split_list raw' = c :: cs /\
      dict_get "components" doc_cycle_trimmed = Some (PyDict cats) /\
      dict_get "schemas" cats = None)).
Proof.
  destruct (second_trim_raises insertion_order
              (fun ns => Permutation_refl ns)) as [Hfail Htwice].
  split; [exact Hfail|].
  apply (Htwice "/v1" None doc_cycle doc_cycle_trimmed); reflexivity.
Defined.

(** ** Trimming a document of the data model returns *)

Lemma for_each_Ok {A S} (body : S -> A -> result S) xs :
  (forall s x, In x xs -> exists s', body s x = Ok s') ->
  forall s, exists s', for_each body xs s = Ok s'.
Proof.
  induction xs as [|x xs IH]; intros Hb s; simpl; [eauto|].
  destruct (Hb s x (or_introl eq_refl)) as [s1 ->]. cbn [bind].
  apply IH. intros s0 y Hy. apply Hb. now right.
Qed.

Lemma comprehension_Ok {A} (cond : A -> result bool) xs :
  (forall x, In x xs -> exists b, cond x = Ok b) ->
  exists ys, comprehension cond xs = Ok ys.
Proof.
  induction xs as [|x xs IH]; intros Hc; simpl; [eauto|].
  destruct (Hc x (or_introl eq_refl)) as [b ->]. cbn [bind].
  destruct IH as [ys ->]; [intros y Hy; apply Hc; now right|].
  cbn [bind]. eauto.
Qed.

Lemma harvest_tags_Ok paths :
  forallb (fun kv => path_item_ok (snd kv)) paths = true ->
  exists tags, harvest_tags paths = Ok tags.
Proof.
  intros Hok. unfold harvest_tags. apply for_each_Ok.
  intros s [path item] Hin. rewrite forallb_forall in Hok.
  specialize (Hok _ Hin). simpl in *.
  destruct item as [| | | | |methods]; try discriminate.
  cbn [py_items bind]. apply for_each_Ok.
  intros s0 [method op] Hm. simpl in Hok. rewrite forallb_forall in Hok.
  specialize (Hok _ Hm). simpl in *.
  destruct op as [| | | | |entries]; try discriminate.
  cbn [py_get bind]. unfold operation_ok in Hok.
  destruct (dict_get "tags" entries) as [[| | | |tags|]|]; try discriminate.
  - unfold set_update. cbn [py_iter bind]. apply for_each_Ok.
    intros s1 x Hx. rewrite forallb_forall in Hok. unfold set_add.
    rewrite (Hok x Hx). eauto.
  - unfold set_update. cbn [py_iter bind for_each]. eauto.
Qed.

Lemma filter_tags_Ok tags (d : dict) :
  match dict_get "tags" d with
  | None => true
  | Some (PyList tags) => forallb tag_ok tags
  | Some _ => false
  end = true ->
  exists d', filter_tags tags d = Ok d'.
Proof.
  unfold filter_tags.
  destruct (dict_get "tags" d) as [[| | | |ts|]|]; try discriminate; [|eauto].
  intros Hok. cbn [py_iter bind].
  destruct (comprehension_Ok
              (fun tag => name <- py_getitem tag "name" ;; py_in_set name tags)
              ts) as [ys ->]; [|cbn [bind]; eauto].
  intros tag Hin. rewrite forallb_forall in Hok. specialize (Hok _ Hin).
  destruct tag as [| | | | |entries]; try discriminate.
  simpl in *. destruct (dict_get "name" entries) as [name|]; [|discriminate].
  cbn [bind]. unfold py_in_set. rewrite Hok. eauto.
Qed.

Section Total.
Variable set_iter : names -> names.
Hypothesis set_iter_perm : forall ns, Permutation (set_iter ns) ns.

(** On a document of the data model [trim_yaml] returns, unless names are to
    be excluded from a catalog that has no [schemas] category. *)
Lemma trim_yaml_total raw ex sc d :
  document_ok d = true ->
  (ex = None \/ dict_has "components" d = false \/
   exists cats schemas,
     dict_get "components" d = Some (PyDict cats) /\
     dict_get "schemas" cats = Some schemas) ->
  exists d', trim_yaml set_iter raw ex sc (PyDict d) = Ok (PyDict d').
Proof.
  unfold document_ok. rewrite !andb_true_iff. intros [[Hpaths Htags] Hshape] Hex.
  unfold trim_yaml, path_filter.
  change (py_get (PyDict d) "paths" (PyDict [])) with (Ok (paths_of d)).
  destruct (paths_of d) as [| | | | |items] eqn:Hp; try discriminate.
  cbn [bind py_items].
  set (kept := filter (retained (split_list raw)) items).
  destruct (harvest_tags_Ok kept) as [tags ->].
  { apply forallb_forall. intros kv Hin. apply filter_In in Hin as [Hin _].
    rewrite forallb_forall in Hpaths. now apply Hpaths. }
  cbn [bind fst snd].
  set (d1 := dict_set "paths" (PyDict kept) d).
  destruct (filter_tags_Ok tags d1) as [d2 H2].
  { unfold d1. now rewrite dict_get_set_other by discriminate. }
  rewrite H2. cbn [bind].
  assert (Hc2 : dict_get "components" d2 = dict_get "components" d).
  { rewrite (filter_tags_frame _ _ _ H2) by discriminate.
    unfold d1. now rewrite dict_get_set_other by discriminate. }
  assert (Hs2 : catalog_shaped (components_of d2) = true).
  { unfold components_of in *. now rewrite Hc2. }
  assert (H3 : exists d3, exclude_components_stage ex d2 = Ok d3).
  { destruct Hex as [-> | [Hno | (cats & sv & Hc & Hs)]].
    - simpl. eauto.
    - unfold exclude_components_stage, dict_has in *. rewrite Hc2.
      destruct ex as [r|]; [|eauto].
      destruct (StrOps.nonempty r); [|eauto].
      destruct (dict_get "components" d); [discriminate | eauto].
    - destruct ex as [r|]; [|simpl; eauto].
      rewrite <- Hc2 in Hc.
      assert (Hsh : catalog_shaped (PyDict cats) = true).
      { unfold components_of in Hs2. now rewrite Hc in Hs2. }
      destruct (shaped_category _ _ _ Hsh Hs) as [schemas ->].
      destruct (exclusion_on_schemas d2 cats schemas r Hc Hs)
        as (d3 & _ & H3 & _). eauto. }
  destruct H3 as [d3 H3]. rewrite H3. cbn [bind].
  destruct (sc && dict_has "components" d3); [|eauto].
  destruct (strip_components_spec set_iter set_iter_perm d3
              (exclude_stage_shape _ _ _ H3 Hs2)) as (d' & Hs & _).
  eauto.
Qed.

End Total.

(** ** The retained paths *)

(** C3: [trim_yaml] returns on every document of the data model (when names
    are to be excluded, the catalog needs its [schemas] category), and
    whenever it returns, the [paths] section of its result holds, in their
    order, exactly the keys of the original section that start with one of the
    prefixes; the prefixes are the segments of the comma-separated list with
    their surrounding whitespace trimmed, the empty ones discarded. *)
Theorem retained_path_keys (set_iter : names -> names) (raw : string)
    (exclude_components : option string) (strip_components : bool) :
  (forall ns, Permutation (set_iter ns) ns) ->
  (forall d,
      document_ok d = true ->
      (exclude_components = None \/ dict_has "components" d = false \/
       exists cats schemas,
         dict_get "components" d = Some (PyDict cats) /\
         dict_get "schemas" cats = Some schemas) ->
      exists d',
        trim_yaml set_iter raw exclude_components strip_components (PyDict d)
        = Ok (PyDict d')) /\
  (forall data out,
      trim_yaml set_iter raw exclude_components strip_components data = Ok out ->
      exists d items d' kept,
        data = PyDict d /\ paths_of d = PyDict items /\
        out = PyDict d' /\ dict_get "paths" d' = Some (PyDict kept) /\
        keys kept
        = filter (fun p => existsb (StrOps.startswith p) (split_list raw))
                 (keys items) /\
        (forall p,
            In p (keys kept) <->
            In p (keys items) /\
            exists q, In q (split_list raw) /\
                      exists rest, p = (q ++ rest)%string) /\
        (forall q,
            In q (split_list raw) <->
            q <> "" /\
            exists seg, In seg (StrOps.split "," raw) /\
                        q = StrOps.strip seg)).
Proof.
  intros Hperm. split.
  - intros d Hok Hex. now apply trim_yaml_total.
  - intros data out H.
    apply trim_yaml_frame in H
      as (d & items & d' & -> & Hp & -> & Hg & _).
    exists d, items, d', (filter (retained (split_list raw)) items).
    assert (Hk : keys (filter (retained (split_list raw)) items)
                 = filter (fun p => existsb (StrOps.startswith p)
                                            (split_list raw))
                          (keys items))
      by apply (keys_filter
                  (fun p => existsb (StrOps.startswith p) (split_list raw))).
    split; [reflexivity|]. split; [assumption|]. split; [reflexivity|].
    split; [assumption|]. split; [assumption|].
    split; [|intros q; apply split_list_In].
    intros p. rewrite Hk, filter_In, existsb_exists. split.
    + intros [Hin [q [Hq Hs]]]. split; [assumption|]. exists q.
      split; [assumption | now apply startswith_iff].
    + intros [Hin [q [Hq Hs]]]. split; [assumption|]. exists q.
      split; [assumption | now apply startswith_iff].
Qed.

Lemma retained_path_keys_witness :
  (exists d',
      trim_yaml insertion_order " /v1 ,, " None false (PyDict doc_users_orders)
      = Ok (PyDict d')) /\
  exists d items d' kept,
    PyDict doc_users_orders = PyDict d /\ paths_of d = PyDict items /\
    PyDict doc_users_only = PyDict d' /\
    dict_get "paths" d' = Some (PyDict kept) /\
    keys kept
    = filter (fun p => existsb (StrOps.startswith p) (split_list " /v1 ,, "))
             (keys items) /\
    (forall p,
        In p (keys kept) <->
        In p (keys items) /\
        exists q, In q (split_list " /v1 ,, ") /\
                  exists rest, p = (q ++ rest)%string) /\
    (forall q,
        In q (split_list " /v1 ,, ") <->
        q <> "" /\
        exists seg, In seg (StrOps.split "," " /v1 ,, ") /\
                    q = StrOps.strip seg).
Proof.
  destruct (retained_path_keys insertion_order " /v1 ,, " None false
              (fun ns => Permutation_refl ns)) as [Htotal Hkeys].
  split.
  - apply (Htotal doc_users_orders); [reflexivity | now left].
  - apply (Hkeys (PyDict doc_users_orders) (PyDict doc_users_only)).
    reflexivity.
Defined.

(** ** The examples of the specification *)

Example trim_users_orders (set_iter : names -> names) :
  trim_yaml set_iter "/v1" None false (PyDict doc_users_orders)
  = Ok (PyDict doc_users_only).
Proof. reflexivity. Qed.

Example trim_cycle (set_iter : names -> names) :
  (forall ns, Permutation (set_iter ns) ns) ->
  trim_yaml set_iter "/v1" None true (PyDict doc_cycle)
  = Ok (PyDict doc_cycle_trimmed).
Proof.
  intros Hperm.
  rewrite (trim_yaml_order_irrelevant set_iter insertion_order Hperm
             (fun ns => Permutation_refl ns)).
  reflexivity.
Qed.

(** * Further properties *)

(** ** The fixed order of the top-level keys *)

Lemma list_index_inj l : forall a b i,
  list_index a l = Ok i -> list_index b l = Ok i -> a = b.
Proof.
  induction l as [|x l IH]; intros a b i; simpl; [discriminate|].
  destruct (String.eqb_spec x a) as [Ha|Ha];
    destruct (String.eqb_spec x b) as [Hb|Hb].
  - intros _ _. congruence.
  - intros H1 H2. injection H1 as <-.
    destruct (list_index b l); simpl in H2; discriminate.
  - intros H1 H2. injection H2 as <-.
    destruct (list_index a l); simpl in H1; discriminate.
  - intros H1 H2.
    destruct (list_index a l) as [ia| |] eqn:Ea; simpl in H1; try discriminate.
    destruct (list_index b l) as [ib| |] eqn:Eb; simpl in H2; try discriminate.
    injection H1 as <-. injection H2 as H2. subst ib.
    now apply (IH a b ia).
Qed.

Lemma key_rank_index k :
  In k top_level_order -> list_index k top_level_order = Ok (key_rank k).
Proof.
  intros Hin. unfold key_rank.
  destruct (list_index_cases k top_level_order) as [[_ [i ->]] | [Hn _]];
    [reflexivity | contradiction].
Qed.

Lemma key_rank_inj a b :
  In a top_level_order -> In b top_level_order ->
  key_rank a = key_rank b -> a = b.
Proof.
  intros Ha Hb Heq. apply key_rank_index in Ha, Hb. rewrite Heq in Ha.
  now apply (list_index_inj top_level_order a b (key_rank b)).
Qed.

Lemma insert_by_key_perm {A} (x : nat * A) l :
  Permutation (insert_by_key x l) (x :: l).
Proof.
  induction l as [|y l IH]; simpl; [reflexivity|].
  destruct (fst x <? fst y)%nat; [reflexivity|].
  rewrite IH. apply perm_swap.
Qed.

Lemma sort_by_key_perm {A} (l : list (nat * A)) :
  Permutation (sort_by_key l) l.
Proof.
  unfold sort_by_key. induction l as [|x l IH]; simpl; [reflexivity|].
  rewrite insert_by_key_perm. now constructor.
Qed.

Lemma insert_by_key_sorted {A} (x : nat * A) l :
  StronglySorted (fun a b => fst a < fst b) l ->
  ~ In (fst x) (map fst l) ->
  StronglySorted (fun a b => fst a < fst b) (insert_by_key x l).
Proof.
  induction 1 as [|y l Hs IH Hy]; simpl; intros Hx.
  - repeat constructor.
  - destruct (Nat.ltb_spec (fst x) (fst y)) as [Hlt|Hge].
    + constructor; [now constructor|].
      constructor; [assumption|].
      rewrite Forall_forall in *. intros z Hz. specialize (Hy z Hz). lia.
    + assert (Hxy : fst y <> fst x) by (intros E; apply Hx; now left).
      assert (Hxl : ~ In (fst x) (map fst l))
        by (intros E; apply Hx; now right).
      constructor; [now apply IH|].
      rewrite Forall_forall in *. intros z Hz.
      apply (Permutation_in _ (insert_by_key_perm x l)) in Hz.
      destruct Hz as [<- | Hz]; [lia | now apply Hy].
Qed.

Lemma sort_by_key_sorted {A} (l : list (nat * A)) :
  NoDup (map fst l) ->
  StronglySorted (fun a b => fst a < fst b) (sort_by_key l).
Proof.
  unfold sort_by_key. induction l as [|x l IH]; simpl; intros Hnd.
  - constructor.
  - inversion Hnd as [|? ? Hx Hnd']; subst.
    apply insert_by_key_sorted; [now apply IH|].
    intros Hin. apply Hx.
    apply (Permutation_in _ (Permutation_map fst (sort_by_key_perm l))).
    exact Hin.
Qed.

Lemma sort_by_key_fixed {A} (l : list (nat * A)) :
  StronglySorted (fun a b => fst a < fst b) l -> sort_by_key l = l.
Proof.
  unfold sort_by_key. induction 1 as [|x l Hs IH Hx]; simpl; [reflexivity|].
  rewrite IH. destruct l as [|y l]; [reflexivity|]. simpl.
  inversion Hx as [|? ? Hxy _]; subst.
  destruct (Nat.ltb_spec (fst x) (fst y)); [reflexivity | lia].
Qed.

Lemma keyed_items (d : dict) : forall acc,
  (forall k, In k (keys d) -> In k top_level_order) ->
  for_each
    (fun (acc : list (nat * (string * value))) item =>
       i <- list_index (fst item) top_level_order ;;
       Ok (acc ++ [(i, item)])) d acc
  = Ok (acc ++ map (fun item => (key_rank (fst item), item)) d).
Proof.
  unfold keys. induction d as [|[k v] d IH]; intros acc Hall;
    cbn [for_each fst map].
  - now rewrite app_nil_r.
  - rewrite (key_rank_index k) by (apply Hall; now left). cbn [bind].
    rewrite IH by (intros k' Hk'; apply Hall; now right).
    now rewrite <- app_assoc.
Qed.

Lemma ordered_items (d : dict) :
  (forall k, In k (keys d) -> In k top_level_order) ->
  unique_keys (keys d) = true ->
  exists out,
    write_trimmed_yaml (PyDict d) = Ok out /\
    Permutation out d /\
    StronglySorted (fun a b => key_rank (fst a) < key_rank (fst b)) out /\
    write_trimmed_yaml (PyDict out) = Ok out.
Proof.
  intros Hall Hu.
  set (tag := fun item : string * value => (key_rank (fst item), item)).
  assert (Hw : forall d0 : dict,
             (forall k, In k (keys d0) -> In k top_level_order) ->
             write_trimmed_yaml (PyDict d0)
             = Ok (map snd (sort_by_key (map tag d0)))).
  { intros d0 H0. unfold write_trimmed_yaml. cbn [py_items bind].
    now rewrite (keyed_items d0 [] H0). }
  assert (Hsnd : forall l : dict, map snd (map tag l) = l).
  { intros l. rewrite map_map. simpl. apply map_id. }
  assert (Hnd : NoDup (map fst (map tag d))).
  { rewrite map_map. simpl. apply unique_keys_NoDup in Hu.
    unfold keys in *. clear Hw.
    induction d as [|[k v] d IH]; simpl; [constructor|].
    inversion Hu as [|? ? Hk Hu']; subst. constructor.
    - intros Hin. apply in_map_iff in Hin as [[k' v'] [Heq Hin]].
      simpl in Heq. apply key_rank_inj in Heq.
      + subst k'. apply Hk. change k with (fst (k, v')). now apply in_map.
      + apply Hall. right. change k' with (fst (k', v')). now apply in_map.
      + apply Hall. now left.
    - apply IH; [|assumption]. intros k' Hk'. apply Hall. now right. }
  assert (Hsorted := sort_by_key_sorted _ Hnd).
  assert (Hperm := sort_by_key_perm (map tag d)).
  set (sorted := sort_by_key (map tag d)) in *.
  assert (Htag : forall p, In p sorted -> p = tag (snd p)).
  { intros p Hp. apply (Permutation_in _ Hperm) in Hp.
    apply in_map_iff in Hp as [item [<- _]]. reflexivity. }
  assert (Hmap : map tag (map snd sorted) = sorted).
  { rewrite map_map. rewrite <- (map_id sorted) at 2.
    apply map_ext_in. intros p Hp. symmetry. now apply Htag. }
  exists (map snd sorted). split; [now apply Hw|]. split; [|split].
  - rewrite <- (Hsnd d). now apply Permutation_map.
  - clear -Hsorted Htag. induction Hsorted as [|p l Hs IH Hp]; simpl.
    + constructor.
    + constructor.
      * apply IH. intros q Hq. apply Htag. now right.
      * rewrite Forall_forall in *. intros q Hq.
        apply in_map_iff in Hq as [q' [<- Hq']].
        specialize (Hp q' Hq').
        rewrite (Htag p (or_introl eq_refl)) in Hp.
        rewrite (Htag q' (or_intror Hq')) in Hp. exact Hp.
  - rewrite Hw.
    + rewrite Hmap. now rewrite (sort_by_key_fixed sorted Hsorted).
    + intros k Hk. apply Hall.
      apply (Permutation_in k (Permutation_map fst
               (Permutation_trans (Permutation_map snd Hperm)
                  (eq_ind_r (fun l => Permutation l d) (Permutation_refl d) (Hsnd d))))).
      exact Hk.
Qed.

(** X1: for a document with distinct top-level keys, the ordering step of
    [write_trimmed_yaml] returns exactly when every key is one of [openapi],
    [info], [tags], [paths] and [components]; the items it hands to the dumper
    are then those of the document, each once, in that fixed order, and
    ordering them again changes nothing. *)
Theorem output_keys_in_fixed_order (d : dict) :
  unique_keys (keys d) = true ->
  ((exists out, write_trimmed_yaml (PyDict d) = Ok out) <->
   (forall k, In k (keys d) -> In k top_level_order)) /\
  (forall out,
      write_trimmed_yaml (PyDict d) = Ok out ->
      Permutation out d /\
      StronglySorted (fun a b => key_rank (fst a) < key_rank (fst b)) out /\
      write_trimmed_yaml (PyDict out) = Ok out).
Proof.
  intros Hu.
  assert (Hall : forall out,
             write_trimmed_yaml (PyDict d) = Ok out ->
             forall k, In k (keys d) -> In k top_level_order).
  { intros out Hout k Hk.
    destruct (in_dec string_dec k top_level_order) as [Hin | Hnot];
      [assumption|].
    rewrite (unknown_key_raises d k Hk Hnot) in Hout. discriminate. }
  split.
  - split.
    + intros [out Hout]. now apply (Hall out).
    + intros Hin. destruct (ordered_items d Hin Hu) as (out & Hw & _). eauto.
  - intros out Hout.
    destruct (ordered_items d (Hall out Hout) Hu)
      as (out' & Hw & Hp & Hs & Hi).
    rewrite Hw in Hout. injection Hout as <-. auto.
Qed.

Lemma output_keys_in_fixed_order_witness :
  unique_keys (keys doc_users_orders) = true /\
  exists out,
    write_trimmed_yaml (PyDict doc_users_orders) = Ok out /\
    Permutation out doc_users_orders /\
    StronglySorted (fun a b => key_rank (fst a) < key_rank (fst b)) out /\
    write_trimmed_yaml (PyDict out) = Ok out.
Proof.
  split; [reflexivity|].
  destruct (output_keys_in_fixed_order doc_users_orders eq_refl)
    as [Hreturns Hordered].
  destruct (proj2 Hreturns) as [out Hout].
  - intros k Hk. simpl in Hk |- *. tauto.
  - exists out. split; [exact Hout | now apply Hordered].
Defined.

(** ** The tag definitions *)

Lemma py_eq_trans a b c :
  py_eq a b = true -> py_eq b c = true -> py_eq a c = true.
Proof.
  destruct a, b, c; simpl; try discriminate; trivial; intros H1 H2;
    eqb_to_eq; subst; trivial;
    repeat match goal with b : bool |- _ => destruct b end;
    try reflexivity; try lia; try congruence.
Qed.

Lemma set_mem_iff z (s : pyset) :
  set_mem z s = true <-> exists y, In y s /\ py_eq z y = true.
Proof. unfold set_mem. apply existsb_exists. Qed.

Lemma set_add_mem s x s' z :
  set_add s x = Ok s' ->
  (set_mem z s' = true <-> set_mem z s = true \/ py_eq z x = true).
Proof.
  unfold set_add. destruct (hashable x); [|discriminate].
  destruct (set_mem x s) eqn:Hx; intros H; injection H as <-.
  - split; [tauto|]. intros [H | H]; [assumption|].
    apply set_mem_iff in Hx as [y [Hy Hxy]]. apply set_mem_iff.
    exists y. split; [assumption | now apply py_eq_trans with x].
  - unfold set_mem. rewrite existsb_app. simpl.
    rewrite orb_true_iff, orb_false_r. tauto.
Qed.

Lemma set_adds_mem xs : forall s s' z,
  for_each set_add xs s = Ok s' ->
  (set_mem z s' = true <->
   set_mem z s = true \/ exists x, In x xs /\ py_eq z x = true).
Proof.
  induction xs as [|x xs IH]; intros s s' z H; simpl in H.
  - injection H as <-. split; [tauto | intros [H | [x [[] _]]]; assumption].
  - apply bind_Ok in H as [s1 [H1 H]].
    rewrite (IH _ _ z H), (set_add_mem _ _ _ z H1). split.
    + intros [[Hs | Hx] | [y [Hy Hz]]].
      * now left.
      * right. exists x. split; [now left | assumption].
      * right. exists y. split; [now right | assumption].
    + intros [Hs | [y [[<- | Hy] Hz]]].
      * now left; left.
      * now left; right.
      * right. now exists y.
Qed.

Lemma harvest_tags_mem paths tags :
  harvest_tags paths = Ok tags ->
  forall name, set_mem name tags = true <-> tag_used paths name.
Proof.
  unfold harvest_tags. intros H name.
  enough (Hgen : forall (l : dict) s s',
    for_each
      (fun (paths_tags : pyset) (item : string * value) =>
         methods <- py_items (snd item) ;;
         for_each
           (fun (paths_tags : pyset) (method : string * value) =>
              tags <- py_get (snd method) "tags" (PyList []) ;;
              set_update paths_tags tags)
           methods paths_tags) l s = Ok s' ->
    (set_mem name s' = true <-> set_mem name s = true \/ tag_used l name)).
  { rewrite (Hgen _ _ _ H). simpl.
    split; [intros [Hf | Hu]; [discriminate | assumption] | now right]. }
  clear. induction l as [|[path item] l IH]; intros s s' H; simpl in H.
  - injection H as <-. split; [tauto|].
    intros [H | (p & ms & m & op & t & [] & _)]. assumption.
  - apply bind_Ok in H as [s1 [H1 H]].
    apply bind_Ok in H1 as [methods [Hm H1]].
    destruct item as [| | | | |ms]; try discriminate. injection Hm as <-.
    rewrite (IH _ _ H).
    assert (Hin : set_mem name s1 = true <->
                  set_mem name s = true \/
                  exists method operation tag,
                    In (method, operation) ms /\
                    In tag (operation_tags operation) /\
                    py_eq name tag = true).
    { clear -H1. revert s s1 H1.
      induction ms as [|[m op] ms IHm]; intros s s1 H1; simpl in H1.
      - injection H1 as <-. split; [tauto|].
        intros [H | (m & op & t & [] & _)]. assumption.
      - apply bind_Ok in H1 as [s0 [H0 H1]].
        apply bind_Ok in H0 as [tv [Hg Hu]].
        unfold set_update in Hu. apply bind_Ok in Hu as [xs [Hxs Hadd]].
        rewrite (IHm _ _ H1), (set_adds_mem _ _ _ name Hadd).
        assert (Hop : forall t, In t xs <-> In t (operation_tags op)).
        { intros t. destruct op as [| | | | |e]; try discriminate.
          simpl in Hg. injection Hg as <-. unfold operation_tags.
          destruct (dict_get "tags" e) as [v|].
          - now rewrite Hxs.
          - simpl in Hxs. injection Hxs as <-. tauto. }
        split.
        + intros [[Hs | [x [Hx Hz]]] | (m' & op' & t & Hmo & Ht & Hz)].
          * now left.
          * right. exists m, op, x. split; [now left|].
            split; [now apply Hop | assumption].
          * right. exists m', op', t. split; [now right|]. now split.
        + intros [Hs | (m' & op' & t & [Heq | Hmo] & Ht & Hz)].
          * left. now left.
          * injection Heq as <- <-. left. right. exists t.
            split; [now apply Hop | assumption].
          * right. exists m', op', t. split; [assumption|]. now split. }
    rewrite Hin. split.
    + intros [[Hs | (m & op & t & Hmo & Ht & Hz)] | (p & ms' & m & op & t & Hp & Hmo & Ht & Hz)].
      * now left.
      * right. exists path, ms, m, op, t. split; [now left|].
        split; [assumption|]. now split.
      * right. exists p, ms', m, op, t. split; [now right|].
        split; [assumption|]. now split.
    + intros [Hs | (p & ms' & m & op & t & [Heq | Hp] & Hmo & Ht & Hz)].
      * left. now left.
      * injection Heq as <- <-. left. right. now exists m, op, t.
      * right. now exists p, ms', m, op, t.
Qed.

Lemma comprehension_filter {A} (cond : A -> result bool) xs : forall ys,
  comprehension cond xs = Ok ys ->
  ys = filter (fun x => match cond x with Ok true => true | _ => false end) xs
  /\ forall x, In x xs -> exists b, cond x = Ok b.
Proof.
  induction xs as [|x xs IH]; simpl; intros ys H.
  - injection H as <-. split; [reflexivity | intros x []].
  - apply bind_Ok in H as [keep [Hk H]].
    apply bind_Ok in H as [rest [Hr H]]. injection H as <-.
    destruct (IH _ Hr) as [-> Hall]. rewrite Hk. split.
    + now destruct keep.
    + intros y [<- | Hy]; eauto.
Qed.

(** X2: when [trim_yaml] returns, the set harvested from the retained path
    items holds exactly the values equal to a tag of one of their operations;
    a document without a [tags] section still has none, and otherwise the
    [tags] of the result are, in their order, exactly the tag definitions
    whose [name] is in that set.  Every tag definition then had a hashable
    [name]. *)
Theorem tags_filtered_by_use set_iter raw ex sc data out :
  trim_yaml set_iter raw ex sc data = Ok out ->
  exists d items d' paths_tags,
    data = PyDict d /\ paths_of d = PyDict items /\ out = PyDict d' /\
    harvest_tags (filter (retained (split_list raw)) items) = Ok paths_tags /\
    (forall name,
        set_mem name paths_tags = true <->
        tag_used (filter (retained (split_list raw)) items) name) /\
    match dict_get "tags" d with
    | None => dict_get "tags" d' = None
    | Some tags =>
        exists ts,
          py_iter tags = Ok ts /\
          dict_get "tags" d' = Some (PyList (filter (tag_kept paths_tags) ts)) /\
          forall tag,
            In tag ts ->
            exists name,
              py_getitem tag "name" = Ok name /\ hashable name = true
    end.
Proof.
  intros H.
  apply trim_yaml_inv in H
    as (d & items & tags & d2 & d3 & -> & Hp & Hh & H2 & H3 & H).
  assert (Hend : exists d', out = PyDict d' /\
                   dict_get "tags" d' = dict_get "tags" d2).
  { destruct (sc && dict_has "components" d3).
    - apply strip_frame in H as (d0 & d' & Heq & -> & Hf).
      injection Heq as <-. exists d'. split; [reflexivity|].
      rewrite Hf by discriminate.
      apply (exclude_stage_frame _ _ _ H3). discriminate.
    - injection H as <-. exists d3. split; [reflexivity|].
      apply (exclude_stage_frame _ _ _ H3). discriminate. }
  destruct Hend as (d' & -> & Ht).
  exists d, items, d', tags.
  split; [reflexivity|]. split; [assumption|]. split; [reflexivity|].
  split; [assumption|]. split; [now apply harvest_tags_mem|].
  unfold filter_tags in H2.
  rewrite dict_get_set_other in H2 by discriminate.
  destruct (dict_get "tags" d) as [tv|] eqn:Hd.
  - apply bind_Ok in H2 as [ts [Hts H2]].
    apply bind_Ok in H2 as [kept [Hk H2]]. injection H2 as <-.
    rewrite dict_get_set_same in Ht.
    apply comprehension_filter in Hk as [-> Hall].
    exists ts. split; [assumption|].
    assert (Hname : forall tag, In tag ts ->
              exists name,
                py_getitem tag "name" = Ok name /\ hashable name = true).
    { intros tag Hin. destruct (Hall tag Hin) as [b Hb].
      apply bind_Ok in Hb as [name [Hn Hb]]. exists name.
      split; [assumption|]. unfold py_in_set in Hb.
      now destruct (hashable name). }
    split; [|assumption].
    rewrite Ht. do 2 f_equal. apply filter_ext_in. intros tag Hin.
    destruct (Hname tag Hin) as (name & Hn & Hhash).
    unfold tag_kept. rewrite Hn. cbn [bind]. unfold py_in_set.
    rewrite Hhash. now destruct (set_mem name tags).
  - injection H2 as <-. rewrite Ht.
    now rewrite dict_get_set_other, Hd by discriminate.
Qed.

Lemma tags_filtered_by_use_witness :
  trim_yaml insertion_order "/v1" None false (PyDict doc_users_orders)
  = Ok (PyDict doc_users_only) /\
  exists d items d' paths_tags,
    PyDict doc_users_orders = PyDict d /\ paths_of d = PyDict items /\
    PyDict doc_users_only = PyDict d' /\
    harvest_tags (filter (retained (split_list "/v1")) items) = Ok paths_tags /\
    (forall name,
        set_mem name paths_tags = true <->
        tag_used (filter (retained (split_list "/v1")) items) name) /\
    match dict_get "tags" d with
    | None => dict_get "tags" d' = None
    | Some tags =>
        exists ts,
          py_iter tags = Ok ts /\
          dict_get "tags" d' = Some (PyList (filter (tag_kept paths_tags) ts)) /\
          forall tag,
            In tag ts ->
            exists name,
              py_getitem tag "name" = Ok name /\ hashable name = true
    end.
Proof.
  split; [reflexivity|].
  apply (tags_filtered_by_use insertion_order "/v1" None false
           (PyDict doc_users_orders) (PyDict doc_users_only)).
  reflexivity.
Defined.

(** ** What [trim_yaml] leaves alone *)

Lemma dict_set_keys_cases k v (d : dict) :
  keys (dict_set k v d) = if dict_has k d then keys d else keys d ++ [k].
Proof.
  destruct (dict_has k d) eqn:Hh.
  - now apply dict_set_keys.
  - rewrite dict_set_absent by assumption. unfold keys.
    now rewrite map_app.
Qed.

Lemma dict_del_keys k (d : dict) :
  keys (dict_del k d) = filter (fun k' => negb (String.eqb k' k)) (keys d).
Proof.
  unfold keys, dict_del. induction d as [|[k' v] d IH]; simpl; [reflexivity|].
  destruct (String.eqb k' k); simpl; now rewrite IH.
Qed.

Lemma filter_tags_keys tags d d' :
  filter_tags tags d = Ok d' -> keys d' = keys d.
Proof.
  unfold filter_tags. destruct (dict_get "tags" d) as [v|] eqn:Hv.
  - intros H. apply bind_Ok in H as [xs [_ H]].
    apply bind_Ok in H as [ys [_ H]]. injection H as <-.
    apply dict_set_keys. unfold dict_has. now rewrite Hv.
  - intros H. now injection H as <-.
Qed.

Lemma exclude_component_keys d c d' :
  exclude_component d c = Ok d' -> keys d' = keys d.
Proof.
  unfold exclude_component. intros H.
  apply bind_Ok in H as [comps [Hc H]].
  apply bind_Ok in H as [schemas [_ H]].
  apply bind_Ok in H as [[|] [_ H]]; [|now injection H as <-].
  apply bind_Ok in H as [schemas' [_ H]].
  apply bind_Ok in H as [cats [_ H]]. injection H as <-.
  apply dict_set_keys. unfold dict_has. simpl in Hc.
  destruct (dict_get "components" d); [reflexivity | discriminate].
Qed.

Lemma exclude_stage_keys ex d d' :
  exclude_components_stage ex d = Ok d' -> keys d' = keys d.
Proof.
  unfold exclude_components_stage.
  destruct ex as [raw|]; [|intros H; now injection H as <-].
  destruct (StrOps.nonempty raw); [|intros H; now injection H as <-].
  destruct (dict_has "components" d); [|intros H; now injection H as <-].
  generalize (split_list raw) as cs. intros cs. revert d.
  induction cs as [|c cs IH]; intros d; simpl.
  - intros H; now injection H as <-.
  - intros H. apply bind_Ok in H as [d1 [H1 H]].
    rewrite (IH _ H). now apply (exclude_component_keys d c).
Qed.

Lemma strip_keys set_iter d out :
  strip_unreferenced_components set_iter (PyDict d) = Ok out ->
  exists d',
    out = PyDict d' /\
    (keys d' = keys d \/ keys d' = filter not_components (keys d)).
Proof.
  unfold strip_unreferenced_components. intros H.
  apply bind_Ok in H as [paths [_ H]].
  apply bind_Ok in H as [components [Hc H]].
  apply bind_Ok in H as [refs [_ H]].
  apply bind_Ok in H as [cats [Hi H]].
  apply bind_Ok in H as [kept [Hs H]].
  cbn [py_items bind] in H. injection H as <-.
  eexists. split; [reflexivity|]. destruct kept as [|item kept].
  - right. apply dict_del_keys.
  - destruct (dict_has "components" d) eqn:Hh.
    + left. now apply dict_set_keys.
    + (* no catalog in the document: nothing can have been kept *)
      exfalso. simpl in Hc. unfold dict_has in Hh.
      destruct (dict_get "components" d); [discriminate|].
      injection Hc as <-. simpl in Hi. injection Hi as <-.
      simpl in Hs. discriminate.
Qed.

Lemma trim_yaml_keys set_iter raw ex sc data out :
  trim_yaml set_iter raw ex sc data = Ok out ->
  exists d d',
    data = PyDict d /\ out = PyDict d' /\
    (forall k, k <> "paths" -> k <> "tags" -> k <> "components" ->
               dict_get k d' = dict_get k d) /\
    (keys d' = keys_with_paths d \/
     keys d' = filter not_components (keys_with_paths d)) /\
    (sc = false -> keys d' = keys_with_paths d) /\
    (sc = false -> ex = None ->
     dict_get "components" d' = dict_get "components" d).
Proof.
  intros H.
  assert (Hframe := trim_yaml_frame _ _ _ _ _ _ H).
  destruct Hframe as (d & items & d' & -> & _ & -> & _ & Hf).
  apply trim_yaml_inv in H
    as (d0 & items' & tags & d2 & d3 & Heq & _ & _ & H2 & H3 & H).
  injection Heq as <-.
  exists d, d'. split; [reflexivity|]. split; [reflexivity|].
  split; [assumption|].
  assert (Hk3 : keys d3 = keys_with_paths d).
  { rewrite (exclude_stage_keys _ _ _ H3), (filter_tags_keys _ _ _ H2).
    apply dict_set_keys_cases. }
  split; [|split].
  - destruct (sc && dict_has "components" d3).
    + apply strip_keys in H as (d'' & Heq & Hk). injection Heq as <-.
      now rewrite <- Hk3.
    + injection H as <-. now left.
  - intros ->. simpl in H. now injection H as <-.
  - intros -> ->. simpl in H, H3. injection H3 as <-. injection H as <-.
    rewrite (filter_tags_frame _ _ _ H2) by discriminate.
    now rewrite dict_get_set_other by discriminate.
Qed.

Lemma keys_with_paths_In d k :
  In k (keys_with_paths d) -> In k (keys d) \/ k = "paths".
Proof.
  unfold keys_with_paths. destruct (dict_has "paths" d); [tauto|].
  rewrite in_app_iff. simpl. intros [H | [H | []]]; auto.
Qed.

Lemma keys_with_paths_NoDup d :
  NoDup (keys d) -> NoDup (keys_with_paths d).
Proof.
  unfold keys_with_paths, dict_has. intros Hnd.
  destruct (dict_get "paths" d) eqn:Hp; [assumption|].
  apply dict_get_None_keys in Hp.
  apply NoDup_app; [assumption | repeat constructor; intros [] |].
  intros x Hx [<- | []]. contradiction.
Qed.

(** X3: when [trim_yaml] returns, the [paths] section of the result holds the
    retained path items unchanged and in their order; every section other
    than [paths], [tags] and [components] is as it was; the top-level keys
    keep their order, [paths] being added last when the document had none and
    [components] possibly being removed; without stripping no key is removed,
    and with neither stripping nor exclusion the catalog is as it was. *)
Theorem trim_keeps_other_sections set_iter raw ex sc data out :
  trim_yaml set_iter raw ex sc data = Ok out ->
  exists d items d',
    data = PyDict d /\ paths_of d = PyDict items /\ out = PyDict d' /\
    dict_get "paths" d'
    = Some (PyDict (filter (retained (split_list raw)) items)) /\
    (forall k, k <> "paths" -> k <> "tags" -> k <> "components" ->
               dict_get k d' = dict_get k d) /\
    (keys d' = keys_with_paths d \/
     keys d' = filter not_components (keys_with_paths d)) /\
    (sc = false -> keys d' = keys_with_paths d) /\
    (sc = false -> ex = None ->
     dict_get "components" d' = dict_get "components" d).
Proof.
  intros H.
  destruct (trim_yaml_frame _ _ _ _ _ _ H)
    as (d & items & d' & -> & Hp & -> & Hg & _).
  destruct (trim_yaml_keys _ _ _ _ _ _ H)
    as (d0 & d1 & Heq0 & Heq1 & Hf & Hk & Hk' & Hc).
  injection Heq0 as <-. injection Heq1 as <-.
  exists d, items, d'. repeat (split; [assumption || reflexivity|]).
  assumption.
Qed.

Lemma trim_keeps_other_sections_witness :
  exists d items d',
    PyDict doc_no_paths = PyDict d /\ paths_of d = PyDict items /\
    PyDict (doc_no_paths ++ [("paths", PyDict [])]) = PyDict d' /\
    dict_get "paths" d'
    = Some (PyDict (filter (retained (split_list "/v1")) items)) /\
    (forall k, k <> "paths" -> k <> "tags" -> k <> "components" ->
               dict_get k d' = dict_get k d) /\
    (keys d' = keys_with_paths d \/
     keys d' = filter not_components (keys_with_paths d)) /\
    (false = false -> keys d' = keys_with_paths d) /\
    (false = false -> @None string = None ->
     dict_get "components" d' = dict_get "components" d).
Proof.
  apply (trim_keeps_other_sections insertion_order "/v1" None false
           (PyDict doc_no_paths)
           (PyDict (doc_no_paths ++ [("paths", PyDict [])]))).
  reflexivity.
Defined.

(** ** The whole run *)

(** X4: on a document of the data model whose top-level keys are distinct and
    all among [openapi], [info], [tags], [paths] and [components] (the catalog
    having its [schemas] category when names are to be excluded),
    [trim_openapi] returns: the items handed to the dumper are those of the
    trimmed document, each once, in that fixed order. *)
Theorem trim_openapi_returns_ordered (set_iter : names -> names) raw ex sc d :
  (forall ns, Permutation (set_iter ns) ns) ->
  document_ok d = true ->
  (forall k, In k (keys d) -> In k top_level_order) ->
  unique_keys (keys d) = true ->
  (ex = None \/ dict_has "components" d = false \/
   exists cats schemas,
     dict_get "components" d = Some (PyDict cats) /\
     dict_get "schemas" cats = Some schemas) ->
  exists d' out,
    trim_yaml set_iter raw ex sc (PyDict d) = Ok (PyDict d') /\
    trim_openapi set_iter (PyDict d) raw ex sc = Ok out /\
    Permutation out d' /\
    StronglySorted (fun a b => key_rank (fst a) < key_rank (fst b)) out.
Proof.
  intros set_iter_perm Hok Hall Hu Hex.
  destruct (trim_yaml_total set_iter set_iter_perm raw ex sc d Hok Hex)
    as [d' Ht].
  destruct (trim_yaml_keys _ _ _ _ _ _ Ht)
    as (d0 & d1 & Heq0 & Heq1 & _ & Hk & _).
  injection Heq0 as <-. injection Heq1 as <-.
  assert (Hall' : forall k, In k (keys d') -> In k top_level_order).
  { intros k Hin.
    assert (Hb : In k (keys_with_paths d)).
    { destruct Hk as [Hk | Hk]; rewrite Hk in Hin; [assumption|].
      now apply filter_In in Hin. }
    apply keys_with_paths_In in Hb as [Hb | ->]; [now apply Hall|].
    simpl. tauto. }
  assert (Hu' : unique_keys (keys d') = true).
  { apply unique_keys_NoDup. apply unique_keys_NoDup in Hu.
    apply keys_with_paths_NoDup in Hu.
    destruct Hk as [-> | ->]; [assumption | now apply NoDup_filter]. }
  destruct (ordered_items d' Hall' Hu') as (out & Hw & Hperm & Hsorted & _).
  exists d', out. split; [assumption|]. split; [|split; assumption].
  unfold trim_openapi. rewrite Ht. exact Hw.
Qed.

Lemma trim_openapi_returns_ordered_witness :
  exists d' out,
    trim_yaml insertion_order "/v1" None false (PyDict doc_users_orders)
    = Ok (PyDict d') /\
    trim_openapi insertion_order (PyDict doc_users_orders) "/v1" None false
    = Ok out /\
    Permutation out d' /\
    StronglySorted (fun a b => key_rank (fst a) < key_rank (fst b)) out.
Proof.
  apply (trim_openapi_returns_ordered insertion_order "/v1" None false
           doc_users_orders).
  - intros ns. apply Permutation_refl.
  - reflexivity.
  - intros k Hk. simpl in Hk |- *. tauto.
  - reflexivity.
  - now left.
Defined.

(** ** The sweep at its edges *)

Lemma sweep_nothing refs cats :
  dicts_only (PyDict cats) = true ->
  (forall c n, refs_mem c n refs = false) ->
  sweep refs cats = Ok [].
Proof.
  simpl. intros Hd Hnone.
  induction cats as [|[c v] cats IH]; simpl; [reflexivity|].
  simpl in Hd. apply andb_true_iff in Hd as [Hv Hd].
  destruct v as [| | | | |items]; try discriminate.
  cbn [py_items bind]. rewrite (IH Hd). cbn [bind].
  replace (filter (fun kv => name_mem (fst kv) (refs_get c refs)) items)
    with (@nil (string * value)); [reflexivity|].
  symmetry. induction items as [|[n def] items IHi]; cbn [filter fst];
    [reflexivity|].
  specialize (Hnone c n). unfold refs_mem in Hnone. rewrite Hnone.
  now apply IHi.
Qed.

(** X5: when nothing in the [paths] section refers to a component, the sweep
    removes the whole catalog, the [components] key included, and leaves the
    document otherwise as it was. *)
Theorem no_reference_drops_catalog (set_iter : names -> names) d :
  (forall ns, Permutation (set_iter ns) ns) ->
  catalog_shaped (components_of d) = true ->
  (forall c n, ~ refers_to (paths_of d) c n) ->
  strip_unreferenced_components set_iter (PyDict d)
  = Ok (PyDict (dict_del "components" d)).
Proof.
  intros set_iter_perm Hshape Hnone.
  destruct (strip_unfold set_iter set_iter_perm d Hshape)
    as (cats & refs & kept & Hc & Hr & Hs & _ & _ & H).
  assert (Hfalse : forall c n, refs_mem c n refs = false).
  { intros c n. destruct (refs_mem c n refs) eqn:Hm; [|reflexivity].
    exfalso. apply Hr in Hm.
    induction Hm as [c n Hp | c0 n0 def c n _ IH _ _]; [|exact IH].
    now apply (Hnone c n). }
  rewrite sweep_nothing in Hs; trivial.
  - injection Hs as <-. exact H.
  - rewrite <- Hc. now apply catalog_shaped_dicts_only.
Qed.

Lemma no_reference_drops_catalog_witness :
  strip_unreferenced_components insertion_order (PyDict doc_no_schemas)
  = Ok (PyDict (dict_del "components" doc_no_schemas)).
Proof.
  apply (no_reference_drops_catalog insertion_order doc_no_schemas).
  - intros ns. apply Permutation_refl.
  - reflexivity.
  - intros c n (entries & ref & Hocc & Hget & _).
    change (paths_of doc_no_schemas) with (PyDict []) in Hocc.
    inversion Hocc; subst.
    + discriminate Hget.
    + match goal with H : In _ [] |- _ => destruct H end.
Defined.

(** X6: the sweep leaves no empty category and no empty catalog: either the
    result has a [components] section, which is then a non-empty mapping of
    non-empty mappings, or it has none, and then no definition of the
    original catalog was reachable. *)
Theorem no_empty_category_left (set_iter : names -> names) d d' :
  (forall ns, Permutation (set_iter ns) ns) ->
  catalog_shaped (components_of d) = true ->
  strip_unreferenced_components set_iter (PyDict d) = Ok (PyDict d') ->
  match dict_get "components" d' with
  | None =>
      forall c n def,
        catalog_def (components_of d) c n = Some def ->
        ~ reachable (paths_of d) (components_of d) c n
  | Some v =>
      exists cats,
        v = PyDict cats /\ cats <> [] /\
        forall c v', In (c, v') cats ->
                     exists items, v' = PyDict items /\ items <> []
  end.
Proof.
  intros set_iter_perm Hshape Hstrip.
  destruct (strip_unfold set_iter set_iter_perm d Hshape)
    as (cats & refs & kept & Hc & Hr & Hs & _ & Hdef & H).
  rewrite H in Hstrip. injection Hstrip as <-.
  destruct kept as [|item kept].
  - rewrite dict_get_del_same. intros c n def Hd Hreach.
    apply Hr in Hreach. specialize (Hdef c n). rewrite Hreach in Hdef.
    rewrite Hc in Hd. rewrite Hd in Hdef. discriminate.
  - rewrite dict_get_set_same. exists (item :: kept).
    split; [reflexivity|]. split; [discriminate|].
    intros c v' Hin.
    destruct (sweep_In _ _ _ Hs c v' Hin) as (items & -> & Hne & _).
    now exists items.
Qed.

Lemma no_empty_category_left_witness :
  match dict_get "components" doc_unused_schema_trimmed with
  | None =>
      forall c n def,
        catalog_def (components_of doc_unused_schema) c n = Some def ->
        ~ reachable (paths_of doc_unused_schema)
            (components_of doc_unused_schema) c n
  | Some v =>
      exists cats,
        v = PyDict cats /\ cats <> [] /\
        forall c v', In (c, v') cats ->
                     exists items, v' = PyDict items /\ items <> []
  end.
Proof.
  apply (no_empty_category_left insertion_order doc_unused_schema
           doc_unused_schema_trimmed).
  - intros ns. apply Permutation_refl.
  - reflexivity.
  - reflexivity.
Defined.

(** ** The outcomes of the sweep *)

(** X7: whatever the order in which the sets are visited, the sweep has two
    outcomes only: it returns a document exactly when the catalog is a mapping
    whose categories are all mappings, and it raises [AttributeError] exactly
    when the catalog is anything else. *)
Theorem sweep_returns_or_attribute_error (set_iter : names -> names)
    (d : dict) :
  ((exists d',
       strip_unreferenced_components set_iter (PyDict d) = Ok (PyDict d')) <->
   dicts_only (components_of d) = true) /\
  (strip_unreferenced_components set_iter (PyDict d) = Raise AttributeError <->
   dicts_only (components_of d) = false).
Proof.
  destruct (strip_outcome set_iter d) as [[Hd [d' H]] | [Hd H]];
    rewrite Hd, H; split; split; eauto; try discriminate.
  intros [d'' H']. discriminate.
Qed.

Lemma sweep_returns_or_attribute_error_witness :
  (exists d',
      strip_unreferenced_components insertion_order (PyDict doc_cycle)
      = Ok (PyDict d')) /\
  strip_unreferenced_components insertion_order
    (PyDict [("components", PyDict [("schemas", PyList [])])])
  = Raise AttributeError.
Proof.
  split.
  - apply (proj1 (sweep_returns_or_attribute_error insertion_order doc_cycle)).
    reflexivity.
  - apply (proj2 (sweep_returns_or_attribute_error insertion_order
                    [("components", PyDict [("schemas", PyList [])])])).
    reflexivity.
Defined.

(** X8: the sweep is idempotent: applied to its own result, on a catalog of
    the data model, it returns that result unchanged. *)
Theorem sweep_idempotent (set_iter : names -> names) (d d' : dict) :
  (forall ns, Permutation (set_iter ns) ns) ->
  catalog_shaped (components_of d) = true ->
  strip_unreferenced_components set_iter (PyDict d) = Ok (PyDict d') ->
  strip_unreferenced_components set_iter (PyDict d') = Ok (PyDict d').
Proof. intros Hperm. now apply strip_idem. Qed.

Lemma sweep_idempotent_witness :
  strip_unreferenced_components insertion_order (PyDict doc_cycle_trimmed)
  = Ok (PyDict doc_cycle_trimmed).
Proof.
  apply (sweep_idempotent insertion_order doc_cycle doc_cycle_trimmed).
  - intros ns. apply Permutation_refl.
  - reflexivity.
  - reflexivity.
Defined.

(** X9: the order in which Python visits the elements of a set does not show
    in the result: with any two visiting orders the sweep, [trim_yaml] and
    [trim_openapi] have the same outcome, exceptions included. *)
Theorem visiting_order_irrelevant (iter1 iter2 : names -> names) :
  (forall ns, Permutation (iter1 ns) ns) ->
  (forall ns, Permutation (iter2 ns) ns) ->
  (forall data,
      strip_unreferenced_components iter1 data
      = strip_unreferenced_components iter2 data) /\
  (forall prefixes ex sc data,
      trim_yaml iter1 prefixes ex sc data
      = trim_yaml iter2 prefixes ex sc data) /\
  (forall data prefixes ex sc,
      trim_openapi iter1 data prefixes ex sc
      = trim_openapi iter2 data prefixes ex sc).
Proof.
  intros H1 H2. split; [|split].
  - intros data. now apply strip_order_irrelevant.
  - intros prefixes ex sc data. now apply trim_yaml_order_irrelevant.
  - intros data prefixes ex sc. unfold trim_openapi.
    now rewrite (trim_yaml_order_irrelevant iter1 iter2 H1 H2).
Qed.

Lemma visiting_order_irrelevant_witness :
  trim_yaml insertion_order "/v1" None true (PyDict doc_cycle)
  = trim_yaml (@rev string) "/v1" None true (PyDict doc_cycle).
Proof.
  apply (proj1 (proj2 (visiting_order_irrelevant insertion_order (@rev string)
                         (fun ns => Permutation_refl ns)
                         (fun ns => Permutation_sym (Permutation_rev ns))))).
Defined.

(** ** The comma-separated lists *)

Lemma has_char_app a x y :
  has_char a (x ++ y)%string = has_char a x || has_char a y.
Proof.
  induction x as [|b x IH]; simpl; [reflexivity|].
  now rewrite IH, orb_assoc.
Qed.

Lemma split_no_sep sep s seg :
  In seg (StrOps.split sep s) -> has_char sep seg = false.
Proof.
  revert seg. induction s as [|a s IH]; simpl; intros seg.
  - intros [<- | []]. reflexivity.
  - destruct (Ascii.eqb a sep) eqn:Ha.
    + intros [<- | Hin]; [reflexivity | now apply IH].
    + destruct (StrOps.split sep s) as [|seg0 segs] eqn:Hs.
      * intros [<- | []]. simpl. now rewrite Ha.
      * intros [<- | Hin].
        -- simpl. rewrite Ha. apply IH. now left.
        -- apply IH. now right.
Qed.

Lemma strip_no_char a s :
  has_char a s = false -> has_char a (StrOps.strip s) = false.
Proof.
  intros H. destruct (str_strip_spec s) as (l & r & Heq & _).
  rewrite Heq in H. rewrite !has_char_app in H.
  apply orb_false_iff in H as [_ H]. now apply orb_false_iff in H as [H _].
Qed.

Lemma lstrip_clean s : starts_with_space s = false -> StrOps.lstrip s = s.
Proof. destruct s as [|a s]; simpl; [reflexivity|]. now intros ->. Qed.

Lemma rstrip_clean s : ends_with_space s = false -> StrOps.rstrip s = s.
Proof.
  induction s as [|a s IH]; simpl; [reflexivity|].
  destruct s as [|b s].
  - simpl. now intros ->.
  - intros H. rewrite (IH H). reflexivity.
Qed.

Lemma strip_clean s :
  starts_with_space s = false -> ends_with_space s = false ->
  StrOps.strip s = s.
Proof.
  intros H1 H2. unfold StrOps.strip. rewrite (lstrip_clean s H1).
  now apply rstrip_clean.
Qed.

Lemma split_concat sep q qs :
  Forall (fun x => has_char sep x = false) (q :: qs) ->
  StrOps.split sep (String.concat (String sep "") (q :: qs)) = q :: qs.
Proof.
  revert q. induction qs as [|q' qs IH]; intros q H.
  - simpl. apply split_plain. now inversion H.
  - inversion H as [|? ? Hq Hrest]; subst.
    change (String.concat (String sep "") (q :: q' :: qs))
      with (q ++ String sep (String.concat (String sep "") (q' :: qs)))%string.
    rewrite split_app by assumption. now rewrite IH.
Qed.

(** X10: every element of a parsed comma-separated list is non-empty, holds
    no comma, and neither starts nor ends with whitespace. *)
Theorem parsed_list_elements_clean raw q :
  In q (split_list raw) ->
  q <> "" /\ has_char "," q = false /\
  starts_with_space q = false /\ ends_with_space q = false.
Proof.
  intros H. apply split_list_In in H as (Hne & seg & Hin & ->).
  split; [assumption|]. split.
  - apply strip_no_char. now apply split_no_sep with raw.
  - destruct (str_strip_spec seg) as (l & r & _ & _ & _ & H1 & H2).
    now split.
Qed.

Lemma parsed_list_elements_clean_witness :
  In "/v1" (split_list " /v1 ,, /v2") /\
  "/v1" <> "" /\ has_char "," "/v1" = false /\
  starts_with_space "/v1" = false /\ ends_with_space "/v1" = false.
Proof.
  assert (H : In "/v1" (split_list " /v1 ,, /v2")) by (now left).
  split; [exact H|].
  exact (parsed_list_elements_clean " /v1 ,, /v2" "/v1" H).
Defined.

(** X11: parsing is a left inverse of joining with commas: a list of
    non-empty strings without commas and without whitespace at either end is
    read back, element by element, from its comma-separated form. *)
Theorem parsed_list_round_trip qs :
  Forall (fun q => q <> "" /\ has_char "," q = false /\
                   starts_with_space q = false /\
                   ends_with_space q = false) qs ->
  split_list (String.concat "," qs) = qs.
Proof.
  intros H. destruct qs as [|q qs]; [reflexivity|].
  unfold split_list. rewrite split_concat.
  - assert (Hf : filter (fun x => StrOps.nonempty (StrOps.strip x)) (q :: qs)
                 = q :: qs).
    { apply forallb_filter_id. apply forallb_forall. intros x Hx.
      rewrite Forall_forall in H. destruct (H x Hx) as (Hne & _ & H1 & H2).
      rewrite strip_clean by assumption. now apply nonempty_iff. }
    rewrite Hf. rewrite <- (map_id (q :: qs)) at 2.
    apply map_ext_in. intros x Hx. rewrite Forall_forall in H.
    destruct (H x Hx) as (_ & _ & H1 & H2). now apply strip_clean.
  - rewrite Forall_forall in *. intros x Hx. now apply H.
Qed.

Lemma parsed_list_round_trip_witness :
  Forall (fun q => q <> "" /\ has_char "," q = false /\
                   starts_with_space q = false /\
                   ends_with_space q = false) ["/v1/users"; "/v2 orders"] /\
  split_list (String.concat "," ["/v1/users"; "/v2 orders"])
  = ["/v1/users"; "/v2 orders"].
Proof.
  assert (H : Forall (fun q => q <> "" /\ has_char "," q = false /\
                               starts_with_space q = false /\
                               ends_with_space q = false)
                     ["/v1/users"; "/v2 orders"]).
  { repeat constructor; discriminate. }
  split; [exact H|].
  exact (parsed_list_round_trip ["/v1/users"; "/v2 orders"] H).
Defined.

(** ** When the path stage returns *)

Lemma for_each_Ok_iff {A S} (body : S -> A -> result S) (P : A -> bool) xs :
  (forall s x, (exists s', body s x = Ok s') <-> P x = true) ->
  forall s, (exists s', for_each body xs s = Ok s') <-> forallb P xs = true.
Proof.
  intros Hb. induction xs as [|x xs IH]; intros s; simpl.
  - split; eauto.
  - rewrite andb_true_iff. split.
    + intros [s' H]. apply bind_Ok in H as [s1 [H1 H]].
      split; [apply (Hb s x); eauto | apply (IH s1); eauto].
    + intros [Hx Hxs]. apply (Hb s x) in Hx as [s1 ->]. cbn [bind].
      now apply IH.
Qed.

Lemma set_update_Ok_iff s tags :
  (exists s', set_update s tags = Ok s') <->
  match py_iter tags with
  | Ok elements => forallb hashable elements
  | _ => false
  end = true.
Proof.
  unfold set_update. destruct (py_iter tags) as [xs| |]; cbn [bind].
  - apply for_each_Ok_iff. intros s0 x. unfold set_add.
    destruct (hashable x); split; eauto; try discriminate.
    intros [s' H]; discriminate.
  - split; [intros [s' H] |]; discriminate.
  - split; [intros [s' H] |]; discriminate.
Qed.

Lemma harvest_tags_Ok_iff paths :
  (exists tags, harvest_tags paths = Ok tags) <->
  forallb (fun kv => path_item_harvestable (snd kv)) paths = true.
Proof.
  unfold harvest_tags.
  apply (for_each_Ok_iff _ (fun kv => path_item_harvestable (snd kv))).
  intros s [path item]. cbn [snd].
  destruct item as [| | | | |methods]; simpl;
    try (split; [intros [s' H] |]; discriminate).
  apply (for_each_Ok_iff _ (fun kv => operation_harvestable (snd kv))).
  intros s0 [method op]. cbn [snd].
  destruct op as [| | | | |entries]; simpl;
    try (split; [intros [s' H] |]; discriminate).
  destruct (dict_get "tags" entries) as [tags|].
  - apply set_update_Ok_iff.
  - split; [reflexivity|]. intros _. unfold set_update. simpl. eauto.
Qed.

(** X12: the path stage of [trim_yaml] (lines 89-97) returns exactly when the
    document is a mapping, its [paths] section (if any) is a mapping, every
    retained path item is a mapping of mappings, and the [tags] of each of
    their operations, if any, can be visited and holds hashable values
    only. *)
Theorem path_stage_success_condition prefixes data :
  (exists st, path_filter prefixes data = Ok st) <->
  exists d items,
    data = PyDict d /\ paths_of d = PyDict items /\
    forallb (fun kv => path_item_harvestable (snd kv))
            (filter (retained prefixes) items) = true.
Proof.
  split.
  - intros [[d1 tags] H].
    apply path_filter_inv in H as (d & items & -> & Hp & Hh & _).
    exists d, items. split; [reflexivity|]. split; [assumption|].
    apply harvest_tags_Ok_iff. eauto.
  - intros (d & items & -> & Hp & Hh).
    apply harvest_tags_Ok_iff in Hh as [tags Hh].
    unfold path_filter.
    change (py_get (PyDict d) "paths" (PyDict [])) with (Ok (paths_of d)).
    rewrite Hp. cbn [bind py_items]. rewrite Hh. cbn [bind]. eauto.
Qed.

Lemma path_stage_success_condition_witness :
  exists st, path_filter ["/v1"] (PyDict doc_users_orders) = Ok st.
Proof.
  apply (path_stage_success_condition ["/v1"] (PyDict doc_users_orders)).
  exists doc_users_orders. eexists.
  split; [reflexivity|]. split; reflexivity.
Defined.

(** ** Exclusion *)

(** X13: when the catalog has a [schemas] mapping, the exclusion stage
    returns; it removes from [schemas] exactly the definitions named in the
    parsed list, keeps the others in their order, and touches neither the
    other categories nor the rest of the document. *)
Theorem exclusion_removes_listed_schemas d cats schemas raw :
  dict_get "components" d = Some (PyDict cats) ->
  dict_get "schemas" cats = Some (PyDict schemas) ->
  exists d' cats',
    exclude_components_stage (Some raw) d = Ok d' /\
    (forall k, k <> "components" -> dict_get k d' = dict_get k d) /\
    dict_get "components" d' = Some (PyDict cats') /\
    (forall k, k <> "schemas" -> dict_get k cats' = dict_get k cats) /\
    dict_get "schemas" cats'
    = Some (PyDict (filter (fun kv => negb (name_mem (fst kv) (split_list raw)))
                           schemas)).
Proof. apply exclusion_on_schemas. Qed.

Lemma exclusion_removes_listed_schemas_witness :
  exists d' cats',
    exclude_components_stage (Some "C, A,Missing") doc_cycle = Ok d' /\
    (forall k, k <> "components" -> dict_get k d' = dict_get k doc_cycle) /\
    dict_get "components" d' = Some (PyDict cats') /\
    (forall k,
        k <> "schemas" ->
        dict_get k cats'
        = dict_get k
            [("schemas",
              PyDict
                [("A", PyDict [("$ref", PyStr "#/components/schemas/B")]);
                 ("B", PyDict [("$ref", PyStr "#/components/schemas/A")]);
                 ("C", PyDict [])])]) /\
    dict_get "schemas" cats'
    = Some (PyDict [("B", PyDict [("$ref", PyStr "#/components/schemas/A")])]).
Proof.
  apply (exclusion_removes_listed_schemas doc_cycle
           [("schemas",
             PyDict
               [("A", PyDict [("$ref", PyStr "#/components/schemas/B")]);
                ("B", PyDict [("$ref", PyStr "#/components/schemas/A")]);
                ("C", PyDict [])])]
           [("A", PyDict [("$ref", PyStr "#/components/schemas/B")]);
            ("B", PyDict [("$ref", PyStr "#/components/schemas/A")]);
            ("C", PyDict [])]
           "C, A,Missing").
  - reflexivity.
  - reflexivity.
Defined.

(** X14: exclusion wins over use: a schema named in the exclusion list is
    absent from the catalog of the result, with or without stripping, even
    when a retained path refers to it. *)
Theorem excluded_schema_absent (set_iter : names -> names) raw ex sc d d' c :
  (forall ns, Permutation (set_iter ns) ns) ->
  catalog_shaped (components_of d) = true ->
  trim_yaml set_iter raw (Some ex) sc (PyDict d) = Ok (PyDict d') ->
  In c (split_list ex) ->
  catalog_def (components_of d') "schemas" c = None.
Proof.
  intros Hperm Hshape H Hc.
  apply trim_yaml_inv in H
    as (d0 & items & tags & d2 & d3 & Heq & _ & _ & H2 & H3 & H).
  injection Heq as <-.
  assert (Hc2 : components_of d2 = components_of d).
  { unfold components_of.
    rewrite (filter_tags_frame _ _ _ H2) by discriminate.
    now rewrite dict_get_set_other by discriminate. }
  assert (Hshape2 : catalog_shaped (components_of d2) = true)
    by now rewrite Hc2.
  assert (Hgone := excluded_names_gone ex d2 d3 c Hshape2 H3 Hc).
  destruct (sc && dict_has "components" d3).
  - assert (Hshape3 := exclude_stage_shape _ _ _ H3 Hshape2).
    destruct (strip_components_spec set_iter Hperm d3 Hshape3)
      as (d'' & Hs & _ & _ & Hdefs).
    rewrite Hs in H. injection H as <-.
    destruct (catalog_def (components_of d'') "schemas" c) as [def|] eqn:Hd;
      [|reflexivity].
    apply Hdefs in Hd as [Hd _]. congruence.
  - now injection H as <-.
Qed.

Lemma excluded_schema_absent_witness :
  exists d',
    trim_yaml insertion_order "/v1" (Some "A") false (PyDict doc_cycle)
    = Ok (PyDict d') /\
    refers_to (paths_of d') "schemas" "A" /\
    catalog_def (components_of d') "schemas" "B"
    = Some (PyDict [("$ref", PyStr "#/components/schemas/A")]) /\
    catalog_def (components_of d') "schemas" "A" = None.
Proof.
  eexists. split; [reflexivity|]. split; [|split; [reflexivity|]].
  - exists [("$ref", PyStr "#/components/schemas/A")],
      "#/components/schemas/A".
    split; [|split; [reflexivity|]].
    + do 4 (eapply occurs_value; [now left|]). apply occurs_here.
    + split; [reflexivity|]. split; [reflexivity|].
      exists "". split; [reflexivity | now left].
  - apply (excluded_schema_absent insertion_order "/v1" "A" false doc_cycle _
             "A").
    + intros ns. apply Permutation_refl.
    + reflexivity.
    + reflexivity.
    + now left.
Defined.

(** The catalog after the exclusion stage: the schemas named in the list are
    gone, every other definition is as it was. *)
Lemma exclusion_catalog raw d2 d3 :
  catalog_shaped (components_of d2) = true ->
  exclude_components_stage (Some raw) d2 = Ok d3 ->
  forall c n,
    catalog_def (components_of d3) c n
    = if String.eqb c "schemas" && name_mem n (split_list raw)
      then None
      else catalog_def (components_of d2) c n.
Proof.
  intros Hshape H3 c n.
  destruct (dict_get "components" d2) as [v2|] eqn:Hv2.
  - assert (Hc2 : components_of d2 = v2)
      by (unfold components_of; now rewrite Hv2).
    rewrite Hc2 in *.
    destruct (shaped_is_dict _ Hshape) as [cats2 ->].
    destruct (dict_get "schemas" cats2) as [sv2|] eqn:Hsv2.
    + destruct (shaped_category _ _ _ Hshape Hsv2) as [schemas2 ->].
      destruct (exclusion_on_schemas d2 cats2 schemas2 raw Hv2 Hsv2)
        as (dd & cc & Hst & _ & Hcc & Hother & Hss).
      rewrite Hst in H3. injection H3 as <-.
      unfold components_of. rewrite Hcc. simpl.
      destruct (String.eqb_spec c "schemas") as [->|Hne]; simpl.
      * rewrite Hss, Hsv2.
        rewrite (dict_get_filter
                   (fun k => negb (name_mem k (split_list raw)))).
        now destruct (name_mem n (split_list raw)).
      * now rewrite Hother.
    + destruct (split_list raw) as [|c0 cs] eqn:Hcs.
      * unfold exclude_components_stage in H3. rewrite Hcs in H3.
        assert (Heq : d3 = d2).
        { destruct (StrOps.nonempty raw); [|now injection H3].
          destruct (dict_has "components" d2); now injection H3. }
        subst d3. rewrite Hc2. now rewrite andb_false_r.
      * rewrite (exclude_stage_no_schemas d2 cats2 raw c0 cs) in H3;
          trivial; discriminate.
  - assert (Heq : d3 = d2).
    { unfold exclude_components_stage, dict_has in H3. rewrite Hv2 in H3.
      destruct (StrOps.nonempty raw); now injection H3. }
    subst d3. unfold components_of. rewrite Hv2. simpl.
    now destruct (String.eqb c "schemas" && name_mem n (split_list raw)).
Qed.

(** X15: with an exclusion list and stripping, reachability is counted in the
    catalog as exclusion leaves it: the catalog of the result holds exactly
    the definitions that are not excluded schemas and can be reached from the
    retained paths without passing through an excluded schema. *)
Theorem closure_after_exclusion (set_iter : names -> names) raw ex d d' :
  (forall ns, Permutation (set_iter ns) ns) ->
  catalog_shaped (components_of d) = true ->
  trim_yaml set_iter raw (Some ex) true (PyDict d) = Ok (PyDict d') ->
  exists items after,
    paths_of d = PyDict items /\
    (forall c n,
        catalog_def after c n
        = if String.eqb c "schemas" && name_mem n (split_list ex)
          then None
          else catalog_def (components_of d) c n) /\
    forall c n def,
      catalog_def (components_of d') c n = Some def <->
      catalog_def after c n = Some def /\
      reachable (PyDict (filter (retained (split_list raw)) items)) after c n.
Proof.
  intros Hperm Hshape H.
  apply trim_yaml_inv in H
    as (d0 & items & tags & d2 & d3 & Heq & Hp & _ & H2 & H3 & H).
  injection Heq as <-.
  assert (Hc2 : components_of d2 = components_of d).
  { unfold components_of.
    rewrite (filter_tags_frame _ _ _ H2) by discriminate.
    now rewrite dict_get_set_other by discriminate. }
  assert (Hshape2 : catalog_shaped (components_of d2) = true)
    by now rewrite Hc2.
  assert (Hpaths : paths_of d3
                   = PyDict (filter (retained (split_list raw)) items)).
  { unfold paths_of.
    rewrite (exclude_stage_frame _ _ _ H3) by discriminate.
    rewrite (filter_tags_frame _ _ _ H2) by discriminate.
    now rewrite dict_get_set_same. }
  assert (Hcat := exclusion_catalog ex d2 d3 Hshape2 H3).
  rewrite Hc2 in Hcat.
  exists items, (components_of d3).
  split; [assumption|]. split; [assumption|].
  simpl in H. destruct (dict_has "components" d3) eqn:Hhas.
  - assert (Hshape3 := exclude_stage_shape _ _ _ H3 Hshape2).
    destruct (strip_components_spec set_iter Hperm d3 Hshape3)
      as (d'' & Hs & _ & _ & Hdefs).
    rewrite Hs in H. injection H as <-. rewrite <- Hpaths. exact Hdefs.
  - injection H as <-. intros c n def.
    assert (He : components_of d3 = PyDict []).
    { unfold components_of, dict_has in *.
      destruct (dict_get "components" d3); [discriminate | reflexivity]. }
    rewrite He. simpl. split; [discriminate | intros [Hd _]; discriminate].
Qed.

Lemma closure_after_exclusion_witness :
  exists items after,
    paths_of doc_cycle = PyDict items /\
    (forall c n,
        catalog_def after c n
        = if String.eqb c "schemas" && name_mem n (split_list "A")
          then None
          else catalog_def (components_of doc_cycle) c n) /\
    forall c n def,
      catalog_def
        (components_of (dict_del "components" doc_cycle)) c n = Some def <->
      catalog_def after c n = Some def /\
      reachable (PyDict (filter (retained (split_list "/v1")) items)) after c n.
Proof.
  apply (closure_after_exclusion insertion_order "/v1" "A" doc_cycle
           (dict_del "components" doc_cycle)).
  - intros ns. apply Permutation_refl.
  - reflexivity.
  - reflexivity.
Defined.

(** ** The output path *)

Import PosixPath.

Lemma take_drop n s : (take n s ++ drop n s)%string = s.
Proof.
  revert s. induction n as [|n IH]; intros s; [now destruct s|].
  destruct s as [|a s]; simpl; [reflexivity|]. now rewrite IH.
Qed.

Lemma get_drop k : forall s a,
  String.get k s = Some a -> drop k s = String a (drop (S k) s).
Proof.
  induction k as [|k IH]; intros [|b s] a; simpl; try discriminate.
  - intros H. now injection H as ->.
  - intros H. rewrite (IH s a H). reflexivity.
Qed.

Lemma get_take_length k : forall s a,
  String.get k s = Some a -> String.length (take k s) = k.
Proof.
  induction k as [|k IH]; intros [|b s] a; simpl; try discriminate.
  - reflexivity.
  - intros H. now rewrite (IH s a H).
Qed.

Lemma has_char_drop c n : forall s,
  has_char c s = false -> has_char c (drop n s) = false.
Proof.
  induction n as [|n IH]; intros [|a s]; simpl; trivial.
  intros H. apply orb_false_iff in H as [_ H]. now apply IH.
Qed.

Lemma drop_drop n m : forall s, drop n (drop m s) = drop (m + n) s.
Proof.
  induction m as [|m IH]; intros s; simpl; [reflexivity|].
  destruct s as [|a s]; [now destruct n | apply IH].
Qed.

Lemma rfind_from_spec c s : forall i,
  (0 <= i)%Z ->
  (rfind_from c s i = (-1)%Z /\ has_char c s = false) \/
  (exists k,
      rfind_from c s i = (i + Z.of_nat k)%Z /\
      String.get k s = Some c /\
      has_char c (drop (S k) s) = false).
Proof.
  induction s as [|a s IH]; intros i Hi; simpl.
  - now left.
  - destruct (IH (i + 1)%Z ltac:(lia)) as [[Hr Hn] | (k & Hr & Hg & Hd)].
    + rewrite Hr. simpl. destruct (Ascii.eqb_spec a c) as [->|Hne].
      * right. exists 0. simpl. split; [lia|]. split; [reflexivity|].
        now destruct s.
      * left. split; [reflexivity|]. simpl. assumption.
    + right. rewrite Hr.
      destruct (Z.leb_spec 0 (i + 1 + Z.of_nat k)) as [_|Hlt]; [|lia].
      exists (S k). split; [lia|]. split; assumption.
Qed.

Lemma rfind_from_found c s i :
  (0 <= i)%Z -> has_char c s = true -> (i <= rfind_from c s i)%Z.
Proof.
  intros Hi Hc. destruct (rfind_from_spec c s i Hi) as [[_ Hn] | (k & -> & _)];
    [congruence | lia].
Qed.

Lemma rfind_from_app c x : forall y i,
  (0 <= i)%Z ->
  rfind_from c (x ++ y)%string i =
  if has_char c y then rfind_from c y (i + Z.of_nat (String.length x))
  else rfind_from c x i.
Proof.
  induction x as [|a x IH]; intros y i Hi; simpl.
  - rewrite Z.add_0_r. destruct (has_char c y) eqn:Hy; [reflexivity|].
    destruct (rfind_from_spec c y i Hi) as [[Hr _] | (k & _ & Hg & _)];
      [assumption|].
    exfalso. clear -Hg Hy. revert k Hg.
    induction y as [|b y IHy]; intros [|k]; simpl in *; try discriminate.
    + intros H. injection H as ->. now rewrite Ascii.eqb_refl in Hy.
    + apply orb_false_iff in Hy as [_ Hy]. now apply IHy.
  - rewrite (IH y (i + 1)%Z) by lia.
    destruct (has_char c y) eqn:Hy.
    + replace (i + 1 + Z.of_nat (String.length x))%Z
        with (i + Z.pos (Pos.of_succ_nat (String.length x)))%Z by lia.
      assert (H := rfind_from_found c y
                     (i + Z.pos (Pos.of_succ_nat (String.length x)))
                     ltac:(lia) Hy).
      destruct (Z.leb_spec 0 (rfind_from c y
                     (i + Z.pos (Pos.of_succ_nat (String.length x)))));
        [reflexivity | lia].
    + reflexivity.
Qed.

Lemma name_before_dot_iff p : forall steps i,
  name_before_dot p i steps = true <->
  exists j, i <= j < i + steps /\ String.get j p <> Some "."%char.
Proof.
  induction steps as [|steps IH]; intros i; simpl.
  - split; [discriminate | intros [j [Hj _]]; lia].
  - destruct (String.get i p) as [a|] eqn:Hg.
    + destruct (Ascii.eqb_spec a "."%char) as [->|Hne].
      * rewrite IH. split.
        -- intros [j [Hj Hn]]. exists j. split; [lia | assumption].
        -- intros [j [Hj Hn]]. exists j. split; [|assumption].
           destruct (Nat.eq_dec j i) as [->|]; [congruence | lia].
      * assert (Ht : match a with
                     | "."%char => name_before_dot p (S i) steps
                     | _ => true
                     end = true).
        { destruct a as [[] [] [] [] [] [] [] []]; try reflexivity.
          now destruct Hne. }
        rewrite Ht. split; [|reflexivity]. intros _. exists i.
        split; [lia|]. rewrite Hg. congruence.
    + split; [|reflexivity]. intros _. exists i. split; [lia|].
      rewrite Hg. discriminate.
Qed.

Lemma get_app_l j : forall x y,
  j < String.length x -> String.get j (x ++ y)%string = String.get j x.
Proof.
  induction j as [|j IH]; intros [|a x] y; simpl; intros H; try lia; trivial.
  apply IH. lia.
Qed.

Lemma get_Some_lt k : forall s a,
  String.get k s = Some a -> k < String.length s.
Proof.
  induction k as [|k IH]; intros [|b s] a; simpl; try discriminate; [lia|].
  intros H. apply IH in H. lia.
Qed.

Lemma take_app_length x y : take (String.length x) (x ++ y)%string = x.
Proof. induction x as [|a x IH]; simpl; [now destruct y | now rewrite IH]. Qed.

Lemma drop_app_length x y : drop (String.length x) (x ++ y)%string = y.
Proof. induction x as [|a x IH]; simpl; [now destruct y | assumption]. Qed.

Lemma length_app_str x y :
  String.length (x ++ y)%string = String.length x + String.length y.
Proof. induction x as [|a x IH]; simpl; [reflexivity | now rewrite IH]. Qed.

Lemma append_assoc_str x y z :
  ((x ++ y) ++ z)%string = (x ++ y ++ z)%string.
Proof. induction x as [|a x IH]; simpl; [reflexivity | now rewrite IH]. Qed.

Lemma has_extension_iff p :
  has_extension p = true <->
  (rfind "/" p < rfind "." p)%Z /\
  exists j,
    (rfind "/" p + 1 <= Z.of_nat j < rfind "." p)%Z /\
    String.get j p <> Some "."%char.
Proof.
  unfold has_extension. rewrite andb_true_iff, Z.ltb_lt, name_before_dot_iff.
  assert (Hsep : (-1 <= rfind "/" p)%Z).
  { unfold rfind.
    destruct (rfind_from_spec "/" p 0 ltac:(lia)) as [[-> _] | (k & -> & _)];
      lia. }
  split; intros [Hlt [j [Hj Hn]]]; (split; [assumption|]); exists j;
    (split; [lia | assumption]).
Qed.

(** The extension, when there is one: a dot followed by characters that are
    neither a dot nor a separator; the root is what stands before it. *)
Lemma splitext_extension p :
  has_extension p = true ->
  exists root e,
    splitext p = (root, String "." e) /\
    p = (root ++ String "." e)%string /\
    has_char "." e = false /\ has_char "/" e = false /\
    rfind "." p = Z.of_nat (String.length root) /\
    rfind "/" p = rfind "/" root.
Proof.
  intros Hext. unfold splitext. rewrite Hext.
  apply has_extension_iff in Hext as [Hlt _].
  unfold rfind in *.
  destruct (rfind_from_spec "." p 0 ltac:(lia)) as [[Hr _] | (k & Hr & Hg & Hd)].
  { destruct (rfind_from_spec "/" p 0 ltac:(lia))
      as [[Hs _] | (j & Hs & _)]; lia. }
  rewrite Hr in *. simpl in Hlt |- *. rewrite Nat2Z.id.
  rewrite (get_drop k p _ Hg).
  exists (take k p), (drop (S k) p).
  assert (Hjoin : p = (take k p ++ String "." (drop (S k) p))%string).
  { rewrite <- (get_drop k p _ Hg). symmetry. apply take_drop. }
  assert (Hslash : has_char "/" (drop (S k) p) = false).
  { destruct (rfind_from_spec "/" p 0 ltac:(lia))
      as [[_ Hn] | (j & Hs & _ & Hdj)].
    - now apply has_char_drop.
    - rewrite Hs in Hlt.
      replace (S k) with (S j + (k - j)) by lia.
      rewrite <- drop_drop. now apply has_char_drop. }
  split; [reflexivity|]. split; [assumption|]. split; [assumption|].
  split; [assumption|]. split.
  - now rewrite (get_take_length k p _ Hg).
  - assert (Hlen := get_take_length k p _ Hg).
    remember (take k p) as root eqn:Hroot.
    remember (drop (S k) p) as e eqn:He.
    clear Hroot He Hg Hd Hr Hlt Hlen. subst p.
    rewrite rfind_from_app by lia. simpl. now rewrite Hslash.
Qed.

Lemma splitext_join p :
  (fst (splitext p) ++ snd (splitext p))%string = p.
Proof.
  unfold splitext. destruct (has_extension p); simpl.
  - apply take_drop.
  - apply append_empty.
Qed.

Lemma rfind_dot_only e i :
  (0 <= i)%Z -> has_char "." e = false ->
  rfind_from "." (String "." e) i = i.
Proof.
  intros Hi He. simpl.
  destruct (rfind_from_spec "." e (i + 1) ltac:(lia))
    as [[-> _] | (k & _ & Hg & _)]; [reflexivity|].
  exfalso. clear -Hg He. revert k Hg.
  induction e as [|b e IHe]; intros [|k]; simpl in *; try discriminate.
  - intros H. injection H as ->. discriminate.
  - apply orb_false_iff in He as [_ He]. now apply IHe.
Qed.

(** The default output path splits into the root of the input path followed
    by [-trimmed], and the extension of the input path. *)
Lemma splitext_default p :
  splitext (fst (splitext p) ++ "-trimmed" ++ snd (splitext p))%string
  = ((fst (splitext p) ++ "-trimmed")%string, snd (splitext p)).
Proof.
  destruct (has_extension p) eqn:Hext.
  - destruct (splitext_extension p Hext)
      as (root & e & Hs & Hp & Hdot & Hslash & Hrd & Hrs).
    rewrite Hs. cbn [fst snd].
    apply has_extension_iff in Hext as [Hlt [j [Hj Hn]]].
    set (r := (root ++ "-trimmed" ++ String "." e)%string).
    assert (Hr1 : r = ((root ++ "-trimmed") ++ String "." e)%string).
    { unfold r. symmetry. apply append_assoc_str. }
    assert (Hlen : String.length (root ++ "-trimmed")
                   = String.length root + 8)
      by now rewrite length_app_str.
    assert (Hdot' : rfind "." r = Z.of_nat (String.length root + 8)).
    { unfold rfind. rewrite Hr1, rfind_from_app by lia.
      cbn [has_char]. rewrite Ascii.eqb_refl. cbn [orb].
      rewrite rfind_dot_only by (trivial; lia). lia. }
    assert (Hsep' : rfind "/" r = rfind "/" p).
    { unfold rfind. unfold r. rewrite rfind_from_app by lia.
      assert (Hno : has_char "/" ("-trimmed" ++ String "." e) = false)
        by (simpl; exact Hslash).
      rewrite Hno. symmetry. exact Hrs. }
    assert (Hext' : has_extension r = true).
    { apply has_extension_iff. rewrite Hdot', Hsep'. split; [lia|].
      exists j. split; [lia|].
      assert (Hjlt : j < String.length root) by lia.
      unfold r. rewrite get_app_l by assumption.
      rewrite Hp in Hn. now rewrite get_app_l in Hn by assumption. }
    unfold splitext. rewrite Hext', Hdot', Nat2Z.id, <- Hlen, Hr1.
    now rewrite take_app_length, drop_app_length.
  - assert (Hsp : splitext p = (p, ""))
      by (unfold splitext; now rewrite Hext).
    rewrite Hsp. cbn [fst snd].
    replace (p ++ "-trimmed" ++ "")%string with (p ++ "-trimmed")%string
      by (clear; induction p; simpl; congruence).
    set (r := (p ++ "-trimmed")%string).
    assert (Hdot' : rfind "." r = rfind "." p).
    { unfold rfind, r. now rewrite rfind_from_app by lia. }
    assert (Hsep' : rfind "/" r = rfind "/" p).
    { unfold rfind, r. now rewrite rfind_from_app by lia. }
    assert (Hext' : has_extension r = false).
    { destruct (has_extension r) eqn:Hr; [|reflexivity].
      apply has_extension_iff in Hr as [Hlt [j [Hj Hn]]].
      rewrite Hdot', Hsep' in *.
      assert (Hp : has_extension p = true); [|congruence].
      apply has_extension_iff. split; [assumption|]. exists j.
      split; [assumption|].
      assert (Hjlt : j < String.length p).
      { unfold rfind in Hj.
        destruct (rfind_from_spec "." p 0 ltac:(lia))
          as [[Hd _] | (k & Hd & Hg & _)].
        - destruct (rfind_from_spec "/" p 0 ltac:(lia))
            as [[Hs _] | (k' & Hs & _)]; unfold rfind in Hlt; lia.
        - apply get_Some_lt in Hg. lia. }
      unfold r in Hn. now rewrite get_app_l in Hn by assumption. }
    unfold splitext. now rewrite Hext'.
Qed.

(** X16: a non-empty output path is returned as it is; without one (or with
    an empty one) the result is the input path with [-trimmed] put in before
    its extension: it differs from the input path, it has the same extension,
    and the extension is empty or a dot followed by neither dot nor slash. *)
Theorem default_output_path input_path output_path :
  (forall path,
      output_path = Some path -> path <> "" ->
      build_output_path input_path output_path = path) /\
  (output_path = None \/ output_path = Some "" ->
   let root := fst (splitext input_path) in
   let ext := snd (splitext input_path) in
   build_output_path input_path output_path
   = (root ++ "-trimmed" ++ ext)%string /\
   (root ++ ext)%string = input_path /\
   build_output_path input_path output_path <> input_path /\
   splitext (build_output_path input_path output_path)
   = ((root ++ "-trimmed")%string, ext) /\
   (ext = "" \/
    exists e, ext = String "." e /\
              has_char "." e = false /\ has_char "/" e = false)).
Proof.
  split.
  - intros path -> Hne. unfold build_output_path.
    destruct path; [contradiction | reflexivity].
  - intros Hout root ext.
    assert (Hb : build_output_path input_path output_path
                 = (root ++ "-trimmed" ++ ext)%string).
    { destruct Hout as [-> | ->]; reflexivity. }
    rewrite Hb. split; [reflexivity|]. split; [apply splitext_join|].
    split; [|split].
    + intros Heq. apply (f_equal String.length) in Heq.
      pose proof (f_equal String.length (splitext_join input_path)) as Hj.
      fold root ext in Hj. rewrite !length_app_str in Heq, Hj.
      simpl in Heq. lia.
    + apply splitext_default.
    + unfold ext. destruct (has_extension input_path) eqn:Hext.
      * right. destruct (splitext_extension _ Hext)
          as (r & e & Hs & _ & Hd & Hsl & _). rewrite Hs. now exists e.
      * left. unfold splitext. now rewrite Hext.
Qed.

Lemma default_output_path_witness :
  build_output_path "specs/api.v1.yaml" (Some "out.yaml") = "out.yaml" /\
  build_output_path "specs/api.v1.yaml" None = "specs/api.v1-trimmed.yaml" /\
  build_output_path ".hidden" (Some "") = ".hidden-trimmed".
Proof.
  destruct (default_output_path "specs/api.v1.yaml" (Some "out.yaml"))
    as [Hgiven _].
  destruct (default_output_path "specs/api.v1.yaml" None) as [_ Hdefault].
  destruct (default_output_path ".hidden" (Some "")) as [_ Hempty].
  split; [|split].
  - apply Hgiven; [reflexivity | discriminate].
  - destruct (Hdefault (or_introl eq_refl)) as [Heq _]. exact Heq.
  - destruct (Hempty (or_intror eq_refl)) as [Heq _]. exact Heq.
Defined.

(** ** The document separator *)

Lemma readline_split text :
  exists pre tail nl,
    text = (pre ++ tail)%string /\ readline text = (pre ++ nl)%string /\
    all_space nl = true /\ at_line_end tail = true /\
    has_char "010" pre = false /\ has_char "013" pre = false.
Proof.
  induction text as [|a text (pre & tail & nl & Ht & Hr & Hnl & Hend & H10 & H13)].
  - exists "", "", "". repeat split; reflexivity.
  - simpl. destruct (Ascii.eqb a "010" || Ascii.eqb a "013") eqn:Ha.
    + exists "", (String a text), (String "010" "").
      repeat split; try reflexivity. exact Ha.
    + exists (String a pre), tail, nl. apply orb_false_iff in Ha as [Ha1 Ha2].
      simpl. rewrite <- Ht, Hr, Ha1, Ha2, H10, H13. now repeat split.
Qed.

Lemma readline_line pre tail :
  has_char "010" pre = false -> has_char "013" pre = false ->
  at_line_end tail = true ->
  exists nl, readline (pre ++ tail)%string = (pre ++ nl)%string /\
             all_space nl = true.
Proof.
  intros H10 H13 Hend. induction pre as [|a pre IH]; simpl.
  - destruct tail as [|a tail]; simpl.
    + now exists "".
    + simpl in Hend. rewrite Hend. now exists (String "010" "").
  - simpl in H10, H13. apply orb_false_iff in H10 as [Ha1 H10].
    apply orb_false_iff in H13 as [Ha2 H13]. rewrite Ha1, Ha2. simpl.
    destruct (IH H10 H13) as (nl & -> & Hnl). now exists nl.
Qed.

Lemma lstrip_spaces l x :
  all_space l = true -> StrOps.lstrip (l ++ x)%string = StrOps.lstrip x.
Proof.
  induction l as [|a l IH]; simpl; [reflexivity|].
  intros H. apply andb_true_iff in H as [Ha Hl]. rewrite Ha. now apply IH.
Qed.

Lemma rstrip_all_space r : all_space r = true -> StrOps.rstrip r = "".
Proof.
  induction r as [|a r IH]; simpl; [reflexivity|].
  intros H. apply andb_true_iff in H as [Ha Hr]. now rewrite (IH Hr), Ha.
Qed.

Lemma rstrip_spaces x r :
  all_space r = true -> StrOps.rstrip (x ++ r)%string = StrOps.rstrip x.
Proof.
  intros Hr. induction x as [|a x IH]; simpl.
  - now apply rstrip_all_space.
  - now rewrite IH.
Qed.

Lemma strip_spaces x r :
  all_space r = true -> StrOps.strip (x ++ r)%string = StrOps.strip x.
Proof.
  intros Hr. unfold StrOps.strip. induction x as [|a x IH]; simpl.
  - rewrite <- (append_empty r) at 1. rewrite lstrip_spaces by assumption.
    reflexivity.
  - destruct (StrOps.isspace a); [exact IH|].
    now apply (rstrip_spaces (String a x)).
Qed.

(** X17: [read_yaml] sets the separator flag exactly when the first line of
    the file is [---] with nothing but whitespace around it; a file written
    with the flag set is read back with the flag set. *)
Theorem separator_detection :
  (forall text,
      has_yaml_doc_separator text = true <->
      exists l r tail,
        text = (l ++ "---" ++ r ++ tail)%string /\
        all_space l = true /\ all_space r = true /\
        has_char "010" (l ++ r) = false /\
        has_char "013" (l ++ r) = false /\
        at_line_end tail = true) /\
  (forall dumped, has_yaml_doc_separator (written_text true dumped) = true).
Proof.
  split; [|reflexivity].
  intros text. unfold has_yaml_doc_separator. rewrite String.eqb_eq. split.
  - intros H.
    destruct (readline_split text)
      as (pre & tail & nl & Ht & Hr & Hnl & Hend & H10 & H13).
    rewrite Hr, strip_spaces in H by assumption.
    destruct (str_strip_spec pre) as (l & r & Hpre & Hl & Hsr & _).
    rewrite H in Hpre. exists l, r, tail. rewrite Hpre in H10, H13.
    rewrite !has_char_app in H10, H13. simpl in H10, H13.
    apply orb_false_iff in H10 as [H10l H10r].
    apply orb_false_iff in H13 as [H13l H13r].
    rewrite !has_char_app, H10l, H10r, H13l, H13r.
    split; [|now repeat split].
    rewrite Ht, Hpre. now rewrite !append_assoc_str.
  - intros (l & r & tail & -> & Hl & Hsr & H10 & H13 & Hend).
    rewrite has_char_app in H10, H13.
    apply orb_false_iff in H10 as [H10l H10r].
    apply orb_false_iff in H13 as [H13l H13r].
    destruct (readline_line (l ++ "---" ++ r) tail) as (nl & Hline & Hnl).
    + rewrite !has_char_app, H10l, H10r. reflexivity.
    + rewrite !has_char_app, H13l, H13r. reflexivity.
    + assumption.
    + replace (l ++ "---" ++ r ++ tail)%string
        with ((l ++ "---" ++ r) ++ tail)%string
        by now rewrite !append_assoc_str.
      rewrite Hline, strip_spaces by assumption.
      unfold StrOps.strip. rewrite lstrip_spaces by assumption.
      change (StrOps.lstrip ("---" ++ r)) with ("---" ++ r)%string.
      now rewrite rstrip_spaces.
Qed.

Lemma separator_detection_witness :
  has_yaml_doc_separator
    (" ---" ++ String "013" (String "010" "openapi: 3.0.0")) = true /\
  has_yaml_doc_separator "openapi: 3.0.0" = false.
Proof.
  split; [|reflexivity].
  apply (proj2 (proj1 separator_detection _)).
  exists " ", "", (String "013" (String "010" "openapi: 3.0.0")).
  repeat split; reflexivity.
Defined.
